(** * The streaming response assembler of the chat client

    A shallow embedding of [handleStreamResponse], [handleNewChat] and
    [handleSendPrompt] of the React component [App] (the third source of
    src/prisma/schema.prisma; [handleStreamResponse] is at lines 298 to
    381), with the parts of the JavaScript platform they call: UTF-16
    strings and their methods, [TextDecoder], [JSON.parse], property
    access and string concatenation on parsed values, and
    [String.prototype.split] with the regular expression of the paced
    emitter.

    Layout: the platform ([JS], [TextDecoder], [JSNumber], [JSON],
    [RegExp]), the component ([App]), the assembler as the specification
    words it ([Spec]), the notions of the statements ([Notions]) and the
    inputs of the examples ([Examples]); then the lemmas, and the
    theorems C1 to C10.

    Beyond the three handlers, the development covers the rest of the
    component that reads and writes the chats ([handleChatClick], the
    effect that loads the chats, [handleDeleteChat] and [confirmDelete],
    in [Sidebar]), what it renders ([renderMessage] and the loading
    animation in [Display], two conditions of the page in [View]), and
    the routes of the Express server over the Prisma schema (the second
    source of src/src/types/index.d.ts, in [Server]; [Wire] puts the chat
    list over that server), and the settings ([fetchOllamaModels],
    [fetchOpenRouterModels], [handleSaveSettings] and the two effects
    that restore the settings, in [Settings]). [Sessions] has the notions
    of the statements about whole sessions and exchanges, [Cases] further
    inputs. The theorems X1 to X29 follow those of the claims. *)

From Stdlib Require Import String Ascii ZArith List Bool Lia.
Import ListNotations.
Local Open Scope Z_scope.
Set Warnings "-register-all".

(* ================================================================== *)
(** ** JavaScript strings *)
(* ================================================================== *)

Module JS.

(** A JavaScript string is a sequence of UTF-16 code units. *)
Abbreviation code_unit := Z (only parsing).
Abbreviation jsstring := (list Z) (only parsing).

(** An ASCII literal as a JavaScript string. *)
Definition lit (s : string) : jsstring :=
  map (fun a => Z.of_N (N_of_ascii a)) (list_ascii_of_string s).

(** JSON examples are written with an apostrophe where the text has a
    quotation mark (U+0022): [quoted "{'a':1}"] is the text [{"a":1}]. *)
Definition quoted (s : string) : jsstring :=
  map (fun c => if c =? 39 then 34 else c) (lit s).

Fixpoint str_eqb (a b : jsstring) : bool :=
  match a, b with
  | [], [] => true
  | x :: a', y :: b' => (x =? y) && str_eqb a' b'
  | _, _ => false
  end.

(** ECMA-262 WhiteSpace and LineTerminator code points: what
    [String.prototype.trim] strips and what [\s] matches. *)
Definition is_white_space (c : code_unit) : bool :=
  ((9 <=? c) && (c <=? 13)) || (c =? 32) || (c =? 160) || (c =? 5760)
  || ((8192 <=? c) && (c <=? 8202)) || (c =? 8232) || (c =? 8233)
  || (c =? 8239) || (c =? 8287) || (c =? 12288) || (c =? 65279).

Fixpoint drop_white_space (s : jsstring) : jsstring :=
  match s with
  | c :: s' => if is_white_space c then drop_white_space s' else s
  | [] => []
  end.

(** [s.trim()] *)
Definition trim (s : jsstring) : jsstring :=
  rev (drop_white_space (rev (drop_white_space s))).

(** Truthiness of a string: [!s] is [negb (truthy_string s)]. *)
Definition truthy_string (s : jsstring) : bool :=
  match s with [] => false | _ :: _ => true end.

(** [s.split(sep)] for a separator of one code unit. *)
Fixpoint split (sep : code_unit) (s : jsstring) : list jsstring :=
  match s with
  | [] => [[]]
  | c :: s' =>
      if c =? sep then [] :: split sep s'
      else match split sep s' with
           | l :: ls => (c :: l) :: ls
           | [] => [[c]]
           end
  end.

(** [s.startsWith(p)] *)
Fixpoint startsWith (p s : jsstring) : bool :=
  match p, s with
  | [], _ => true
  | x :: p', y :: s' => (x =? y) && startsWith p' s'
  | _ :: _, [] => false
  end.

(** [s.includes(p)] *)
Fixpoint includes (p s : jsstring) : bool :=
  startsWith p s || match s with [] => false | _ :: s' => includes p s' end.

(** [s.slice(n)] for [0 <= n]. *)
Definition slice (n : nat) (s : jsstring) : jsstring := skipn n s.

(** [s.slice(0, n)] for [0 <= n]. *)
Definition slice_to (n : nat) (s : jsstring) : jsstring := firstn n s.

End JS.

(* ================================================================== *)
(** ** TextDecoder *)
(* ================================================================== *)

(** [new TextDecoder()] is a UTF-8 decoder that is not fatal and does not
    ignore the byte order mark; [decoder.decode(value)] is called without
    [{stream: true}], so every call starts from a fresh decoder and flushes
    it (WHATWG Encoding, 7.1 and 9.1.1). *)
Module TextDecoder.

Record state := mkState {
  code_point : Z;
  bytes_seen : Z;
  bytes_needed : Z;
  lower_boundary : Z;
  upper_boundary : Z
}.

Definition initial : state := mkState 0 0 0 128 191.

(** The handler when no bytes are needed: the byte starts a sequence. *)
Definition lead (b : Z) : state * list Z :=
  if b <=? 127 then (initial, [b])
  else if (194 <=? b) && (b <=? 223) then
    (mkState (Z.land b 31) 0 1 128 191, [])
  else if (224 <=? b) && (b <=? 239) then
    (mkState (Z.land b 15) 0 2
       (if b =? 224 then 160 else 128) (if b =? 237 then 159 else 191), [])
  else if (240 <=? b) && (b <=? 244) then
    (mkState (Z.land b 7) 0 3
       (if b =? 240 then 144 else 128) (if b =? 244 then 143 else 191), [])
  else (initial, [65533]).

(** The handler on one byte: the new state and the code points emitted. A
    byte outside the expected range ends the sequence with U+FFFD and is
    read again as the start of a sequence. *)
Definition handler (st : state) (b : Z) : state * list Z :=
  if bytes_needed st =? 0 then lead b
  else if negb ((lower_boundary st <=? b) && (b <=? upper_boundary st)) then
    let (st', out) := lead b in (st', 65533 :: out)
  else
    let cp := Z.lor (Z.shiftl (code_point st) 6) (Z.land b 63) in
    if bytes_seen st + 1 =? bytes_needed st then (initial, [cp])
    else (mkState cp (bytes_seen st + 1) (bytes_needed st) 128 191, []).

(** The decoder run to the end of the queue: an unfinished sequence ends
    with U+FFFD. *)
Fixpoint run (st : state) (bytes : list Z) : list Z :=
  match bytes with
  | [] => if bytes_needed st =? 0 then [] else [65533]
  | b :: bs => let (st', out) := handler st b in out ++ run st' bs
  end.

Definition utf8_decode (bytes : list Z) : list Z := run initial bytes.

(** A leading U+FEFF is dropped once. *)
Definition strip_bom (cps : list Z) : list Z :=
  match cps with
  | c :: rest => if c =? 65279 then rest else cps
  | [] => []
  end.

(** A code point as UTF-16 code units. *)
Definition utf16 (cp : Z) : JS.jsstring :=
  if cp <? 65536 then [cp]
  else [55296 + Z.shiftr (cp - 65536) 10; 56320 + Z.land (cp - 65536) 1023].

(** [decoder.decode(value)] *)
Definition decode (bytes : list Z) : JS.jsstring :=
  flat_map utf16 (strip_bom (utf8_decode bytes)).

(** In every state the decoder reaches, a continuation byte is at least
    128. *)
Definition expects_high (st : state) : Prop := 128 <= lower_boundary st.

End TextDecoder.

(* ================================================================== *)
(** ** Number values *)
(* ================================================================== *)

(** The Number values [JSON.parse] can produce, with their truthiness and
    [Number::toString] (ECMA-262 6.1.6.1.20). A binary64 value is kept
    exactly, as sign, integer significand and binary exponent. *)
Module JSNumber.

(** [Finite neg m e] is [(-1)^neg * m * 2^e], normalised: either
    [2^52 <= m < 2^53] and [-1074 <= e <= 971], or [m < 2^52] and
    [e = -1074] (subnormal numbers and zero). *)
Inductive number :=
| Finite (neg : bool) (mant expo : Z)
| Infinite (neg : bool).

(** The quotient [n / d] rounded to the nearest integer, ties to even. *)
Definition round_half_even (n d : Z) : Z :=
  let q := n / d in
  let r := n mod d in
  if 2 * r <? d then q
  else if d <? 2 * r then q + 1
  else if Z.even q then q else q + 1.

(** The rational [n / d] ([0 <= n], [0 < d]) rounded to binary64. *)
Definition round_binary64 (neg : bool) (n d : Z) : number :=
  if n =? 0 then Finite neg 0 (-1074)
  else
    let l0 := Z.log2 n - Z.log2 d in
    let l :=
      if (if 0 <=? l0 then d * 2 ^ l0 <=? n else d <=? n * 2 ^ (- l0))
      then l0 else l0 - 1 in
    let e := Z.max (l - 52) (-1074) in
    let m :=
      if 0 <=? e then round_half_even n (d * 2 ^ e)
      else round_half_even (n * 2 ^ (- e)) d in
    let e' := if m =? 2 ^ 53 then e + 1 else e in
    let m' := if m =? 2 ^ 53 then 2 ^ 52 else m in
    if 971 <? e' then Infinite neg else Finite neg m' e'.

(** The Number value of the decimal [(-1)^neg * m * 10^e]. *)
Definition of_decimal (neg : bool) (m e : Z) : number :=
  if 0 <=? e then round_binary64 neg (m * 10 ^ e) 1
  else round_binary64 neg m (10 ^ (- e)).

Definition number_eqb (x y : number) : bool :=
  match x, y with
  | Finite a m e, Finite b m' e' => Bool.eqb a b && (m =? m') && (e =? e')
  | Infinite a, Infinite b => Bool.eqb a b
  | _, _ => false
  end.

(** [ToBoolean]: zero is the only falsy Number here (there is no NaN). *)
Definition truthy (x : number) : bool :=
  match x with
  | Finite _ m _ => negb (m =? 0)
  | Infinite _ => true
  end.

Fixpoint digits_from (fuel : nat) (z : Z) (acc : JS.jsstring) : JS.jsstring :=
  match fuel with
  | O => acc
  | S f => if z =? 0 then acc else digits_from f (z / 10) ((48 + z mod 10) :: acc)
  end.

(** The decimal digits of [0 <= z]. *)
Definition decimal (z : Z) : JS.jsstring :=
  if z =? 0 then [48] else digits_from (S (Z.to_nat (Z.log2 z))) z [].

Definition num_digits (z : Z) : Z := Z.of_nat (List.length (decimal z)).

(** The [n] with [10^(n-1) <= p/q < 10^n], for [0 < p], [0 < q]. *)
Definition magnitude (p q : Z) : Z :=
  if q <=? p then num_digits (p / q)
  else 1 - num_digits ((q + p - 1) / p - 1).

(** The digit strings of length [k] next to [p/q]: the candidates [(s, n)]
    with [s * 10^(n-k)] just below and just above, the nearer one first. *)
Definition candidates (p q k : Z) : list (Z * Z) :=
  let n := magnitude p q in
  let sn := if 0 <=? n - k then p else p * 10 ^ (k - n) in
  let sd := if 0 <=? n - k then q * 10 ^ (n - k) else q in
  let lo := sn / sd in
  let r := sn mod sd in
  let hi := if lo + 1 =? 10 ^ k then (10 ^ (k - 1), n + 1) else (lo + 1, n) in
  if 2 * r <? sd then [(lo, n); hi]
  else if sd <? 2 * r then [hi; (lo, n)]
  else if Z.even lo then [(lo, n); hi] else [hi; (lo, n)].

(** The shortest digit string that reads back as [m * 2^e]: [(s, k, n)]
    with [k] digits, tried from [k] upwards for [fuel] lengths. *)
Fixpoint shortest (fuel : nat) (k : Z) (m e : Z) : Z * Z * Z :=
  let p := if 0 <=? e then m * 2 ^ e else m in
  let q := if 0 <=? e then 1 else 2 ^ (- e) in
  let cs := candidates p q k in
  let good := filter (fun c => number_eqb (of_decimal false (fst c) (snd c - k))
                                          (Finite false m e)) cs in
  match good, fuel with
  | (s, n) :: _, _ => (s, k, n)
  | [], S f => shortest f (k + 1) m e
  | [], O => match cs with (s, n) :: _ => (s, k, n) | [] => (0, k, 0) end
  end.

Definition zeros (n : Z) : JS.jsstring := repeat 48 (Z.to_nat n).

(** Steps 6 to 10 of Number::toString for the digits [s]. *)
Definition format (s k n : Z) : JS.jsstring :=
  let ds := decimal s in
  if (k <=? n) && (n <=? 21) then ds ++ zeros (n - k)
  else if (0 <? n) && (n <=? 21) then
    firstn (Z.to_nat n) ds ++ [46] ++ skipn (Z.to_nat n) ds
  else if (-6 <? n) && (n <=? 0) then [48; 46] ++ zeros (- n) ++ ds
  else
    let sign := if n - 1 <? 0 then 45 else 43 in
    let ex := [101; sign] ++ decimal (Z.abs (n - 1)) in
    if k =? 1 then ds ++ ex
    else firstn 1 ds ++ [46] ++ skipn 1 ds ++ ex.

(** [Number::toString(x)] in radix 10. *)
Definition toString (x : number) : JS.jsstring :=
  match x with
  | Infinite neg => (if neg then [45] else []) ++ JS.lit "Infinity"
  | Finite neg m e =>
      if m =? 0 then [48]
      else
        let '(s, k, n) := shortest 16 1 m e in
        (if neg then [45] else []) ++ format s k n
  end.

End JSNumber.

(* ================================================================== *)
(** ** JSON.parse and the values it returns *)
(* ================================================================== *)

Module JSON.

Import JS.

Inductive json :=
| JNull
| JBool (b : bool)
| JNumber (x : JSNumber.number)
| JString (s : jsstring)
| JArray (items : list json)
| JObject (members : list (jsstring * json)).

(** *** The parser (ECMA-404 grammar, as ECMA-262 25.5.1 reads it) *)

Definition is_ws (c : code_unit) : bool :=
  (c =? 32) || (c =? 9) || (c =? 10) || (c =? 13).

Fixpoint skip_ws (s : jsstring) : jsstring :=
  match s with
  | c :: s' => if is_ws c then skip_ws s' else s
  | [] => []
  end.

Definition is_digit (c : code_unit) : bool := (48 <=? c) && (c <=? 57).

Definition hex_digit (c : code_unit) : option Z :=
  if is_digit c then Some (c - 48)
  else if (97 <=? c) && (c <=? 102) then Some (c - 87)
  else if (65 <=? c) && (c <=? 70) then Some (c - 55)
  else None.

(** The character a one-letter escape stands for. *)
Definition escape (c : code_unit) : option code_unit :=
  if c =? 34 then Some 34 else if c =? 92 then Some 92
  else if c =? 47 then Some 47 else if c =? 98 then Some 8
  else if c =? 102 then Some 12 else if c =? 110 then Some 10
  else if c =? 114 then Some 13 else if c =? 116 then Some 9
  else None.

Definition prepend (c : code_unit) (r : option (jsstring * jsstring))
  : option (jsstring * jsstring) :=
  match r with
  | Some (s, rest) => Some (c :: s, rest)
  | None => None
  end.

(** A string, read from after its opening quotation mark: its value and
    the text after the closing quotation mark. *)
Fixpoint parse_string (s : jsstring) : option (jsstring * jsstring) :=
  match s with
  | [] => None
  | c :: s1 =>
      if c =? 34 then Some ([], s1)
      else if c =? 92 then
        match s1 with
        | [] => None
        | e :: s2 =>
            if e =? 117 then
              match s2 with
              | h1 :: h2 :: h3 :: h4 :: s3 =>
                  match hex_digit h1, hex_digit h2, hex_digit h3, hex_digit h4 with
                  | Some a, Some b, Some c', Some d =>
                      prepend (4096 * a + 256 * b + 16 * c' + d) (parse_string s3)
                  | _, _, _, _ => None
                  end
              | _ => None
              end
            else
              match escape e with
              | Some ch => prepend ch (parse_string s2)
              | None => None
              end
        end
      else if c <? 32 then None
      else prepend c (parse_string s1)
  end.

(** A run of digits appended to the decimal accumulator [acc]: the new
    accumulator, the number of digits read added to [n], and the rest. *)
Fixpoint take_digits (s : jsstring) (acc n : Z) : Z * Z * jsstring :=
  match s with
  | c :: s' => if is_digit c then take_digits s' (10 * acc + (c - 48)) (n + 1)
               else (acc, n, s)
  | [] => (acc, n, [])
  end.

(** The integer part: [0], or a digit from 1 to 9 and more digits. *)
Definition parse_int (s : jsstring) : option (Z * jsstring) :=
  match s with
  | c :: s' =>
      if c =? 48 then Some (0, s')
      else if is_digit c then
        let '(m, _, rest) := take_digits s 0 0 in Some (m, rest)
      else None
  | [] => None
  end.

(** The optional fraction: the significand with the fraction's digits
    appended, and how many they are. *)
Definition parse_frac (m : Z) (s : jsstring) : option (Z * Z * jsstring) :=
  match s with
  | c :: s' =>
      if c =? 46 then
        let '(m', n, rest) := take_digits s' m 0 in
        if n =? 0 then None else Some (m', n, rest)
      else Some (m, 0, s)
  | [] => Some (m, 0, [])
  end.

(** The optional exponent. *)
Definition parse_exp (s : jsstring) : option (Z * jsstring) :=
  match s with
  | c :: s' =>
      if (c =? 101) || (c =? 69) then
        let neg := match s' with d :: _ => d =? 45 | [] => false end in
        let signed := match s' with d :: _ => (d =? 45) || (d =? 43) | [] => false end in
        let '(e, n, rest) := take_digits (if signed then tl s' else s') 0 0 in
        if n =? 0 then None else Some (if neg then - e else e, rest)
      else Some (0, s)
  | [] => Some (0, [])
  end.

Definition parse_number (s : jsstring) : option (json * jsstring) :=
  let neg := match s with c :: _ => c =? 45 | [] => false end in
  match parse_int (if neg then tl s else s) with
  | None => None
  | Some (m, s1) =>
      match parse_frac m s1 with
      | None => None
      | Some (m', digits, s2) =>
          match parse_exp s2 with
          | None => None
          | Some (e, s3) =>
              Some (JNumber (JSNumber.of_decimal neg m' (e - digits)), s3)
          end
      end
  end.

(** The literal names, read from after their first letter. *)
Definition parse_literal (name : jsstring) (v : json) (s : jsstring)
  : option (json * jsstring) :=
  if startsWith name s then Some (v, skipn (List.length name) s) else None.

(** A value, the elements of an array after its bracket, and the members
    of an object after its brace. Every call uses one unit of [fuel]; a
    text of [n] code units needs at most [2 * n + 2]. *)
Fixpoint parse_value (fuel : nat) (s : jsstring) : option (json * jsstring) :=
  match fuel with
  | O => None
  | S f =>
      match skip_ws s with
      | [] => None
      | c :: s1 =>
          if c =? 110 then parse_literal (lit "ull") JNull s1
          else if c =? 116 then parse_literal (lit "rue") (JBool true) s1
          else if c =? 102 then parse_literal (lit "alse") (JBool false) s1
          else if c =? 34 then
            match parse_string s1 with
            | Some (str, rest) => Some (JString str, rest)
            | None => None
            end
          else if c =? 91 then
            match skip_ws s1 with
            | c' :: s2 =>
                if c' =? 93 then Some (JArray [], s2)
                else match parse_elements f s1 with
                     | Some (items, rest) => Some (JArray items, rest)
                     | None => None
                     end
            | [] => None
            end
          else if c =? 123 then
            match skip_ws s1 with
            | c' :: s2 =>
                if c' =? 125 then Some (JObject [], s2)
                else match parse_members f s1 with
                     | Some (ms, rest) => Some (JObject ms, rest)
                     | None => None
                     end
            | [] => None
            end
          else parse_number (c :: s1)
      end
  end
with parse_elements (fuel : nat) (s : jsstring) : option (list json * jsstring) :=
  match fuel with
  | O => None
  | S f =>
      match parse_value f s with
      | None => None
      | Some (v, s1) =>
          match skip_ws s1 with
          | c :: s2 =>
              if c =? 44 then
                match parse_elements f s2 with
                | Some (vs, rest) => Some (v :: vs, rest)
                | None => None
                end
              else if c =? 93 then Some ([v], s2)
              else None
          | [] => None
          end
      end
  end
with parse_members (fuel : nat) (s : jsstring)
  : option (list (jsstring * json) * jsstring) :=
  match fuel with
  | O => None
  | S f =>
      match skip_ws s with
      | c :: s1 =>
          if c =? 34 then
            match parse_string s1 with
            | None => None
            | Some (k, s2) =>
                match skip_ws s2 with
                | c2 :: s3 =>
                    if c2 =? 58 then
                      match parse_value f s3 with
                      | None => None
                      | Some (v, s4) =>
                          match skip_ws s4 with
                          | c3 :: s5 =>
                              if c3 =? 44 then
                                match parse_members f s5 with
                                | Some (ms, rest) => Some ((k, v) :: ms, rest)
                                | None => None
                                end
                              else if c3 =? 125 then Some ([(k, v)], s5)
                              else None
                          | [] => None
                          end
                      end
                    else None
                | [] => None
                end
            end
          else None
      | [] => None
      end
  end.

(** [JSON.parse(text)]: [None] is the SyntaxError. *)
Definition parse (text : jsstring) : option json :=
  match parse_value (2 * List.length text + 2) text with
  | Some (v, rest) => match skip_ws rest with [] => Some v | _ :: _ => None end
  | None => None
  end.

(** *** The values of expressions over a parsed text *)

Inductive value :=
| Undefined
| Value (j : json).

(** The result of evaluating an expression: a value, or an abrupt
    completion (a thrown TypeError). *)
Inductive completion (A : Type) :=
| Normal (a : A)
| Abrupt.
Arguments Normal {A} a.
Arguments Abrupt {A}.

(** ToBoolean *)
Definition truthy (v : value) : bool :=
  match v with
  | Undefined => false
  | Value JNull => false
  | Value (JBool b) => b
  | Value (JNumber x) => JSNumber.truthy x
  | Value (JString s) => truthy_string s
  | Value (JArray _) => true
  | Value (JObject _) => true
  end.

(** The member of an object that [JSON.parse] built: of two members with
    one name, the later one stands. *)
Fixpoint lookup (k : jsstring) (ms : list (jsstring * json)) : option json :=
  match ms with
  | [] => None
  | (k', v) :: rest =>
      match lookup k rest with
      | Some v' => Some v'
      | None => if str_eqb k k' then Some v else None
      end
  end.

(** [v.k] for the names the component reads ([message], [response],
    [content], [choices], [delta]): no prototype object has a property of
    these names, so only an object's own members answer. *)
Definition get (v : value) (k : jsstring) : completion value :=
  match v with
  | Undefined => Abrupt
  | Value JNull => Abrupt
  | Value (JObject ms) =>
      Normal (match lookup k ms with Some x => Value x | None => Undefined end)
  | Value _ => Normal Undefined
  end.

(** [v[0]] *)
Definition get0 (v : value) : completion value :=
  match v with
  | Undefined => Abrupt
  | Value JNull => Abrupt
  | Value (JArray (x :: _)) => Normal (Value x)
  | Value (JString (c :: _)) => Normal (Value (JString [c]))
  | Value (JObject ms) =>
      Normal (match lookup (lit "0") ms with Some x => Value x | None => Undefined end)
  | Value _ => Normal Undefined
  end.

(** [v?.k] *)
Definition get_opt (v : value) (k : jsstring) : value :=
  match v with
  | Undefined => Undefined
  | Value JNull => Undefined
  | _ => match get v k with Normal x => x | Abrupt => Undefined end
  end.

Definition has_own (k : jsstring) (ms : list (jsstring * json)) : bool :=
  match lookup k ms with Some _ => true | None => false end.

(** ToString of a parsed value, as [s + v] and [s += v] apply it. An
    object is [[object Object]] through [Object.prototype.toString],
    unless a member named [toString] hides that method: a member is never
    callable, so the conversion fails. An array is its elements joined by
    commas, [null] counting as empty. *)
Fixpoint to_string (j : json) : completion jsstring :=
  match j with
  | JNull => Normal (lit "null")
  | JBool true => Normal (lit "true")
  | JBool false => Normal (lit "false")
  | JNumber x => Normal (JSNumber.toString x)
  | JString s => Normal s
  | JObject ms =>
      if has_own (lit "toString") ms then Abrupt
      else Normal (lit "[object Object]")
  | JArray items =>
      (fix join (l : list json) (first : bool) : completion jsstring :=
         match l with
         | [] => Normal []
         | x :: l' =>
             match (match x with JNull => Normal [] | _ => to_string x end),
                   join l' false with
             | Normal a, Normal b =>
                 Normal ((if first then [] else [44]) ++ a ++ b)
             | _, _ => Abrupt
             end
         end) items true
  end.

Definition to_string_value (v : value) : completion jsstring :=
  match v with
  | Undefined => Normal (lit "undefined")
  | Value j => to_string j
  end.

End JSON.

(* ================================================================== *)
(** ** The regular expression of the paced emitter *)
(* ================================================================== *)

Module RegExp.

Import JS.

(** The class [[.,!?]]. *)
Definition is_punctuation (c : code_unit) : bool :=
  (c =? 46) || (c =? 44) || (c =? 33) || (c =? 63).

(** What [\s+] matches at the head of [s]. *)
Fixpoint take_white_space (s : jsstring) : jsstring :=
  match s with
  | c :: s' => if is_white_space c then c :: take_white_space s' else []
  | [] => []
  end.

(** The loop of [RegExp.prototype[Symbol.split]] (ECMA-262 22.2.6.14) for
    [/(\s+|[.,!?])/]: [T] is the text since the last match. Where the
    expression matches, [T] is pushed, then the captured match, and the
    scan goes on after it; elsewhere the scan moves one code unit on. *)
Fixpoint split_loop (fuel : nat) (T s : jsstring) : list jsstring :=
  match fuel with
  | O => [T ++ s]
  | S f =>
      match s with
      | [] => [T]
      | c :: s' =>
          if is_white_space c then
            T :: take_white_space s :: split_loop f [] (drop_white_space s)
          else if is_punctuation c then T :: [c] :: split_loop f [] s'
          else split_loop f (T ++ [c]) s'
      end
  end.

(** [s.split(/(\s+|[.,!?])/)] *)
Definition split_words (s : jsstring) : list jsstring :=
  split_loop (List.length s) [] s.

End RegExp.

(* ================================================================== *)
(** ** The component *)
(* ================================================================== *)

Module App.

Import JS JSON.

Record Message := mkMessage {
  msg_content : jsstring;
  msg_role : jsstring
}.

Record Chat := mkChat {
  chat_id : jsstring;
  chat_title : jsstring
}.

(** What the transport reader answers to one [reader.read()] before the
    end of the stream: a chunk of bytes, or a rejection. *)
Inductive read_result :=
| Chunk (bytes : list Z)
| ReadError.

(** The requests [handleSendPrompt] issues with [fetch]. *)
Inductive request :=
| CreateChat (title : jsstring)
| SaveMessage (chatId content role : jsstring)
| OpenRouterCompletion (apiKey model : jsstring) (messages : list Message)
| OllamaGenerate (endpoint model prompt : jsstring).

(** What the component does to the world outside its state, in order. *)
Inductive effect :=
| SetStreamedResponse (text : jsstring)
| Timeout (ms : Z)
| ConsoleError
| GetReader
| ReleaseLock
| Fetch (r : request).

(** The state of the component that the three handlers read or write:
    the React state variables, the ref [streamBufferRef], and the trace of
    effects so far (oldest first). *)
Record world := mkWorld {
  selectedLLM : jsstring;
  prompt : jsstring;
  apiProvider : jsstring;
  openRouterApiKey : jsstring;
  ollamaEndpoint : jsstring;
  currentChatId : option jsstring;
  chats : list Chat;
  chatHistory : list Message;
  streamedResponse : jsstring;
  streamBufferRef : jsstring;
  isGenerating : bool;
  isConversationStarted : bool;
  settingsError : jsstring;
  trace : list effect
}.

Definition with_buffer (w : world) (b : jsstring) : world :=
  mkWorld (selectedLLM w) (prompt w) (apiProvider w) (openRouterApiKey w)
    (ollamaEndpoint w) (currentChatId w) (chats w) (chatHistory w)
    (streamedResponse w) b (isGenerating w) (isConversationStarted w)
    (settingsError w) (trace w).

Definition perform (w : world) (e : effect) : world :=
  mkWorld (selectedLLM w) (prompt w) (apiProvider w) (openRouterApiKey w)
    (ollamaEndpoint w) (currentChatId w) (chats w) (chatHistory w)
    (streamedResponse w) (streamBufferRef w) (isGenerating w)
    (isConversationStarted w) (settingsError w) (trace w ++ [e]).

(** [setStreamedResponse(text)]: the observer of the buffer is notified. *)
Definition setStreamedResponse (w : world) (text : jsstring) : world :=
  perform
    (mkWorld (selectedLLM w) (prompt w) (apiProvider w) (openRouterApiKey w)
       (ollamaEndpoint w) (currentChatId w) (chats w) (chatHistory w)
       text (streamBufferRef w) (isGenerating w) (isConversationStarted w)
       (settingsError w) (trace w))
    (SetStreamedResponse text).

(** [streamBufferRef.current += text;
     setStreamedResponse(streamBufferRef.current);] *)
Definition emit (w : world) (text : jsstring) : world :=
  let w' := with_buffer w (streamBufferRef w ++ text) in
  setStreamedResponse w' (streamBufferRef w').

(** How a block of statements ends. *)
Inductive outcome :=
| Completed
| Thrown.

(** [emit] for a value that is not known to be a string: the conversion
    to a string comes first and may throw. *)
Definition emit_value (w : world) (v : value) : world * outcome :=
  match to_string_value v with
  | Normal text => (emit w text, Completed)
  | Abrupt => (w, Thrown)
  end.

(** *** [handleStreamResponse], the LineDelimitedJSON branch *)

(** [!line.trim()] *)
Definition blank (line : jsstring) : bool := negb (truthy_string (trim line)).

(** The body of the loop over the lines of a chunk
    ([apiProvider === 'ollama']). *)
Definition ollama_line (w : world) (line : jsstring) : world * outcome :=
  if blank line then (w, Completed)
  else
    match JSON.parse line with
    | None => (w, Thrown)
    | Some data =>
        match get (Value data) (lit "message") with
        | Abrupt => (w, Thrown)
        | Normal message =>
            if truthy message then
              match get message (lit "content") with
              | Abrupt => (w, Thrown)
              | Normal content => emit_value w content
              end
            else
              match get (Value data) (lit "response") with
              | Abrupt => (w, Thrown)
              | Normal response =>
                  if truthy response then emit_value w response
                  else (w, Completed)
              end
        end
    end.

(** [for (const line of lines) ...]: the loop ends at the first line that
    throws. *)
Fixpoint ollama_lines (w : world) (lines : list jsstring) : world * outcome :=
  match lines with
  | [] => (w, Completed)
  | line :: rest =>
      match ollama_line w line with
      | (w', Completed) => ollama_lines w' rest
      | (w', Thrown) => (w', Thrown)
      end
  end.

(** [try { for ... } catch (e) { streamBufferRef.current += chunk; ... }] *)
Definition ollama_chunk (w : world) (chunk : jsstring) : world :=
  match ollama_lines w (split 10 chunk) with
  | (w', Completed) => w'
  | (w', Thrown) => emit w' chunk
  end.

(** *** [handleStreamResponse], the ServerSentEvents branch *)

(** The part of the session that is local to one call: the world and the
    variable [wordBuffer]. *)
Definition session := (world * jsstring)%type.

(** [jsonData.choices && jsonData.choices[0]?.delta?.content] *)
Definition delta_content (jsonData : json) : completion value :=
  match get (Value jsonData) (lit "choices") with
  | Abrupt => Abrupt
  | Normal choices =>
      if truthy choices then
        match get0 choices with
        | Abrupt => Abrupt
        | Normal first => Normal (get_opt (get_opt first (lit "delta")) (lit "content"))
        end
      else Normal choices
  end.

(** [for (const word of words) if (word) { await ...; emit word }] *)
Fixpoint emit_words (w : world) (words : list jsstring) : world :=
  match words with
  | [] => w
  | word :: rest =>
      if truthy_string word then
        emit_words (emit (perform w (Timeout 30)) word) rest
      else emit_words w rest
  end.

(** The body of the inner [try] for a line that starts with [data: ]. *)
Definition data_line (isGeminiModel : bool) (s : session) (line : jsstring)
  : session * outcome :=
  let (w, wordBuffer) := s in
  match JSON.parse (slice 6 line) with
  | None => (s, Thrown)
  | Some jsonData =>
      match delta_content jsonData with
      | Abrupt => (s, Thrown)
      | Normal content =>
          if truthy content then
            if isGeminiModel then
              match to_string_value content with
              | Abrupt => (s, Thrown)
              | Normal text =>
                  match content with
                  | Value (JString str) =>
                      ((emit_words w (RegExp.split_words str), []), Completed)
                  | _ => ((w, wordBuffer ++ text), Thrown)
                  end
              end
            else
              let (w', o) := emit_value w content in ((w', wordBuffer), o)
          else (s, Completed)
      end
  end.

(** The body of the loop over the lines of a chunk (any other provider). *)
Definition sse_line (isGeminiModel : bool) (s : session) (line : jsstring)
  : session :=
  if blank line || includes (lit "[DONE]") line then s
  else if startsWith (lit "data: ") line then
    match data_line isGeminiModel s line with
    | (s', Completed) => s'
    | ((w', wordBuffer'), Thrown) => (perform w' ConsoleError, wordBuffer')
    end
  else s.

Definition sse_chunk (isGeminiModel : bool) (s : session) (chunk : jsstring)
  : session :=
  fold_left (sse_line isGeminiModel) (split 10 chunk) s.

(** *** [handleStreamResponse] *)

(** One turn of the [while] loop for a chunk [value]. [provider] is the
    [apiProvider] and [gemini] the [isGeminiModel] of the call: the first
    is the state of the render that made the closure, the second is
    computed once before the loop. *)
Definition on_text (provider : jsstring) (gemini : bool) (s : session)
  (chunk : jsstring) : session :=
  if str_eqb provider (lit "ollama") then (ollama_chunk (fst s) chunk, snd s)
  else sse_chunk gemini s chunk.

Definition on_chunk (provider : jsstring) (gemini : bool) (s : session)
  (value : list Z) : session :=
  on_text provider gemini s (TextDecoder.decode value).

(** After the loop: [if (wordBuffer) { emit wordBuffer }]. *)
Definition flush (s : session) : world :=
  if truthy_string (snd s) then emit (fst s) (snd s) else fst s.

(** How the promise of [handleStreamResponse] settles. *)
Inductive settled :=
| Returned (text : jsstring)
| Rejected.

(** The end of the stream ([done]): the flush, the release of the reader
    in [finally], and the returned buffer. *)
Definition on_done (s : session) : world * settled :=
  let w := perform (flush s) ReleaseLock in (w, Returned (streamBufferRef w)).

(** A rejected read: [catch] logs it and throws it again, [finally]
    releases the reader. *)
Definition on_error (s : session) : world * settled :=
  (perform (perform (fst s) ConsoleError) ReleaseLock, Rejected).

(** The loop over what the reader delivers; the end of the list is the
    end of the stream. *)
Fixpoint read_loop (provider : jsstring) (gemini : bool) (s : session)
  (reads : list read_result) : world * settled :=
  match reads with
  | [] => on_done s
  | Chunk value :: rest =>
      read_loop provider gemini (on_chunk provider gemini s value) rest
  | ReadError :: _ => on_error s
  end.

(** [selectedLLM.includes('gemini')] *)
Definition isGeminiModel (w : world) : bool :=
  includes (lit "gemini") (selectedLLM w).

Definition handleStreamResponse (w : world) (reads : list read_result)
  : world * settled :=
  read_loop (apiProvider w) (isGeminiModel w) (perform w GetReader, []) reads.

(** The state of [handleStreamResponse w] when it has read the chunks of
    [slicing] and awaits the next read. *)
Definition after_chunks (w : world) (slicing : list (list Z)) : session :=
  fold_left (on_chunk (apiProvider w) (isGeminiModel w)) slicing
    (perform w GetReader, []).

(** *** [handleNewChat] *)

Definition handleNewChat (w : world) : world :=
  let w1 :=
    mkWorld (selectedLLM w) (prompt w) (apiProvider w) (openRouterApiKey w)
      (ollamaEndpoint w) None (chats w) [] (streamedResponse w)
      (streamBufferRef w) (isGenerating w) (isConversationStarted w)
      (settingsError w) (trace w) in
  let w2 := with_buffer (setStreamedResponse w1 []) [] in
  mkWorld (selectedLLM w2) (prompt w2) (apiProvider w2) (openRouterApiKey w2)
    (ollamaEndpoint w2) (currentChatId w2) (chats w2) (chatHistory w2)
    (streamedResponse w2) (streamBufferRef w2) (isGenerating w2) false
    (settingsError w2) (trace w2).

(** *** A session in flight *)

(** [handleStreamResponse] is suspended at [await reader.read()] between
    two chunks, and a click on New chat runs [handleNewChat] there. (The
    timer awaits of the paced emitter are taken together with their
    chunk.) A session is streaming, with its [wordBuffer], or settled. *)
Inductive phase :=
| Streaming (wordBuffer : jsstring)
| Settled (r : settled).

Inductive event :=
| Delivers (r : read_result)
| Ends
| NewChatClicked.

Definition step (provider : jsstring) (gemini : bool) (st : world * phase)
  (e : event) : world * phase :=
  match e, st with
  | NewChatClicked, (w, ph) => (handleNewChat w, ph)
  | Delivers (Chunk value), (w, Streaming wordBuffer) =>
      let (w', wordBuffer') := on_chunk provider gemini (w, wordBuffer) value in
      (w', Streaming wordBuffer')
  | Delivers ReadError, (w, Streaming wordBuffer) =>
      let (w', r) := on_error (w, wordBuffer) in (w', Settled r)
  | Ends, (w, Streaming wordBuffer) =>
      let (w', r) := on_done (w, wordBuffer) in (w', Settled r)
  | _, (w, Settled r) => (w, Settled r)
  end.

Definition run (provider : jsstring) (gemini : bool) (st : world * phase)
  (events : list event) : world * phase :=
  fold_left (step provider gemini) events st.

(** The state of a call of [handleStreamResponse] at its first await. *)
Definition start (w : world) : world * phase :=
  (perform w GetReader, Streaming []).

(** *** [handleSendPrompt] *)

(** What the body of the answer to a request holds, as the component
    reads it. The chat server answers a creation with the chat and a post
    with the message: its routes send the row they wrote (second source,
    lines 47 to 62 and 96 to 117), and the component reads it with
    [json()]. The answer of a provider is read with [body.getReader()],
    and holds what the reader delivers. *)
Definition body (r : request) : Type :=
  match r with
  | CreateChat _ => Chat
  | SaveMessage _ _ _ => Message
  | OpenRouterCompletion _ _ _ | OllamaGenerate _ _ _ => list read_result
  end.

(** What a [fetch] resolves to: a response with its [ok] flag and its
    body, or a rejection. The body is [None] when it cannot be read:
    [json()] rejects a body that is not JSON, and a response without a
    body has no reader. The value of a body that parses is taken to have
    the shape the route of the server gives it. *)
Record response (A : Type) := mkResponse {
  ok : bool;
  response_body : option A
}.
Arguments mkResponse {A} ok response_body.
Arguments ok {A} r.
Arguments response_body {A} r.

Inductive fetched (A : Type) :=
| Responds (r : response A)
| FetchFails.
Arguments Responds {A} r.
Arguments FetchFails {A}.

(** The servers, as seen by the component: the answer to a request, given
    the effects so far. *)
Definition network := list effect -> forall r : request, fetched (body r).

(** Statements that read and write the state and may throw ([None]). *)
Definition M (A : Type) := world -> world * option A.

Definition ret {A} (a : A) : M A := fun w => (w, Some a).

Definition throw {A} : M A := fun w => (w, None).

Definition bind {A B} (m : M A) (k : A -> M B) : M B :=
  fun w => match m w with
           | (w', Some a) => k a w'
           | (w', None) => (w', None)
           end.

Notation "x <- m ;; k" := (bind m (fun x => k))
  (at level 61, m at next level, right associativity).
Notation "m ;;; k" := (bind m (fun _ => k))
  (at level 61, right associativity).

Definition modify (f : world -> world) : M unit := fun w => (f w, Some tt).

Definition fetch (net : network) (r : request) : M (response (body r)) :=
  fun w => match net (trace w) r with
           | Responds x => (perform w (Fetch r), Some x)
           | FetchFails => (perform w (Fetch r), None)
           end.

Definition setPrompt (text : jsstring) (w : world) : world :=
  mkWorld (selectedLLM w) text (apiProvider w) (openRouterApiKey w)
    (ollamaEndpoint w) (currentChatId w) (chats w) (chatHistory w)
    (streamedResponse w) (streamBufferRef w) (isGenerating w)
    (isConversationStarted w) (settingsError w) (trace w).

Definition setCurrentChatId (id : option jsstring) (w : world) : world :=
  mkWorld (selectedLLM w) (prompt w) (apiProvider w) (openRouterApiKey w)
    (ollamaEndpoint w) id (chats w) (chatHistory w)
    (streamedResponse w) (streamBufferRef w) (isGenerating w)
    (isConversationStarted w) (settingsError w) (trace w).

Definition setChats (f : list Chat -> list Chat) (w : world) : world :=
  mkWorld (selectedLLM w) (prompt w) (apiProvider w) (openRouterApiKey w)
    (ollamaEndpoint w) (currentChatId w) (f (chats w)) (chatHistory w)
    (streamedResponse w) (streamBufferRef w) (isGenerating w)
    (isConversationStarted w) (settingsError w) (trace w).

Definition setChatHistory (f : list Message -> list Message) (w : world)
  : world :=
  mkWorld (selectedLLM w) (prompt w) (apiProvider w) (openRouterApiKey w)
    (ollamaEndpoint w) (currentChatId w) (chats w) (f (chatHistory w))
    (streamedResponse w) (streamBufferRef w) (isGenerating w)
    (isConversationStarted w) (settingsError w) (trace w).

Definition setIsGenerating (b : bool) (w : world) : world :=
  mkWorld (selectedLLM w) (prompt w) (apiProvider w) (openRouterApiKey w)
    (ollamaEndpoint w) (currentChatId w) (chats w) (chatHistory w)
    (streamedResponse w) (streamBufferRef w) b
    (isConversationStarted w) (settingsError w) (trace w).

Definition setIsConversationStarted (b : bool) (w : world) : world :=
  mkWorld (selectedLLM w) (prompt w) (apiProvider w) (openRouterApiKey w)
    (ollamaEndpoint w) (currentChatId w) (chats w) (chatHistory w)
    (streamedResponse w) (streamBufferRef w) (isGenerating w)
    b (settingsError w) (trace w).

Definition setSettingsError (text : jsstring) (w : world) : world :=
  mkWorld (selectedLLM w) (prompt w) (apiProvider w) (openRouterApiKey w)
    (ollamaEndpoint w) (currentChatId w) (chats w) (chatHistory w)
    (streamedResponse w) (streamBufferRef w) (isGenerating w)
    (isConversationStarted w) text (trace w).

(** [if (!response.ok) throw new Error(...)] *)
Definition check_ok {A} (r : response A) : M unit :=
  if ok r then ret tt else throw.

(** [await response.json()] and [response.body!.getReader()]: a body
    that cannot be read throws. *)
Definition read_body {A} (r : response A) : M A :=
  match response_body r with
  | Some x => ret x
  | None => throw
  end.

(** [if (!chatId) { ... create the chat ... }] *)
Definition ensure_chat (net : network) (currentPrompt : jsstring)
  (chatId : option jsstring) : M jsstring :=
  match chatId with
  | Some (c :: id) => ret (c :: id)
  | _ =>
      chatResponse <- fetch net
        (CreateChat (slice_to 30 (hd [] (split 10 currentPrompt)))) ;;
      check_ok chatResponse ;;;
      newChat <- read_body chatResponse ;;
      modify (setCurrentChatId (Some (chat_id newChat))) ;;;
      modify (setChats (fun prev => newChat :: prev)) ;;;
      ret (chat_id newChat)
  end.

(** A message is posted to the chat and added to the history. *)
Definition save_message (net : network) (chatId content role : jsstring)
  : M unit :=
  r <- fetch net (SaveMessage chatId content role) ;;
  check_ok r ;;;
  m <- read_body r ;;
  modify (setChatHistory (fun prev => prev ++ [m])).

(** The provider's answer is streamed, then saved when it is not blank. *)
Definition stream_and_save (net : network) (chatId : jsstring)
  (r : response (list read_result)) : M unit :=
  check_ok r ;;;
  reads <- read_body r ;;
  completeResponse <-
    (fun w => match handleStreamResponse w reads with
              | (w', Returned text) => (w', Some text)
              | (w', Rejected) => (w', None)
              end) ;;
  if blank completeResponse then ret tt
  else save_message net chatId completeResponse (lit "assistant").

(** The body of the [try] block; [w0] is the state of the render whose
    closure runs. *)
Definition send (net : network) (w0 : world) (currentPrompt : jsstring)
  : M unit :=
  chatId <- ensure_chat net currentPrompt (currentChatId w0) ;;
  save_message net chatId currentPrompt (lit "user") ;;;
  if str_eqb (apiProvider w0) (lit "openrouter") then
    r <- fetch net
      (OpenRouterCompletion (openRouterApiKey w0) (selectedLLM w0)
         (chatHistory w0 ++ [mkMessage currentPrompt (lit "user")])) ;;
    stream_and_save net chatId r
  else if str_eqb (apiProvider w0) (lit "ollama") then
    r <- fetch net
      (OllamaGenerate (ollamaEndpoint w0) (selectedLLM w0) currentPrompt) ;;
    stream_and_save net chatId r
  else ret tt.

Definition handleSendPrompt (net : network) (w : world) : world :=
  if blank (prompt w) || negb (truthy_string (selectedLLM w)) then w
  else
    let w1 := if isConversationStarted w then w
              else setIsConversationStarted true w in
    let currentPrompt := prompt w in
    let w2 := setIsGenerating true (setPrompt [] w1) in
    let w3 := setStreamedResponse (with_buffer w2 []) [] in
    let w4 :=
      match send net w currentPrompt w3 with
      | (w', Some _) => w'
      | (w', None) =>
          setSettingsError
            (lit "Failed to send message. Please check your API key and try again.")
            (perform w' ConsoleError)
      end in
    setIsGenerating false w4.

End App.

(* ================================================================== *)
(** ** The specification's assembler *)
(* ================================================================== *)

(** Definitions that follow the words of the specification (sections 3,
    4.2, 4.3 and 4.4), to be compared with the component. *)
Module Spec.

Import JS JSON.

(** "if present, its string value is the fragment text" *)
Definition string_value (v : value) : option jsstring :=
  match v with
  | Undefined => None
  | Value j => match to_string j with Normal t => Some t | Abrupt => None end
  end.

(** 4.3, LineDelimitedJSON records: the assistant-role payload field
    ([message.content]) or the direct-completion text field
    ([response]). *)
Definition ldj_fragment (record : json) : option jsstring :=
  match get_opt (get_opt (Value record) (lit "message")) (lit "content") with
  | Value content => string_value (Value content)
  | Undefined => string_value (get_opt (Value record) (lit "response"))
  end.

(** 4.3, ServerSentEvents records: the first choice's incremental-content
    field, if present and non-empty. *)
Definition sse_content (record : json) : value :=
  let first :=
    match get0 (get_opt (Value record) (lit "choices")) with
    | Normal x => x
    | Abrupt => Undefined
    end in
  get_opt (get_opt first (lit "delta")) (lit "content").

Definition sse_fragment (record : json) : option jsstring :=
  if truthy (sse_content record) then string_value (sse_content record)
  else None.

Definition text_of (fragment : option jsstring) : jsstring :=
  match fragment with Some t => t | None => [] end.

(** 4.2, LineDelimitedJSON: a line is parsed; one that fails to parse is
    an opaque fallback fragment, appended verbatim. *)
Definition ldj_line (line : jsstring) : jsstring :=
  match JSON.parse line with
  | Some record => text_of (ldj_fragment record)
  | None => line
  end.

(** 4.2, ServerSentEvents: blank lines and lines containing the sentinel
    are discarded; a line with the [data: ] prefix has it stripped and the
    rest parsed; a line that fails to parse is skipped. *)
Definition sse_line (line : jsstring) : jsstring :=
  if App.blank line || includes (lit "[DONE]") line then []
  else if startsWith (lit "data: ") line then
    match JSON.parse (slice 6 line) with
    | Some record => text_of (sse_fragment record)
    | None => []
    end
  else [].

Definition line_text (provider : jsstring) (line : jsstring) : jsstring :=
  if str_eqb provider (lit "ollama") then ldj_line line else sse_line line.

(** 3: the text of the fragments of the frames received so far, in
    arrival order. The frames are the lines that are complete: the text
    after the last newline is not one yet. *)
Definition fragments (provider : jsstring) (received : jsstring)
  : list jsstring :=
  map (line_text provider) (removelast (split 10 received)).

(** 4.2, LineDelimitedJSON: the assembler with its pending fragment. *)
Record assembler := mkAssembler {
  buffer : jsstring;
  pendingFragment : jsstring
}.

(** The pending fragment is prefixed onto the chunk's text before it is
    split; every line but the last is parsed; the last is retained. *)
Definition ldj_chunk (a : assembler) (chunk : jsstring) : assembler :=
  let lines := split 10 (pendingFragment a ++ chunk) in
  mkAssembler
    (buffer a ++ concat (map ldj_line (removelast lines)))
    (last lines []).

(** 4.2, LineDelimitedJSON, on the lines of one chunk: every line
    contributes its fragment or, when it fails to parse, its raw text. *)
Definition ldj_lines (buffer : jsstring) (lines : list jsstring) : jsstring :=
  buffer ++ concat (map ldj_line lines).

(** 4.4: what is appended to the buffer for a fragment: its sub-tokens
    one after the other when the delivery is paced, its full text at once
    when it is not. *)
Definition emitted (paced : bool) (fragment : jsstring) : list jsstring :=
  if paced then filter truthy_string (RegExp.split_words fragment)
  else [fragment].

(** 4.4: the characters that separate the words: white space (the code
    points of White_Space and the line terminators) and the punctuation
    marks, which are the full stop, the comma, the exclamation mark and
    the question mark. *)
Definition white_space : list code_unit :=
  [9; 10; 11; 12; 13; 32; 160; 5760; 8192; 8193; 8194; 8195; 8196; 8197;
   8198; 8199; 8200; 8201; 8202; 8232; 8233; 8239; 8287; 12288; 65279].

Definition punctuation : list code_unit := [46; 44; 33; 63].

Inductive kind :=
| Space
| Mark
| Letter.

Definition kind_of (c : code_unit) : kind :=
  if existsb (Z.eqb c) white_space then Space
  else if existsb (Z.eqb c) punctuation then Mark
  else Letter.

(** 4.4: a sub-token is a run of white space, one punctuation mark, or a
    word, which has neither. *)
Definition sub_token (t : jsstring) : Prop :=
  t <> [] /\
  (Forall (fun c => kind_of c = Space) t
   \/ (exists c, t = [c] /\ kind_of c = Mark)
   \/ Forall (fun c => kind_of c = Letter) t).

(** Two sub-tokens that follow each other are parts of one run of white
    space, or of one word: the first ends and the second starts with
    characters of one kind, and they are not marks. *)
Definition same_run (a b : jsstring) : Prop :=
  kind_of (last a 0) = kind_of (hd 0 b) /\ kind_of (hd 0 b) <> Mark.

(** The runs of white space and the words of the list are whole. *)
Fixpoint whole (ts : list jsstring) : Prop :=
  match ts with
  | a :: (b :: _) as rest => ~ same_run a b /\ whole rest
  | _ => True
  end.

(** 4.4: the sub-tokens of a text: together they are the text, each is a
    sub-token, and the runs of white space and the words are whole. *)
Definition sub_tokens (text : jsstring) (ts : list jsstring) : Prop :=
  concat ts = text /\ Forall sub_token ts /\ whole ts.

End Spec.

(* ================================================================== *)
(** ** Notions of the statements *)
(* ================================================================== *)

Module Notions.

Import JS JSON App.

(** The values the observer of the buffer was notified with, in order. *)
Definition notifications (t : list effect) : list jsstring :=
  flat_map (fun e => match e with SetStreamedResponse b => [b] | _ => [] end) t.

Definition chunks (slicing : list (list Z)) : list read_result :=
  map Chunk slicing.

(** A chunk ends on a line end. *)
Definition ends_with_newline (bytes : list Z) : bool :=
  match rev bytes with
  | b :: _ => b =? 10
  | [] => false
  end.

(** Every chunk boundary of the slicing falls after a newline. *)
Fixpoint line_aligned (slicing : list (list Z)) : bool :=
  match slicing with
  | [] => true
  | c :: rest =>
      match rest with
      | [] => true
      | _ :: _ => ends_with_newline c && line_aligned rest
      end
  end.

(** The chunk starts with a byte order mark, the bytes EF BB BF. *)
Definition starts_with_bom (bytes : list Z) : bool :=
  match bytes with
  | b1 :: b2 :: b3 :: _ => (b1 =? 239) && (b2 =? 187) && (b3 =? 191)
  | _ => false
  end.

(** The first code point the decoder reads from the chunk is U+FEFF, which
    [TextDecoder.decode] strips. *)
Definition reads_bom (bytes : list Z) : bool :=
  match TextDecoder.utf8_decode bytes with
  | c :: _ => c =? 65279
  | [] => false
  end.

(** No chunk after the first starts with a byte order mark. *)
Definition no_inner_bom (slicing : list (list Z)) : bool :=
  forallb (fun c => negb (starts_with_bom c)) (tl slicing).

(** What a line of the LineDelimitedJSON branch does, apart from the
    world: it appends a text, appends nothing, or throws. *)
Definition ollama_yield (line : jsstring) : completion (option jsstring) :=
  if blank line then Normal None
  else
    match JSON.parse line with
    | None => Abrupt
    | Some data =>
        match get (Value data) (lit "message") with
        | Abrupt => Abrupt
        | Normal message =>
            if truthy message then
              match get message (lit "content") with
              | Abrupt => Abrupt
              | Normal content =>
                  match to_string_value content with
                  | Normal t => Normal (Some t)
                  | Abrupt => Abrupt
                  end
              end
            else
              match get (Value data) (lit "response") with
              | Abrupt => Abrupt
              | Normal response =>
                  if truthy response then
                    match to_string_value response with
                    | Normal t => Normal (Some t)
                    | Abrupt => Abrupt
                    end
                  else Normal None
              end
        end
    end.

Definition throws (line : jsstring) : bool :=
  match ollama_yield line with Abrupt => true | Normal _ => false end.

(** No line of the text throws in the LineDelimitedJSON branch. *)
Definition no_line_throws (text : jsstring) : bool :=
  forallb (fun line => negb (throws line)) (split 10 text).

(** Every chunk of the slicing ends on a line end. *)
Definition ends_on_lines (slicing : list (list Z)) : bool :=
  forallb ends_with_newline slicing.

(** A line of a LineDelimitedJSON response that is a frame: empty, or an
    object whose [message] is an object with a string [content], or that
    has no [message] and whose [response], if it has one, is a string. *)
Definition ldj_frame (line : jsstring) : bool :=
  match line with
  | [] => true
  | _ :: _ =>
      match JSON.parse line with
      | Some (JObject ms) =>
          match lookup (lit "message") ms with
          | Some (JObject mm) =>
              match lookup (lit "content") mm with
              | Some (JString _) => true
              | _ => false
              end
          | Some _ => false
          | None =>
              match lookup (lit "response") ms with
              | Some (JString _) => true
              | Some _ => false
              | None => true
              end
          end
      | _ => false
      end
  end.

(** A line of a ServerSentEvents response whose content, if it has one,
    is a string. *)
Definition sse_text_only (line : jsstring) : bool :=
  if blank line || includes (lit "[DONE]") line then true
  else if startsWith (lit "data: ") line then
    match JSON.parse (slice 6 line) with
    | Some record =>
        if truthy (Spec.sse_content record) then
          match Spec.sse_content record with
          | Value (JString _) => true
          | _ => false
          end
        else true
    | None => true
    end
  else true.

(** The delivery is paced for a gemini model of a provider other than
    ollama. *)
Definition paced (provider : jsstring) (gemini : bool) : bool :=
  gemini && negb (str_eqb provider (lit "ollama")).

(** The lines of the text are frames of the provider; for a paced
    delivery, frames whose content is a string. *)
Definition well_formed (provider : jsstring) (gemini : bool) (text : jsstring)
  : bool :=
  forallb (fun line =>
             if str_eqb provider (lit "ollama") then ldj_frame line
             else negb gemini || sse_text_only line)
    (split 10 text).

(** The steps by which the loop changes the world. *)
Inductive action :=
| Say (text : jsstring)
| Pause (ms : Z)
| Log.

Definition act (w : world) (a : action) : world :=
  match a with
  | Say text => emit w text
  | Pause ms => perform w (Timeout ms)
  | Log => perform w ConsoleError
  end.

Definition acts (w : world) (l : list action) : world := fold_left act l w.

(** The texts said by a list of actions. *)
Definition said (l : list action) : list jsstring :=
  flat_map (fun a => match a with Say t => [t] | _ => [] end) l.

(** The effects of a list of actions from the buffer [b]. *)
Fixpoint effects_from (b : jsstring) (l : list action) : list effect :=
  match l with
  | [] => []
  | Say t :: rest => SetStreamedResponse (b ++ t) :: effects_from (b ++ t) rest
  | Pause ms :: rest => Timeout ms :: effects_from b rest
  | Log :: rest => ConsoleError :: effects_from b rest
  end.

(** The effects of a paced emission of [tokens] from the buffer [b]: a
    delay of 30 ms, then the notification of the buffer with the token
    appended, for each token in order. *)
Fixpoint paced_effects (b : jsstring) (tokens : list jsstring) : list effect :=
  match tokens with
  | [] => []
  | t :: rest =>
      Timeout 30 :: SetStreamedResponse (b ++ t) :: paced_effects (b ++ t) rest
  end.

(** The values of [l] grow by appending, from [b] on: each is the one
    before it followed by some text. *)
Fixpoint growing (b : jsstring) (l : list jsstring) : Prop :=
  match l with
  | [] => True
  | x :: rest => (exists t, x = b ++ t) /\ growing x rest
  end.

(** *** The loop as a list of actions

    What a line, a chunk and a stream do to the world depends on the
    world only through the buffer they append to: each is a list of
    actions, computed from the text and the [wordBuffer] alone. *)

(** The texts the lines of a LineDelimitedJSON chunk append, up to the
    first line that throws. *)
Fixpoint ollama_lines_said (lines : list jsstring) : list jsstring * outcome :=
  match lines with
  | [] => ([], Completed)
  | line :: rest =>
      match ollama_yield line with
      | Abrupt => ([], Thrown)
      | Normal o =>
          let (ts, oc) := ollama_lines_said rest in
          (match o with Some t => t :: ts | None => ts end, oc)
      end
  end.

Definition ollama_chunk_said (chunk : jsstring) : list jsstring :=
  match ollama_lines_said (split 10 chunk) with
  | (ts, Completed) => ts
  | (ts, Thrown) => ts ++ [chunk]
  end.

Definition words_acts (words : list jsstring) : list action :=
  flat_map (fun word => if truthy_string word then [Pause 30; Say word] else [])
    words.

Definition data_line_acts (gemini : bool) (wordBuffer line : jsstring)
  : list action * jsstring * outcome :=
  match JSON.parse (slice 6 line) with
  | None => ([], wordBuffer, Thrown)
  | Some jsonData =>
      match delta_content jsonData with
      | Abrupt => ([], wordBuffer, Thrown)
      | Normal content =>
          if truthy content then
            match to_string_value content with
            | Abrupt => ([], wordBuffer, Thrown)
            | Normal text =>
                if gemini then
                  match content with
                  | Value (JString str) =>
                      (words_acts (RegExp.split_words str), [], Completed)
                  | _ => ([], wordBuffer ++ text, Thrown)
                  end
                else ([Say text], wordBuffer, Completed)
            end
          else ([], wordBuffer, Completed)
      end
  end.

Definition sse_line_acts (gemini : bool) (wordBuffer line : jsstring)
  : list action * jsstring :=
  if blank line || includes (lit "[DONE]") line then ([], wordBuffer)
  else if startsWith (lit "data: ") line then
    match data_line_acts gemini wordBuffer line with
    | (a, wordBuffer', Completed) => (a, wordBuffer')
    | (a, wordBuffer', Thrown) => (a ++ [Log], wordBuffer')
    end
  else ([], wordBuffer).

Fixpoint sse_lines_acts (gemini : bool) (wordBuffer : jsstring)
  (lines : list jsstring) : list action * jsstring :=
  match lines with
  | [] => ([], wordBuffer)
  | line :: rest =>
      let (a, wordBuffer') := sse_line_acts gemini wordBuffer line in
      let (a', wordBuffer'') := sse_lines_acts gemini wordBuffer' rest in
      (a ++ a', wordBuffer'')
  end.

(** The actions of one chunk of decoded text, and the [wordBuffer] it
    leaves. *)
Definition text_acts (provider : jsstring) (gemini : bool)
  (wordBuffer text : jsstring) : list action * jsstring :=
  if str_eqb provider (lit "ollama") then
    (map Say (ollama_chunk_said text), wordBuffer)
  else sse_lines_acts gemini wordBuffer (split 10 text).

(** The actions of the chunks of a stream, in order. *)
Fixpoint stream_acts (provider : jsstring) (gemini : bool)
  (wordBuffer : jsstring) (slicing : list (list Z)) : list action * jsstring :=
  match slicing with
  | [] => ([], wordBuffer)
  | value :: rest =>
      let (a, wordBuffer') :=
        text_acts provider gemini wordBuffer (TextDecoder.decode value) in
      let (a', wordBuffer'') := stream_acts provider gemini wordBuffer' rest in
      (a ++ a', wordBuffer'')
  end.

(** The texts the lines append when none of them throws. *)
Definition lines_said (lines : list jsstring) : list jsstring :=
  flat_map (fun line => match ollama_yield line with
                        | Normal (Some t) => [t]
                        | _ => []
                        end) lines.

(** No line of the list throws. *)
Definition quiet (lines : list jsstring) : bool :=
  forallb (fun line => negb (throws line)) lines.

End Notions.

(* ================================================================== *)
(** ** Worlds and streams of the examples *)
(* ================================================================== *)

Module Examples.

Import JS App.

(** The component as it is mounted, with a provider and a model chosen. *)
Definition mounted (provider model : string) : world :=
  mkWorld (lit model) [] (lit provider) [] [] None [] [] [] [] false false [] [].

(** A line of text and its newline, as bytes. *)
Definition line (s : string) : list Z := quoted s ++ [10].

(** The LineDelimitedJSON frames of the end-to-end scenario. *)
Definition hel : list Z := line "{'message':{'content':'Hel'}}".
Definition lo : list Z := line "{'message':{'content':'lo'}}".

(** The ServerSentEvents frames of the end-to-end scenario. *)
Definition frame_A : list Z :=
  line "data: {'choices':[{'delta':{'content':'A'}}]}" ++ [10].
Definition frame_done : list Z := line "data: [DONE]" ++ [10].

(** Two LineDelimitedJSON frames; the counterexample to C3 cuts the
    second after its seventh byte (24 bytes into the response). *)
Definition two_frames : list Z :=
  line "{'response':'a'}" ++ line "{'response':'b'}".

(** The chunk of the counterexample to C4: a line that is not JSON, then
    a frame. *)
Definition oops_then_B : list Z := line "oops" ++ line "{'response':'B'}".

(** The line of the paced example: the content [Hi, world!]. *)
Definition hi_world : jsstring :=
  quoted "data: {'choices':[{'delta':{'content':'Hi, world!'}}]}".

(** The line of the counterexample to C6: a record whose content is the
    text [[DONE]]. *)
Definition says_done : jsstring :=
  quoted "data: {'choices':[{'delta':{'content':'[DONE]'}}]}".

(** The line of the counterexample to C7: a record with a [message] that
    has no [content], and a [response]. *)
Definition role_and_response : jsstring :=
  quoted "{'message':{'role':'assistant'},'response':'y'}".

(** A world with a prompt and a model. *)
Definition asking (text : string) : world :=
  setPrompt (lit text) (mounted "ollama" "llama3").

(** A server that creates the chat, saves what it is sent, and streams
    the frames [Hel] and [lo]. *)
Definition server : network :=
  fun _ r =>
    match r with
    | CreateChat title =>
        Responds (mkResponse true (Some (mkChat (lit "c1") title)))
    | SaveMessage _ content role =>
        Responds (mkResponse true (Some (mkMessage content role)))
    | OllamaGenerate _ _ _ =>
        Responds (mkResponse true (Some [Chunk hel; Chunk lo]))
    | OpenRouterCompletion _ _ _ => FetchFails
    end.

End Examples.

(* ================================================================== *)
(** ** The session as a whole, and the exchange of [handleSendPrompt] *)
(* ================================================================== *)

Module Sessions.

Import JS JSON App Notions.

(** The actions of a whole call of [handleStreamResponse] between the
    acquisition of the reader and its release: those of the chunks read,
    then the flush of [wordBuffer] at the end of the stream, or the log of
    the read that failed. *)
Fixpoint session_acts (provider : jsstring) (gemini : bool)
  (wordBuffer : jsstring) (reads : list read_result) : list action :=
  match reads with
  | [] => if truthy_string wordBuffer then [Say wordBuffer] else []
  | Chunk value :: rest =>
      let (a, wordBuffer') :=
        text_acts provider gemini wordBuffer (TextDecoder.decode value) in
      a ++ session_acts provider gemini wordBuffer' rest
  | ReadError :: _ => [Log]
  end.

(** A read of the list fails. *)
Definition fails (reads : list read_result) : bool :=
  existsb (fun r => match r with ReadError => true | Chunk _ => false end) reads.

(** The effects of the loop body: notifications, delays and logged
    errors. *)
Definition loop_effect (e : effect) : bool :=
  match e with
  | SetStreamedResponse _ | Timeout _ | ConsoleError => true
  | GetReader | ReleaseLock | Fetch _ => false
  end.

(** The requests issued in a trace, in order. *)
Definition requests (t : list effect) : list request :=
  flat_map (fun e => match e with Fetch r => [r] | _ => [] end) t.

(** The request to the provider that [handleSendPrompt] makes from the
    world of its closure, if the provider is one of the two it knows. *)
Definition provider_request (w : world) : list request :=
  if str_eqb (apiProvider w) (lit "openrouter") then
    [OpenRouterCompletion (openRouterApiKey w) (selectedLLM w)
       (chatHistory w ++ [mkMessage (prompt w) (lit "user")])]
  else if str_eqb (apiProvider w) (lit "ollama") then
    [OllamaGenerate (ollamaEndpoint w) (selectedLLM w) (prompt w)]
  else [].

(** The world has a current chat: [currentChatId] is a non-empty string. *)
Definition has_chat (w : world) : bool :=
  match currentChatId w with
  | Some (_ :: _) => true
  | _ => false
  end.

(** The requests of a complete exchange, in order: the chat is created
    when the world has none, the prompt is saved, the provider is asked,
    the reply is saved. *)
Definition exchange (w : world) (chatId reply : jsstring) : list request :=
  (if has_chat w then []
   else [CreateChat (slice_to 30 (hd [] (split 10 (prompt w))))])
  ++ [SaveMessage chatId (prompt w) (lit "user")]
  ++ match provider_request w with
     | [] => []
     | ask => ask ++ [SaveMessage chatId reply (lit "assistant")]
     end.


(** The message [handleSendPrompt] shows when the exchange fails. *)
Definition failure_message : jsstring :=
  lit "Failed to send message. Please check your API key and try again.".

End Sessions.

(* ================================================================== *)
(** ** What the component renders: [renderMessage], the loading animation *)
(* ================================================================== *)

Module Display.

Import JS.

(** *** [renderMessage] *)

(** What [renderMessage] returns: a list of elements, each a block of
    text ([<div className="whitespace-pre-wrap ...">]) or a [CodeBlock]
    with its language and code. *)
Inductive part :=
| TextPart (text : jsstring)
| CodePart (language code : jsstring).

(** The class [\w]. *)
Definition is_word (c : code_unit) : bool :=
  ((48 <=? c) && (c <=? 57)) || ((65 <=? c) && (c <=? 90)) || (c =? 95)
  || ((97 <=? c) && (c <=? 122)).

(** The class [[\w-]]. *)
Definition is_language_char (c : code_unit) : bool := is_word c || (c =? 45).

(** The longest run of [[\w-]] at the head of [s], and what follows it. *)
Fixpoint take_language (s : jsstring) : jsstring * jsstring :=
  match s with
  | c :: s' =>
      if is_language_char c then
        let (language, rest) := take_language s' in (c :: language, rest)
      else ([], s)
  | [] => ([], [])
  end.

(** Three grave accents. *)
Definition fence : jsstring := [96; 96; 96].

(** What the lazy group of any characters, followed by the fence, matches
    at the head of [s]: the text before the first fence, and what follows
    that fence. *)
Fixpoint until_fence (s : jsstring) : option (jsstring * jsstring) :=
  match s with
  | [] => None
  | c :: s' =>
      if startsWith fence s then Some ([], skipn 3 s)
      else match until_fence s' with
           | Some (code, rest) => Some (c :: code, rest)
           | None => None
           end
  end.

(** A match of [codeBlockRegex] at the head of [s]: a fence, an optional
    group of [[\w-]] (greedy), one code unit of white space (a line feed
    or any [\s]), a lazy group of any code units, and a fence. The result
    is the two groups and what follows the match. After the opening fence
    the first group takes the longest run of [[\w-]]; giving back part of
    it cannot help, since the next code unit has to be white space; the
    second group ends at the first fence after that. *)
Definition code_block (s : jsstring)
  : option (jsstring * jsstring * jsstring) :=
  if startsWith fence s then
    let (language, r) := take_language (skipn 3 s) in
    match r with
    | c :: r' =>
        if is_white_space c then
          match until_fence r' with
          | Some (code, rest) => Some (language, code, rest)
          | None => None
          end
        else None
    | [] => None
    end
  else None.

Fixpoint drop_newlines (s : jsstring) : jsstring :=
  match s with
  | c :: s' => if c =? 10 then drop_newlines s' else s
  | [] => []
  end.

(** [code.replace(/^\n+|\n+$/g, '')] *)
Definition strip_newlines (code : jsstring) : jsstring :=
  rev (drop_newlines (rev (drop_newlines code))).

(** [match[1]?.trim() || 'text'] *)
Definition language_of (group : jsstring) : jsstring :=
  if truthy_string (trim group) then trim group else lit "text".

(** [if (match.index > lastIndex) parts.push(...)], and the same for the
    text after the last match. *)
Definition text_part (text : jsstring) : list part :=
  if truthy_string text then [TextPart text] else [].

(** The loop over the matches: [text] is the content since [lastIndex],
    [s] the content from the position the expression is tried at. Where
    it matches, the text before is pushed, then the code block, and the
    scan goes on after the match; elsewhere it moves one code unit on. *)
Fixpoint parts_loop (fuel : nat) (text s : jsstring) : list part :=
  match fuel with
  | O => text_part (text ++ s)
  | S f =>
      match s with
      | [] => text_part text
      | c :: s' =>
          match code_block s with
          | Some (language, code, rest) =>
              text_part text
                ++ CodePart (language_of language) (strip_newlines code)
                   :: parts_loop f [] rest
          | None => parts_loop f (text ++ [c]) s'
          end
      end
  end.

(** [renderMessage(message)], on [message.content]. *)
Definition renderMessage (content : jsstring) : list part :=
  match parts_loop (List.length content) [] content with
  | [] => [TextPart content]
  | parts => parts
  end.

(** A part that shows something: a text that is not empty, or a code
    block with a language, whose code neither starts nor ends with a line
    feed. *)
Definition shown (p : part) : Prop :=
  match p with
  | TextPart text => text <> []
  | CodePart language code =>
      language <> []
      /\ hd_error code <> Some 10
      /\ hd_error (rev code) <> Some 10
  end.

(** *** The loading animation *)

(** [setLoadingDots(prev => (prev.length >= 6 ? '' : prev + '.'))] *)
Definition next_dots (prev : jsstring) : jsstring :=
  if (6 <=? List.length prev)%nat then [] else prev ++ lit ".".

(** The dots after [n] ticks of the interval. *)
Fixpoint dots_after (n : nat) (dots : jsstring) : jsstring :=
  match n with
  | O => dots
  | S k => dots_after k (next_dots dots)
  end.

End Display.

(* ================================================================== *)
(** ** The server: the routes over the database *)
(* ================================================================== *)

(** The routes of the Express server (the second source of
    src/src/types/index.d.ts) over the two tables of the Prisma schema. A
    route is a function of the database and of what the request carries;
    what Prisma draws from outside ([uuid()], [now()]) and [new Date()]
    are arguments. The database is taken to answer: the handlers of the
    two [GET] routes for a failing query are not reached. The route
    [PUT /api/chats/:id], which the client never calls, is left out. *)
Module Server.

Import JS JSON.

(** The models of the Prisma schema (src/prisma/schema.prisma, lines 11
    to 28); times are milliseconds. The relation [messages] of a chat is
    the set of the messages whose [chatId] is its [id]. *)
Record Chat := mkChat {
  chat_id : jsstring;
  chat_title : jsstring;
  chat_createdAt : Z;
  chat_updatedAt : Z
}.

Record Message := mkMessage {
  message_id : jsstring;
  message_content : jsstring;
  message_role : jsstring;
  message_createdAt : Z;
  message_chatId : jsstring
}.

(** The two tables, in the order of insertion. *)
Record database := mkDatabase {
  chat_table : list Chat;
  message_table : list Message
}.

(** What a route answers: [res.json(body)], or
    [res.status(500).json({ error })]. *)
Inductive response (A : Type) :=
| Json (body : A)
| Failure (error : jsstring).
Arguments Json {A} body.
Arguments Failure {A} error.

(** [orderBy]: a stable sort by insertion. *)
Fixpoint insert_by {A} (le : A -> A -> bool) (x : A) (l : list A) : list A :=
  match l with
  | [] => [x]
  | y :: l' => if le x y then x :: l else y :: insert_by le x l'
  end.

Definition sort_by {A} (le : A -> A -> bool) (l : list A) : list A :=
  fold_right (insert_by le) [] l.

(** Every element is before those after it, or level with them. *)
Fixpoint sorted {A} (le : A -> A -> bool) (l : list A) : Prop :=
  match l with
  | [] => True
  | x :: l' => (forall y, In y l' -> le x y = true) /\ sorted le l'
  end.

(** [orderBy: { createdAt: 'asc' }] *)
Definition oldest_first (a b : Message) : bool :=
  message_createdAt a <=? message_createdAt b.

(** [orderBy: { updatedAt: 'desc' }] *)
Definition latest_first (a b : Chat) : bool :=
  chat_updatedAt b <=? chat_updatedAt a.

Definition of_chat (chatId : jsstring) (m : Message) : bool :=
  str_eqb (message_chatId m) chatId.

Definition is_chat (chatId : jsstring) (c : Chat) : bool :=
  str_eqb (chat_id c) chatId.

(** [prisma.message.findMany({ where: { chatId }, orderBy: { createdAt:
    'asc' } })] *)
Definition messages_of (db : database) (chatId : jsstring) : list Message :=
  sort_by oldest_first (filter (of_chat chatId) (message_table db)).

(** [prisma.chat.findMany({ include: { messages: { orderBy: { createdAt:
    'asc' } } }, orderBy: { updatedAt: 'desc' } })]: every chat with its
    messages. *)
Definition all_chats (db : database) : list (Chat * list Message) :=
  map (fun c => (c, messages_of db (chat_id c)))
    (sort_by latest_first (chat_table db)).

(** [GET /api/chats] *)
Definition get_chats (db : database) : response (list (Chat * list Message)) :=
  Json (all_chats db).

(** [GET /api/chats/:id/messages] *)
Definition get_messages (db : database) (id : jsstring)
  : response (list Message) :=
  Json (messages_of db id).

(** [POST /api/chats]: [uuid] and [now] are what [uuid()] and [now()]
    give for the new row. The title is [req.body.title || 'New Chat'];
    [prisma.chat.create] rejects a title that is not a string, and an
    [id] that is taken. *)
Definition post_chat (uuid : jsstring) (now : Z) (body : json)
  (db : database) : database * response (Chat * list Message) :=
  match get (Value body) (lit "title") with
  | Abrupt => (db, Failure (lit "Failed to create chat"))
  | Normal given =>
      match (if truthy given then given else Value (JString (lit "New Chat")))
      with
      | Value (JString title) =>
          if existsb (is_chat uuid) (chat_table db) then
            (db, Failure (lit "Failed to create chat"))
          else
            let chat := mkChat uuid title now now in
            (mkDatabase (chat_table db ++ [chat]) (message_table db),
             Json (chat, []))
      | _ => (db, Failure (lit "Failed to create chat"))
      end
  end.

(** [tx.chat.update({ where: { id }, data: { updatedAt } })] on the
    table; the route has checked that the chat is there. *)
Definition touch (id : jsstring) (date : Z) (c : Chat) : Chat :=
  if is_chat id c then mkChat (chat_id c) (chat_title c) (chat_createdAt c) date
  else c.

(** [POST /api/chats/:id/messages]: the message is created and the chat
    touched in one transaction, so both happen or neither. [uuid] and
    [now] are the defaults of the new row, [date] is [new Date()].
    [tx.message.create] rejects a [content] or a [role] that is not a
    string, an [id] that is taken, and a [chatId] that is the [id] of no
    chat (the relation is a foreign key); [tx.chat.update] rejects an
    [id] that is the [id] of no chat. *)
Definition post_message (uuid : jsstring) (now date : Z) (id : jsstring)
  (body : json) (db : database) : database * response Message :=
  match get (Value body) (lit "content"), get (Value body) (lit "role") with
  | Normal (Value (JString content)), Normal (Value (JString role)) =>
      if existsb (is_chat id) (chat_table db)
         && negb (existsb (fun m => str_eqb (message_id m) uuid)
                    (message_table db))
      then
        let message := mkMessage uuid content role now id in
        (mkDatabase (map (touch id date) (chat_table db))
           (message_table db ++ [message]),
         Json message)
      else (db, Failure (lit "Failed to add message"))
  | _, _ => (db, Failure (lit "Failed to add message"))
  end.

(** [DELETE /api/chats/:id]: the messages of the chat are deleted, then
    the chat, in one transaction; [tx.chat.delete] rejects an [id] that
    is the [id] of no chat, and the transaction is rolled back. The body
    of the answer is [{ success: true }]. *)
Definition delete_chat (id : jsstring) (db : database)
  : database * response unit :=
  if existsb (is_chat id) (chat_table db) then
    (mkDatabase (filter (fun c => negb (is_chat id c)) (chat_table db))
       (filter (fun m => negb (of_chat id m)) (message_table db)),
     Json tt)
  else (db, Failure (lit "Failed to delete chat")).

(** The requests of a client. *)
Inductive request :=
| GetChats
| PostChat (uuid : jsstring) (now : Z) (body : json)
| GetMessages (id : jsstring)
| PostMessage (uuid : jsstring) (now date : Z) (id : jsstring) (body : json)
| DeleteChat (id : jsstring).

(** The database after a request. *)
Definition serve (db : database) (r : request) : database :=
  match r with
  | GetChats => db
  | PostChat uuid now body => fst (post_chat uuid now body db)
  | GetMessages _ => db
  | PostMessage uuid now date id body =>
      fst (post_message uuid now date id body db)
  | DeleteChat id => fst (delete_chat id db)
  end.

(** Every message belongs to a chat of the table. *)
Definition referential (db : database) : bool :=
  forallb (fun m => existsb (is_chat (message_chatId m)) (chat_table db))
    (message_table db).

(** No two rows of a table have the same [id]. *)
Fixpoint distinct (ids : list jsstring) : bool :=
  match ids with
  | [] => true
  | id :: rest => negb (existsb (str_eqb id) rest) && distinct rest
  end.

Definition consistent (db : database) : bool :=
  referential db
  && distinct (map chat_id (chat_table db))
  && distinct (map message_id (message_table db)).

End Server.

(* ================================================================== *)
(** ** The chat list: [handleChatClick], [loadChats], [confirmDelete] *)
(* ================================================================== *)

Module Sidebar.

Import JS JSON App.

(** What a request of the chat list resolves to: an answer with its [ok]
    flag and the value [json()] reads from its body ([None] when the body
    is not JSON and [json()] rejects), or a rejection of [fetch]. The
    value of a body that parses is taken to have the shape the route of
    the server gives it. *)
Inductive reply (A : Type) :=
| Answers (ok : bool) (body : option A)
| Rejects.
Arguments Answers {A} ok body.
Arguments Rejects {A}.

(** The server of the chats, as the chat list sees it. *)
Record server := mkServer {
  get_chats : reply (list Chat);
  get_messages : jsstring -> reply (list Message);
  delete_chat : jsstring -> reply json
}.

(** What the handlers of the chat list do outside the component, besides
    the effects of [App.effect]: their requests, and [console.log]. *)
Inductive call :=
| GetChats
| GetMessages (chatId : jsstring)
| DeleteChat (chatId : jsstring)
| ConsoleLog.

(** The text of an error: a text of the program or of the server, or the
    [message] of an error of the platform (a rejected [fetch], a body
    that is not JSON, a TypeError), which the engine words. *)
Inductive error_text :=
| Text (text : jsstring)
| EngineText.

(** The component with the state of the chat list: the world of [App],
    the state variables of the deletion, and the calls so far (oldest
    first). The effects of [App.effect] are in the trace of the world. *)
Record state := mkState {
  app : world;
  chatToDelete : option jsstring;
  deleteError : option error_text;
  isDeleteModalOpen : bool;
  calls : list call
}.

Definition on_app (f : world -> world) (s : state) : state :=
  mkState (f (app s)) (chatToDelete s) (deleteError s) (isDeleteModalOpen s)
    (calls s).

Definition call_ (c : call) (s : state) : state :=
  mkState (app s) (chatToDelete s) (deleteError s) (isDeleteModalOpen s)
    (calls s ++ [c]).

Definition setChatToDelete (id : option jsstring) (s : state) : state :=
  mkState (app s) id (deleteError s) (isDeleteModalOpen s) (calls s).

Definition setDeleteError (e : option error_text) (s : state) : state :=
  mkState (app s) (chatToDelete s) e (isDeleteModalOpen s) (calls s).

Definition setIsDeleteModalOpen (b : bool) (s : state) : state :=
  mkState (app s) (chatToDelete s) (deleteError s) b (calls s).

(** [console.error(...)] *)
Definition console_error (s : state) : state :=
  on_app (fun w => perform w ConsoleError) s.

(** *** [handleChatClick] *)

Definition handleChatClick (srv : server) (chatId : jsstring) (s : state)
  : state :=
  let s1 :=
    on_app (fun w =>
              with_buffer
                (setStreamedResponse (setCurrentChatId (Some chatId) w) [])
                [])
      s in
  let s2 := call_ (GetMessages chatId) s1 in
  match get_messages srv chatId with
  | Answers true (Some messages) =>
      on_app (setChatHistory (fun _ => messages)) (call_ ConsoleLog s2)
  | _ => on_app (setChatHistory (fun _ => [])) (console_error s2)
  end.

(** *** The effect that loads the chats when the component is mounted *)

Definition loadChats (srv : server) (s : state) : state :=
  let s1 := call_ GetChats s in
  match get_chats srv with
  | Answers true (Some loadedChats) =>
      let s2 := on_app (setChats (fun _ => loadedChats)) s1 in
      match loadedChats with
      | mostRecentChat :: _ =>
          let s3 :=
            call_ (GetMessages (chat_id mostRecentChat))
              (on_app (setCurrentChatId (Some (chat_id mostRecentChat))) s2) in
          match get_messages srv (chat_id mostRecentChat) with
          | Answers true (Some messages) =>
              on_app (setIsConversationStarted
                        (match messages with [] => false | _ :: _ => true end))
                (on_app (setChatHistory (fun _ => messages)) s3)
          | _ => console_error s3
          end
      | [] => on_app handleNewChat s2
      end
  | _ => console_error s1
  end.

(** *** [handleDeleteChat] and [confirmDelete] *)

Definition handleDeleteChat (chatId : jsstring) (s : state) : state :=
  setIsDeleteModalOpen true
    (setChatToDelete (Some chatId) (setDeleteError None s)).

(** The [message] of [new Error(data.error || 'Failed to delete chat')],
    or of the TypeError that evaluating the argument throws. *)
Definition refusal (data : json) : error_text :=
  match get (Value data) (lit "error") with
  | Abrupt => EngineText
  | Normal error =>
      if truthy error then
        match to_string_value error with
        | Normal text => Text text
        | Abrupt => EngineText
        end
      else Text (lit "Failed to delete chat")
  end.

(** [currentChatId === chatToDelete] *)
Definition is_current (w : world) (chatId : jsstring) : bool :=
  match currentChatId w with
  | Some id => str_eqb id chatId
  | None => false
  end.

Definition confirmDelete (srv : server) (s : state) : state :=
  match chatToDelete s with
  | Some (c :: id) =>
      let target := c :: id in
      let s1 := call_ (DeleteChat target) s in
      let failed (e : error_text) :=
        setDeleteError (Some e) (console_error s1) in
      match delete_chat srv target with
      | Answers true (Some _) =>
          let s2 :=
            on_app (setChats
                      (filter (fun chat => negb (str_eqb (chat_id chat) target))))
              s1 in
          let s3 :=
            if is_current (app s) target then
              on_app (fun w =>
                        setStreamedResponse
                          (setChatHistory (fun _ => [])
                             (setCurrentChatId None w))
                          [])
                s2
            else s2 in
          setChatToDelete None (setIsDeleteModalOpen false s3)
      | Answers false (Some data) => failed (refusal data)
      | Answers _ None => failed EngineText
      | Rejects => failed EngineText
      end
  | _ => s
  end.

(** The Cancel button of the confirmation. *)
Definition cancelDelete (s : state) : state :=
  setDeleteError None (setChatToDelete None s).

(** The state of the chat list when the component is mounted. *)
Definition mounted (w : world) : state := mkState w None None false [].

End Sidebar.

(* ================================================================== *)
(** ** Two conditions of the rendered page *)
(* ================================================================== *)

Module View.

Import JS JSON App.

(** The title of the header:
    [isConversationStarted
       ? (chats.find(chat => chat.id === currentChatId)?.title || 'New Chat')
       : 'Start a New Conversation'] *)
Definition header (w : world) : jsstring :=
  if isConversationStarted w then
    match find (fun chat => Sidebar.is_current w (chat_id chat)) (chats w) with
    | Some chat =>
        if truthy_string (chat_title chat) then chat_title chat
        else lit "New Chat"
    | None => lit "New Chat"
    end
  else lit "Start a New Conversation".


End View.

(* ================================================================== *)
(** ** The chat list over the server of the repository *)
(* ================================================================== *)

Module Wire.

Import JS JSON.

(** The chat and the message the client reads from the JSON of a row. *)
Definition client_chat (c : Server.Chat) : App.Chat :=
  App.mkChat (Server.chat_id c) (Server.chat_title c).

Definition client_message (m : Server.Message) : App.Message :=
  App.mkMessage (Server.message_content m) (Server.message_role m).

(** The answer of [fetch] to an answer of a route: [res.json(body)] has
    status 200, so [ok] holds, and a failure has status 500. *)
Definition answer {A B} (f : A -> B) (r : Server.response A)
  : Sidebar.reply B :=
  match r with
  | Server.Json body => Sidebar.Answers true (Some (f body))
  | Server.Failure _ => Sidebar.Answers false None
  end.

(** The server of this repository over the database [db], as the chat
    list sees it. [details] is the text of the error of Prisma in the
    answer of a deletion that fails. *)
Definition backend (details : jsstring) (db : Server.database)
  : Sidebar.server :=
  Sidebar.mkServer
    (answer (map (fun listed => client_chat (fst listed)))
       (Server.get_chats db))
    (fun id => answer (map client_message) (Server.get_messages db id))
    (fun id =>
       match snd (Server.delete_chat id db) with
       | Server.Json _ =>
           Sidebar.Answers true (Some (JObject [(lit "success", JBool true)]))
       | Server.Failure error =>
           Sidebar.Answers false
             (Some (JObject [(lit "error", JString error);
                             (lit "details", JString details)]))
       end).

End Wire.

(* ================================================================== *)
(** ** The settings: the models of the providers, the storage of the browser *)
(* ================================================================== *)

Module Settings.

Import JS JSON App.

(** What the handlers of the settings do outside the component, besides
    the effects of [App.effect]. *)
Inductive call :=
| GetTags (endpoint : jsstring)
| GetModels (apiKey : jsstring)
| SetItem (key value : jsstring)
| ConsoleLog.

(** The platform of the settings: what the two providers answer to the
    request for their models (by endpoint, by key), and whether
    [localStorage.setItem] throws (the quota is exceeded). *)
Record platform := mkPlatform {
  tags : jsstring -> Sidebar.reply json;
  models : jsstring -> Sidebar.reply json;
  quota_exceeded : bool
}.

(** The component with the state of the settings: the world of [App], the
    panel, the two lists of models (the values of the options), the
    storage of the browser (latest item first) and the calls so far. *)
Record state := mkState {
  app : world;
  isSettingsOpen : bool;
  availableModels : list value;
  ollamaModels : list value;
  localStorage : list (jsstring * jsstring);
  calls : list call
}.

Definition on_app (f : world -> world) (s : state) : state :=
  mkState (f (app s)) (isSettingsOpen s) (availableModels s) (ollamaModels s)
    (localStorage s) (calls s).

Definition call_ (c : call) (s : state) : state :=
  mkState (app s) (isSettingsOpen s) (availableModels s) (ollamaModels s)
    (localStorage s) (calls s ++ [c]).

Definition setIsSettingsOpen (b : bool) (s : state) : state :=
  mkState (app s) b (availableModels s) (ollamaModels s) (localStorage s)
    (calls s).

Definition setAvailableModels (l : list value) (s : state) : state :=
  mkState (app s) (isSettingsOpen s) l (ollamaModels s) (localStorage s)
    (calls s).

Definition setOllamaModels (l : list value) (s : state) : state :=
  mkState (app s) (isSettingsOpen s) (availableModels s) l (localStorage s)
    (calls s).

Definition setOpenRouterApiKey (key : jsstring) (w : world) : world :=
  mkWorld (selectedLLM w) (prompt w) (apiProvider w) key
    (ollamaEndpoint w) (currentChatId w) (chats w) (chatHistory w)
    (streamedResponse w) (streamBufferRef w) (isGenerating w)
    (isConversationStarted w) (settingsError w) (trace w).

Definition setOllamaEndpoint (endpoint : jsstring) (w : world) : world :=
  mkWorld (selectedLLM w) (prompt w) (apiProvider w) (openRouterApiKey w)
    endpoint (currentChatId w) (chats w) (chatHistory w)
    (streamedResponse w) (streamBufferRef w) (isGenerating w)
    (isConversationStarted w) (settingsError w) (trace w).

(** [localStorage.getItem(key)] *)
Definition getItem (key : jsstring) (s : state) : option jsstring :=
  match find (fun item => str_eqb (fst item) key) (localStorage s) with
  | Some item => Some (snd item)
  | None => None
  end.

(** [localStorage.setItem(key, value)], when it does not throw. *)
Definition setItem (key value : jsstring) (s : state) : state :=
  call_ (SetItem key value)
    (mkState (app s) (isSettingsOpen s) (availableModels s) (ollamaModels s)
       ((key, value) :: localStorage s) (calls s)).

(** [items.map(item => item[field])] for the items of a parsed array:
    an item that is [null] throws. *)
Fixpoint fields (field : jsstring) (items : list json)
  : completion (list value) :=
  match items with
  | [] => Normal []
  | item :: rest =>
      match get (Value item) field, fields field rest with
      | Normal v, Normal vs => Normal (v :: vs)
      | _, _ => Abrupt
      end
  end.

(** [data[name].map(item => item[field])]: a value that is not an array
    has no [map] to call. *)
Definition listed (name field : jsstring) (data : json)
  : completion (list value) :=
  match get (Value data) name with
  | Normal (Value (JArray items)) => fields field items
  | _ => Abrupt
  end.

(** What an [async] function leaves to be done when it has issued its
    request and its caller goes on. *)
Definition pending := state -> state.

(** *** [fetchOllamaModels] *)

Definition ollama_failure : jsstring :=
  lit "Failed to connect to Ollama. Please check if Ollama is running and the endpoint is correct.".

(** The function after [await fetch(...)]. *)
Definition ollama_answered (p : platform) (endpoint : jsstring) : pending :=
  fun s =>
    let failed :=
      setOllamaModels []
        (on_app (setSettingsError ollama_failure)
           (on_app (fun w => perform w ConsoleError) s)) in
    match tags p endpoint with
    | Sidebar.Answers true (Some data) =>
        match listed (lit "models") (lit "name") data with
        | Normal names => on_app (setSettingsError []) (setOllamaModels names s)
        | Abrupt => failed
        end
    | _ => failed
    end.

(** [w0] is the world of the render whose closure runs: the request goes
    to its [ollamaEndpoint]. *)
Definition fetchOllamaModels (p : platform) (w0 : world) (s : state)
  : state * pending :=
  (call_ (GetTags (ollamaEndpoint w0)) s,
   ollama_answered p (ollamaEndpoint w0)).

(** *** [fetchOpenRouterModels] *)

Definition openrouter_failure : jsstring :=
  lit "Invalid OpenRouter API Key or network error.".

Definition openrouter_answered (p : platform) (apiKey : jsstring) : pending :=
  fun s =>
    let failed :=
      setAvailableModels []
        (on_app (setSettingsError openrouter_failure)
           (on_app (fun w => perform w ConsoleError) s)) in
    match models p apiKey with
    | Sidebar.Answers true (Some data) =>
        match listed (lit "data") (lit "id") data with
        | Normal ids => on_app (setSettingsError []) (setAvailableModels ids s)
        | Abrupt => failed
        end
    | _ => failed
    end.

Definition fetchOpenRouterModels (p : platform) (w0 : world)
  (apiKey : jsstring) (s : state) : state * pending :=
  if str_eqb (apiProvider w0) (lit "openrouter") then
    (call_ (GetModels apiKey) s, openrouter_answered p apiKey)
  else (s, fun s' => s').

(** *** [handleSaveSettings] *)

(** The handler runs to its end, then what the fetch it started left
    pending. *)
Definition handleSaveSettings (p : platform) (s : state) : state :=
  let w0 := app s in
  let saved (started : state * pending) : state :=
    snd started
      (setIsSettingsOpen false (on_app (setSettingsError []) (fst started))) in
  let failed :=
    on_app (setSettingsError (lit "Failed to save settings"))
      (on_app (fun w => perform w ConsoleError) s) in
  if str_eqb (apiProvider w0) (lit "openrouter") then
    if quota_exceeded p then failed
    else
      saved (fetchOpenRouterModels p w0 (openRouterApiKey w0)
               (setItem (lit "openRouterApiKey") (openRouterApiKey w0) s))
  else if str_eqb (apiProvider w0) (lit "ollama") then
    if quota_exceeded p then failed
    else
      saved (fetchOllamaModels p w0
               (setItem (lit "ollamaEndpoint") (ollamaEndpoint w0) s))
  else saved (s, fun s' => s').

(** *** The effects that restore the settings *)

(** The effect on [apiProvider], up to the end of its function. *)
Definition provider_effect (p : platform) (w0 : world) (s : state)
  : state * pending :=
  let apiKey := getItem (lit "openRouterApiKey") s in
  let savedEndpoint := getItem (lit "ollamaEndpoint") s in
  let (s1, later1) :=
    match apiKey with
    | Some (c :: key) =>
        if str_eqb (apiProvider w0) (lit "openrouter") then
          fetchOpenRouterModels p w0 (c :: key)
            (on_app (setOpenRouterApiKey (c :: key)) s)
        else (s, fun s' => s')
    | _ => (s, fun s' => s')
    end in
  let s2 :=
    match savedEndpoint with
    | Some (c :: endpoint) => on_app (setOllamaEndpoint (c :: endpoint)) s1
    | _ => s1
    end in
  let (s3, later2) :=
    if str_eqb (apiProvider w0) (lit "ollama") then fetchOllamaModels p w0 s2
    else (s2, fun s' => s') in
  (s3, fun s' => later2 (later1 s')).

(** The effect of the mount that loads the key. *)
Definition key_effect (p : platform) (w0 : world) (s : state)
  : state * pending :=
  let savedOpenRouterKey := getItem (lit "openRouterApiKey") s in
  let s1 := call_ ConsoleLog s in
  match savedOpenRouterKey with
  | Some (c :: key) =>
      fetchOpenRouterModels p w0 (c :: key)
        (on_app (setOpenRouterApiKey (c :: key)) s1)
  | _ => (s1, fun s' => s')
  end.

(** The two effects when the component is mounted: both run in the
    closure of the first render, one after the other, and what they left
    pending is done afterwards. *)
Definition mount (p : platform) (s : state) : state :=
  let w0 := app s in
  let (s1, later1) := provider_effect p w0 s in
  let (s2, later2) := key_effect p w0 s1 in
  later2 (later1 s2).

(** The component at its first render, over the storage of the browser:
    the provider is [openrouter], no model is chosen. *)
Definition first_render (apiKey endpoint : jsstring)
  (storage : list (jsstring * jsstring)) : state :=
  mkState
    (mkWorld [] [] (lit "openrouter") apiKey endpoint None [] [] [] []
       false false [] [])
    false [] [] storage [].

(** The error of the settings is rendered in the panel only:
    [isSettingsOpen && ...] around [settingsError && ...]. *)
Definition shows_error (s : state) : bool :=
  isSettingsOpen s && truthy_string (settingsError (app s)).

End Settings.

(* ================================================================== *)
(** ** Inputs of further examples *)
(* ================================================================== *)

Module Cases.

Import JS JSON.

(** A database with two chats, the first with two messages. *)
Definition library : Server.database :=
  Server.mkDatabase
    [Server.mkChat (lit "c1") (lit "First") 1 5;
     Server.mkChat (lit "c2") (lit "Second") 2 3]
    [Server.mkMessage (lit "m1") (lit "Hi") (lit "user") 4 (lit "c1");
     Server.mkMessage (lit "m2") (lit "Hello") (lit "assistant") 5 (lit "c1")].

(** The body of a request that posts a message of the user. *)
Definition question : json :=
  JObject [(lit "content", JString (lit "Why?"));
           (lit "role", JString (lit "user"))].

(** A message with a block of code between two texts. *)
Definition answer_with_code : jsstring :=
  lit "See: " ++ Display.fence ++ lit "js" ++ 10 :: lit "let x;"
    ++ Display.fence ++ lit " done".

(** The chat list of the component as it is mounted. *)
Definition sidebar : Sidebar.state :=
  Sidebar.mounted (Examples.mounted "ollama" "llama3").

(** The providers cannot be reached; the storage accepts what it is
    given. *)
Definition offline : Settings.platform :=
  Settings.mkPlatform (fun _ => Sidebar.Rejects) (fun _ => Sidebar.Rejects)
    false.

(** The settings with a key typed in, the panel open. *)
Definition with_key : Settings.state :=
  Settings.setIsSettingsOpen true
    (Settings.first_render (lit "sk-1") (lit "http://localhost:11434") []).

End Cases.

(** Closed statements about concrete inputs are settled by evaluation. *)
Ltac by_evaluation := repeat split; vm_compute; reflexivity.

(* ================================================================== *)
(** ** The platform on examples *)
(* ================================================================== *)

Section PlatformExamples.

Import JS JSON.

(** A byte order mark is stripped; the euro sign is one code unit, an
    emoji a surrogate pair; a sequence cut short, an overlong form and a
    byte that starts nothing are read as U+FFFD. *)
Example decode_examples :
  TextDecoder.decode [239; 187; 191; 104; 105] = lit "hi"
  /\ TextDecoder.decode [226; 130; 172] = [8364]
  /\ TextDecoder.decode [240; 159; 152; 128] = [55357; 56832]
  /\ TextDecoder.decode [104; 226; 130] = [104; 65533]
  /\ TextDecoder.decode [192; 128] = [65533; 65533]
  /\ TextDecoder.decode [255; 104] = [65533; 104].
Proof. by_evaluation. Qed.

Example parse_accepts :
  JSON.parse (quoted " {'a' : [true, null, 'x'], 'a' : {}} ")
  = Some (JObject [(lit "a", JArray [JBool true; JNull; JString (lit "x")]);
                   (lit "a", JObject [])])
  /\ JSON.parse (quoted "'a\u0041\n'") = Some (JString [97; 65; 10])
  /\ JSON.parse (lit "-0") = Some (JNumber (JSNumber.Finite true 0 (-1074)))
  /\ JSON.parse (lit "1.5") = Some (JNumber (JSNumber.Finite false (3 * 2 ^ 51) (-52))).
Proof. by_evaluation. Qed.

Example parse_rejects :
  JSON.parse (lit "") = None
  /\ JSON.parse (quoted "{'a':1,}") = None
  /\ JSON.parse (quoted "{'mess") = None
  /\ JSON.parse (lit "[1,2") = None
  /\ JSON.parse (lit "01") = None
  /\ JSON.parse (lit "1.") = None
  /\ JSON.parse (lit "+1") = None
  /\ JSON.parse (lit "nul") = None
  /\ JSON.parse (lit "oops") = None
  /\ JSON.parse (lit "[DONE]") = None.
Proof. by_evaluation. Qed.

(** Of two members with one name the later one answers. *)
Example get_last_member :
  match JSON.parse (quoted "{'response':'a','response':'b'}") with
  | Some record => get (Value record) (lit "response")
  | None => Abrupt
  end
  = Normal (Value (JString (lit "b"))).
Proof. by_evaluation. Qed.

(** Numbers are printed as [Number::toString] prints them. *)
Example to_string_numbers :
  match JSON.parse
          (lit "[0.1,1e21,1e20,5e-324,2e-324,1e-7,0.000001,-0,9007199254740993,4.35,-1.50,1E3,0.30000000000000004,1.7976931348623157e308,2e308]")
  with
  | Some numbers => to_string numbers
  | None => Abrupt
  end
  = Normal
      (lit "0.1,1e+21,100000000000000000000,5e-324,0,1e-7,0.000001,0,9007199254740992,4.35,-1.5,1000,0.30000000000000004,1.7976931348623157e+308,Infinity").
Proof. by_evaluation. Qed.

Example to_string_values :
  to_string_value Undefined = Normal (lit "undefined")
  /\ to_string (JArray [JNull; JBool true; JObject []; JArray [JString (lit "x")]])
     = Normal (lit ",true,[object Object],x")
  /\ to_string (JObject [(lit "toString", JBool true)]) = Abrupt.
Proof. by_evaluation. Qed.

Example split_words_examples :
  RegExp.split_words (lit "Hi, world!")
  = [lit "Hi"; lit ","; []; lit " "; lit "world"; lit "!"; []]
  /\ RegExp.split_words (lit "a  b") = [lit "a"; lit "  "; lit "b"]
  /\ RegExp.split_words [] = [[]].
Proof. by_evaluation. Qed.

End PlatformExamples.

(* ================================================================== *)
(** ** Strings: lemmas *)
(* ================================================================== *)

Section StringLemmas.

Import JS.

Lemma str_eqb_refl (a : jsstring) : str_eqb a a = true.
Proof.
  induction a as [|x a IH]; simpl; [reflexivity|].
  rewrite Z.eqb_refl, IH. reflexivity.
Qed.

Lemma str_eqb_eq (a b : jsstring) : str_eqb a b = true <-> a = b.
Proof.
  split.
  - revert b. induction a as [|x a IH]; intros [|y b] H; simpl in H;
      try discriminate; [reflexivity|].
    apply andb_true_iff in H. destruct H as [Hxy Hab].
    apply Z.eqb_eq in Hxy. apply IH in Hab. congruence.
  - intros ->. apply str_eqb_refl.
Qed.

Lemma drop_white_space_nil (s : jsstring) :
  drop_white_space s = [] <-> forallb is_white_space s = true.
Proof.
  induction s as [|c s IH]; simpl; [tauto|].
  destruct (is_white_space c); simpl; [exact IH|].
  split; discriminate.
Qed.

Lemma drop_white_space_head (s : jsstring) :
  match drop_white_space s with
  | c :: _ => is_white_space c = false
  | [] => True
  end.
Proof.
  induction s as [|c s IH]; simpl; [exact I|].
  destruct (is_white_space c) eqn:E; [exact IH|exact E].
Qed.

Lemma forallb_rev {A} (f : A -> bool) (l : list A) :
  forallb f (rev l) = forallb f l.
Proof.
  induction l as [|x l IH]; simpl; [reflexivity|].
  rewrite forallb_app, IH. simpl. rewrite andb_true_r. apply andb_comm.
Qed.

(** [!line.trim()] holds exactly of the lines made of white space. *)
Lemma blank_forallb (line : jsstring) :
  App.blank line = forallb is_white_space line.
Proof.
  unfold App.blank, trim.
  destruct (forallb is_white_space line) eqn:E.
  - apply drop_white_space_nil in E. rewrite E. reflexivity.
  - destruct (drop_white_space line) as [|c s] eqn:D.
    + apply drop_white_space_nil in D. congruence.
    + pose proof (drop_white_space_head line) as H. rewrite D in H.
      destruct (drop_white_space (rev (c :: s))) as [|c' s'] eqn:D'.
      * apply drop_white_space_nil in D'. rewrite forallb_rev in D'.
        simpl in D'. rewrite H in D'. discriminate.
      * destruct (rev (c' :: s')) eqn:R; [|reflexivity].
        apply (f_equal (@rev _)) in R. rewrite rev_involutive in R.
        discriminate.
Qed.

Lemma blank_nil : App.blank [] = true.
Proof. reflexivity. Qed.

Lemma blank_cons (c : code_unit) (s : jsstring) :
  is_white_space c = false -> App.blank (c :: s) = false.
Proof. intros H. rewrite blank_forallb. simpl. rewrite H. reflexivity. Qed.

Lemma split_not_nil (sep : code_unit) (s : jsstring) : split sep s <> [].
Proof.
  destruct s as [|c s]; simpl; [discriminate|].
  destruct (c =? sep); [discriminate|].
  destruct (split sep s); discriminate.
Qed.

(** The lines of a text around one of its separators. *)
Lemma split_app_sep (sep : code_unit) (x y : jsstring) :
  split sep (x ++ sep :: y) = split sep x ++ split sep y.
Proof.
  induction x as [|c x IH]; simpl.
  - rewrite Z.eqb_refl. reflexivity.
  - destruct (c =? sep); [rewrite IH; reflexivity|].
    rewrite IH. destruct (split sep x) as [|l ls] eqn:E; [|reflexivity].
    exfalso. exact (split_not_nil _ _ E).
Qed.

Lemma split_snoc_sep (sep : code_unit) (x : jsstring) :
  split sep (x ++ [sep]) = split sep x ++ [[]].
Proof. rewrite split_app_sep. reflexivity. Qed.

Lemma startsWith_app (p s : jsstring) : startsWith p (p ++ s) = true.
Proof.
  induction p as [|x p IH]; simpl; [reflexivity|].
  rewrite Z.eqb_refl. exact IH.
Qed.

Lemma slice_app (p s : jsstring) : slice (length p) (p ++ s) = s.
Proof. unfold slice. induction p as [|x p IH]; simpl; [reflexivity|exact IH]. Qed.

End StringLemmas.

(* ================================================================== *)
(** ** JSON.parse: lemmas *)
(* ================================================================== *)

Section ParserLemmas.

Import JS JSON.

Lemma white_space_cases (c : Z) :
  is_white_space c = true ->
  (9 <= c <= 13) \/ c = 32 \/ 160 <= c.
Proof.
  unfold is_white_space.
  rewrite !orb_true_iff, !andb_true_iff, !Z.leb_le, !Z.eqb_eq. lia.
Qed.

Lemma skip_ws_blank (l : jsstring) :
  forallb is_white_space l = true ->
  match skip_ws l with
  | [] => True
  | c :: _ => is_white_space c = true
  end.
Proof.
  induction l as [|c l IH]; simpl; [trivial|].
  intros H. apply andb_true_iff in H. destruct H as [Hc Hl].
  destruct (is_ws c); [apply IH, Hl|exact Hc].
Qed.

Lemma parse_number_white_space (c : Z) (s : jsstring) :
  is_white_space c = true -> parse_number (c :: s) = None.
Proof.
  intros H. apply white_space_cases in H.
  unfold parse_number.
  replace (c =? 45) with false by (symmetry; apply Z.eqb_neq; lia).
  unfold parse_int.
  replace (c =? 48) with false by (symmetry; apply Z.eqb_neq; lia).
  replace (is_digit c) with false; [reflexivity|].
  symmetry. unfold is_digit. apply andb_false_iff.
  rewrite !Z.leb_gt. lia.
Qed.

(** A line made of white space is not a JSON text. *)
Lemma parse_blank (line : jsstring) :
  App.blank line = true -> JSON.parse line = None.
Proof.
  rewrite blank_forallb. intros H. apply skip_ws_blank in H.
  unfold JSON.parse.
  replace (2 * length line + 2)%nat with (S (2 * length line + 1)) by lia.
  simpl parse_value.
  destruct (skip_ws line) as [|c s1]; [reflexivity|].
  pose proof (white_space_cases c H) as Hc.
  replace (c =? 110) with false by (symmetry; apply Z.eqb_neq; lia).
  replace (c =? 116) with false by (symmetry; apply Z.eqb_neq; lia).
  replace (c =? 102) with false by (symmetry; apply Z.eqb_neq; lia).
  replace (c =? 34) with false by (symmetry; apply Z.eqb_neq; lia).
  replace (c =? 91) with false by (symmetry; apply Z.eqb_neq; lia).
  replace (c =? 123) with false by (symmetry; apply Z.eqb_neq; lia).
  rewrite (parse_number_white_space c s1 H). reflexivity.
Qed.

Lemma parse_not_blank (line : jsstring) (j : json) :
  JSON.parse line = Some j -> App.blank line = false.
Proof.
  intros H. destruct (App.blank line) eqn:E; [|reflexivity].
  rewrite (parse_blank line E) in H. discriminate.
Qed.

End ParserLemmas.

(* ================================================================== *)
(** ** TextDecoder: lemmas *)
(* ================================================================== *)

Section DecoderLemmas.

Import TextDecoder.

Lemma lead_expects_high (b : Z) : expects_high (fst (lead b)).
Proof.
  unfold lead, expects_high.
  repeat match goal with
         | |- context [if ?c then _ else _] => destruct c; simpl
         end; lia.
Qed.

Lemma handler_expects_high (st : state) (b : Z) :
  expects_high (fst (handler st b)).
Proof.
  unfold handler.
  destruct (bytes_needed st =? 0); [apply lead_expects_high|].
  destruct (negb _).
  - pose proof (lead_expects_high b) as H.
    destruct (lead b); exact H.
  - destruct (_ =? _); unfold expects_high; simpl; lia.
Qed.

Lemma lead_ascii (b : Z) : b <= 127 -> lead b = (initial, [b]).
Proof.
  intros H. unfold lead.
  destruct (b <=? 127) eqn:E; [reflexivity|].
  apply Z.leb_gt in E. lia.
Qed.

(** An ASCII byte ends whatever sequence was open, and leaves the decoder
    in its initial state. *)
Lemma handler_ascii (st : state) (b : Z) :
  expects_high st -> b <= 127 ->
  exists pre, handler st b = (initial, pre ++ [b]).
Proof.
  intros Hst Hb. unfold handler.
  destruct (bytes_needed st =? 0).
  - exists []. apply lead_ascii, Hb.
  - destruct (lower_boundary st <=? b) eqn:E.
    + apply Z.leb_le in E. unfold expects_high in Hst. lia.
    + simpl. rewrite (lead_ascii b Hb). exists [65533]. reflexivity.
Qed.

Lemma run_initial_nil : run initial [] = [].
Proof. reflexivity. Qed.

Lemma run_app_ascii (a : list Z) (b : Z) (rest : list Z) (st : state) :
  expects_high st -> b <= 127 ->
  run st (a ++ b :: rest) = run st (a ++ [b]) ++ run initial rest.
Proof.
  intros Hst Hb. revert st Hst.
  induction a as [|x a IH]; intros st Hst; simpl.
  - destruct (handler_ascii st b Hst Hb) as [pre ->].
    rewrite app_nil_r. reflexivity.
  - pose proof (handler_expects_high st x) as H.
    destruct (handler st x) as [st' out]. simpl in H.
    rewrite (IH st' H), app_assoc. reflexivity.
Qed.

Lemma run_snoc_ascii (a : list Z) (b : Z) (st : state) :
  expects_high st -> b <= 127 ->
  exists pre, run st (a ++ [b]) = pre ++ [b].
Proof.
  intros Hst Hb. revert st Hst.
  induction a as [|x a IH]; intros st Hst; simpl.
  - destruct (handler_ascii st b Hst Hb) as [pre ->].
    exists pre. rewrite app_nil_r. reflexivity.
  - pose proof (handler_expects_high st x) as H.
    destruct (handler st x) as [st' out]. simpl in H.
    destruct (IH st' H) as [pre ->].
    exists (out ++ pre). rewrite app_assoc. reflexivity.
Qed.

Lemma initial_expects_high : expects_high initial.
Proof. unfold expects_high. simpl. lia. Qed.

Lemma strip_bom_app (l r : list Z) :
  l <> [] -> strip_bom (l ++ r) = strip_bom l ++ r.
Proof.
  destruct l as [|c l]; [congruence|]. intros _. simpl.
  destruct (c =? 65279); reflexivity.
Qed.

Lemma strip_bom_snoc_newline (pre : list Z) :
  exists pre', strip_bom (pre ++ [10]) = pre' ++ [10].
Proof.
  destruct pre as [|c pre]; simpl.
  - exists []. reflexivity.
  - destruct (c =? 65279); [exists pre | exists (c :: pre)]; reflexivity.
Qed.

(** A chunk that ends with a newline decodes to a text that ends with
    one. *)
Lemma decode_snoc_newline (x : list Z) :
  exists t, decode (x ++ [10]) = t ++ [10].
Proof.
  unfold decode, utf8_decode.
  destruct (run_snoc_ascii x 10 initial initial_expects_high ltac:(lia))
    as [pre ->].
  destruct (strip_bom_snoc_newline pre) as [pre' ->].
  exists (flat_map utf16 pre'). rewrite flat_map_app. reflexivity.
Qed.

(** Decoding does not depend on a chunk boundary after a newline, unless
    the second chunk starts with a byte order mark. *)
Lemma decode_app_newline (x y : list Z) :
  Notions.reads_bom y = false ->
  decode ((x ++ [10]) ++ y) = decode (x ++ [10]) ++ decode y.
Proof.
  intros Hy. unfold decode, utf8_decode.
  rewrite <- app_assoc. simpl.
  rewrite (run_app_ascii x 10 y initial initial_expects_high ltac:(lia)).
  destruct (run_snoc_ascii x 10 initial initial_expects_high ltac:(lia))
    as [pre E].
  rewrite strip_bom_app by (rewrite E; destruct pre; discriminate).
  rewrite flat_map_app. f_equal. f_equal.
  unfold Notions.reads_bom, utf8_decode in Hy. unfold strip_bom.
  destruct (run initial y) as [|c r]; [reflexivity|].
  rewrite Hy. reflexivity.
Qed.

(** The masks and shifts of the decoder, as arithmetic. *)
Lemma land_mask (b k : Z) :
  0 <= k -> Z.land b (Z.ones k) = b mod 2 ^ k.
Proof. intros H. apply Z.land_ones, H. Qed.

Lemma land_63 (b : Z) : 128 <= b <= 191 -> Z.land b 63 = b - 128.
Proof.
  intros H. change 63 with (Z.ones 6). rewrite land_mask by lia.
  change (2 ^ 6) with 64. Z.div_mod_to_equations. lia.
Qed.

Lemma land_31 (b : Z) : 192 <= b <= 223 -> Z.land b 31 = b - 192.
Proof.
  intros H. change 31 with (Z.ones 5). rewrite land_mask by lia.
  change (2 ^ 5) with 32. Z.div_mod_to_equations. lia.
Qed.

Lemma land_15 (b : Z) : 224 <= b <= 239 -> Z.land b 15 = b - 224.
Proof.
  intros H. change 15 with (Z.ones 4). rewrite land_mask by lia.
  change (2 ^ 4) with 16. Z.div_mod_to_equations. lia.
Qed.

Lemma land_7 (b : Z) : 240 <= b <= 247 -> Z.land b 7 = b - 240.
Proof.
  intros H. change 7 with (Z.ones 3). rewrite land_mask by lia.
  change (2 ^ 3) with 8. Z.div_mod_to_equations. lia.
Qed.

Lemma lor_shiftl_6 (x y : Z) :
  0 <= x -> 0 <= y < 64 -> Z.lor (Z.shiftl x 6) y = 64 * x + y.
Proof.
  intros Hx Hy.
  assert (L : Z.land (Z.shiftl x 6) y = 0).
  { apply Z.bits_inj'. intros n Hn. rewrite Z.land_spec, Z.bits_0.
    destruct (Z.ltb_spec n 6).
    - rewrite Z.shiftl_spec_low by lia. reflexivity.
    - destruct (Z.eqb_spec y 0) as [->|Hy0].
      + rewrite Z.bits_0. apply andb_false_r.
      + assert (Z.log2 y < 6) by (apply Z.log2_lt_pow2; lia).
        rewrite (Z.bits_above_log2 y n) by lia. apply andb_false_r. }
  pose proof (Z.add_lor_land (Z.shiftl x 6) y) as H.
  rewrite L in H. rewrite Z.shiftl_mul_pow2 in H |- * by lia.
  change (2 ^ 6) with 64 in H |- *. lia.
Qed.

(** The tests of the decoder, as facts. *)
Ltac boolean_facts :=
  repeat match goal with
         | H : _ && _ = true |- _ => apply andb_true_iff in H; destruct H
         | H : _ && _ = false |- _ => apply andb_false_iff in H
         | H : negb _ = true |- _ => apply negb_true_iff in H
         | H : negb _ = false |- _ => apply negb_false_iff in H
         | H : (_ <=? _) = true |- _ => apply Z.leb_le in H
         | H : (_ <=? _) = false |- _ => apply Z.leb_gt in H
         | H : (_ =? _) = true |- _ => apply Z.eqb_eq in H
         | H : (_ =? _) = false |- _ => apply Z.eqb_neq in H
         end.

(** The first code point the decoder reads is U+FEFF only for the bytes
    EF BB BF. *)
Lemma starts_with_bom_bytes (bytes : list Z) :
  Notions.reads_bom bytes = Notions.starts_with_bom bytes.
Proof.
  destruct (Notions.starts_with_bom bytes) eqn:B.
  - destruct bytes as [|b1 [|b2 [|b3 rest]]]; try discriminate.
    simpl in B. boolean_facts. subst. reflexivity.
  - unfold Notions.reads_bom, utf8_decode.
    destruct bytes as [|b1 r]; [reflexivity|].
    cbn [run]. change (handler initial b1) with (lead b1). unfold lead.
    destruct (b1 <=? 127) eqn:A1.
    { simpl. boolean_facts. apply Z.eqb_neq. lia. }
    destruct ((194 <=? b1) && (b1 <=? 223)) eqn:A2.
    { cbn [app]. destruct r as [|b2 r]; [reflexivity|].
      cbn [run]. unfold handler. cbn [bytes_needed lower_boundary upper_boundary
                                       code_point bytes_seen].
      change (1 =? 0) with false. cbv iota.
      destruct ((128 <=? b2) && (b2 <=? 191)) eqn:A3; cbn [negb].
      - change (0 + 1 =? 1) with true. cbv iota. cbn [app].
        boolean_facts. apply Z.eqb_neq.
        rewrite land_31, land_63, lor_shiftl_6 by lia. lia.
      - destruct (lead b2). reflexivity. }
    destruct ((224 <=? b1) && (b1 <=? 239)) eqn:A3.
    { cbn [app]. destruct r as [|b2 r]; [reflexivity|].
      cbn [run]. unfold handler at 1.
      cbn [bytes_needed lower_boundary upper_boundary code_point bytes_seen].
      change (2 =? 0) with false. cbv iota.
      destruct ((_ <=? b2) && (b2 <=? _)) eqn:A4; cbn [negb];
        [|destruct (lead b2); reflexivity].
      change (0 + 1 =? 2) with false. cbv iota. cbn [app].
      destruct r as [|b3 r]; [reflexivity|].
      cbn [run]. unfold handler.
      cbn [bytes_needed lower_boundary upper_boundary code_point bytes_seen].
      change (2 =? 0) with false. cbv iota.
      destruct ((128 <=? b3) && (b3 <=? 191)) eqn:A5; cbn [negb];
        [|destruct (lead b3); reflexivity].
      change (0 + 1 + 1 =? 2) with true. cbv iota. cbn [app].
      simpl in B.
      assert (128 <= b2 <= 191).
      { destruct (b1 =? 224), (b1 =? 237); boolean_facts; lia. }
      clear A4. boolean_facts. apply Z.eqb_neq.
      rewrite land_15, !land_63 by lia.
      rewrite (lor_shiftl_6 (b1 - 224) (b2 - 128)) by lia.
      rewrite lor_shiftl_6 by lia.
      intros E.
      repeat match goal with
             | H : _ \/ _ |- _ => destruct H
             end; boolean_facts; lia. }
    destruct ((240 <=? b1) && (b1 <=? 244)) eqn:A4; [|reflexivity].
    cbn [app]. destruct r as [|b2 r]; [reflexivity|].
    cbn [run]. unfold handler at 1.
    cbn [bytes_needed lower_boundary upper_boundary code_point bytes_seen].
    change (3 =? 0) with false. cbv iota.
    destruct ((_ <=? b2) && (b2 <=? _)) eqn:A5; cbn [negb];
      [|destruct (lead b2); reflexivity].
    change (0 + 1 =? 3) with false. cbv iota. cbn [app].
    destruct r as [|b3 r]; [reflexivity|].
    cbn [run]. unfold handler at 1.
    cbn [bytes_needed lower_boundary upper_boundary code_point bytes_seen].
    change (3 =? 0) with false. cbv iota.
    destruct ((128 <=? b3) && (b3 <=? 191)) eqn:A6; cbn [negb];
      [|destruct (lead b3); reflexivity].
    change (0 + 1 + 1 =? 3) with false. cbv iota. cbn [app].
    destruct r as [|b4 r]; [reflexivity|].
    cbn [run]. unfold handler.
    cbn [bytes_needed lower_boundary upper_boundary code_point bytes_seen].
    change (3 =? 0) with false. cbv iota.
    destruct ((128 <=? b4) && (b4 <=? 191)) eqn:A7; cbn [negb];
      [|destruct (lead b4); reflexivity].
    change (0 + 1 + 1 + 1 =? 3) with true. cbv iota. cbn [app].
    assert (128 <= b2 <= 191 /\ (b1 = 240 -> 144 <= b2)).
    { destruct (Z.eqb_spec b1 240), (b1 =? 244); boolean_facts; lia. }
    clear A5 B. boolean_facts. apply Z.eqb_neq.
    rewrite land_7, !land_63 by lia.
    rewrite (lor_shiftl_6 (b1 - 240) (b2 - 128)) by lia.
    rewrite (lor_shiftl_6 (64 * (b1 - 240) + (b2 - 128)) (b3 - 128)) by lia.
    rewrite lor_shiftl_6 by lia. lia.
Qed.

End DecoderLemmas.

(* ================================================================== *)
(** ** The loop as a list of actions: lemmas *)
(* ================================================================== *)

Section Factoring.

Import JS JSON App Notions.

Lemma acts_app (w : world) (l1 l2 : list action) :
  acts w (l1 ++ l2) = acts (acts w l1) l2.
Proof. apply fold_left_app. Qed.

Lemma buffer_acts (l : list action) (w : world) :
  streamBufferRef (acts w l) = streamBufferRef w ++ concat (said l).
Proof.
  revert w. induction l as [|a l IH]; intros w.
  - simpl. rewrite app_nil_r. reflexivity.
  - change (acts w (a :: l)) with (acts (act w a) l).
    rewrite IH. destruct a; simpl; [rewrite <- app_assoc|..]; reflexivity.
Qed.

Lemma trace_acts (l : list action) (w : world) :
  trace (acts w l) = trace w ++ effects_from (streamBufferRef w) l.
Proof.
  revert w. induction l as [|a l IH]; intros w.
  - simpl. rewrite app_nil_r. reflexivity.
  - change (acts w (a :: l)) with (acts (act w a) l).
    rewrite IH. destruct a; simpl; rewrite <- app_assoc; reflexivity.
Qed.

Lemma acts_say (w : world) (ts : list jsstring) :
  fold_left emit ts w = acts w (map Say ts).
Proof.
  revert w. induction ts as [|t ts IH]; intros w; simpl; [reflexivity|].
  apply IH.
Qed.

Lemma ollama_line_yield (w : world) (line : jsstring) :
  ollama_line w line =
  match ollama_yield line with
  | Normal None => (w, Completed)
  | Normal (Some t) => (emit w t, Completed)
  | Abrupt => (w, Thrown)
  end.
Proof.
  unfold ollama_line, ollama_yield, emit_value.
  destruct (blank line); [reflexivity|].
  destruct (JSON.parse line) as [data|]; [|reflexivity].
  destruct (get (Value data) (lit "message")) as [message|]; [|reflexivity].
  destruct (truthy message).
  - destruct (get message (lit "content")) as [content|]; [|reflexivity].
    destruct (to_string_value content); reflexivity.
  - destruct (get (Value data) (lit "response")) as [response|]; [|reflexivity].
    destruct (truthy response); [|reflexivity].
    destruct (to_string_value response); reflexivity.
Qed.

Lemma ollama_lines_factor (lines : list jsstring) (w : world) :
  ollama_lines w lines =
  (fold_left emit (fst (ollama_lines_said lines)) w,
   snd (ollama_lines_said lines)).
Proof.
  revert w. induction lines as [|line rest IH]; intros w; simpl;
    [reflexivity|].
  rewrite ollama_line_yield.
  destruct (ollama_yield line) as [[t|]|]; simpl.
  - rewrite IH. destruct (ollama_lines_said rest). reflexivity.
  - rewrite IH. destruct (ollama_lines_said rest). reflexivity.
  - reflexivity.
Qed.

Lemma ollama_chunk_factor (w : world) (chunk : jsstring) :
  ollama_chunk w chunk = acts w (map Say (ollama_chunk_said chunk)).
Proof.
  unfold ollama_chunk, ollama_chunk_said.
  rewrite ollama_lines_factor.
  destruct (ollama_lines_said (split 10 chunk)) as [ts [|]]; simpl.
  - apply acts_say.
  - rewrite map_app, acts_app, acts_say. reflexivity.
Qed.

Lemma emit_words_acts (words : list jsstring) (w : world) :
  emit_words w words = acts w (words_acts words).
Proof.
  revert w. induction words as [|word rest IH]; intros w; simpl;
    [reflexivity|].
  destruct (truthy_string word); simpl; apply IH.
Qed.

Lemma data_line_factor (g : bool) (w : world) (wb line : jsstring) :
  data_line g (w, wb) line =
  let '(a, wb', oc) := data_line_acts g wb line in ((acts w a, wb'), oc).
Proof.
  unfold data_line, data_line_acts, emit_value.
  destruct (JSON.parse (slice 6 line)) as [jsonData|]; [|reflexivity].
  destruct (delta_content jsonData) as [content|]; [|reflexivity].
  destruct (truthy content); [|reflexivity].
  destruct g.
  - destruct (to_string_value content) as [text|]; [|reflexivity].
    destruct content as [|[| | | | |]]; try reflexivity.
    simpl. rewrite emit_words_acts. reflexivity.
  - destruct (to_string_value content); reflexivity.
Qed.

Lemma sse_line_factor (g : bool) (w : world) (wb line : jsstring) :
  sse_line g (w, wb) line =
  (acts w (fst (sse_line_acts g wb line)), snd (sse_line_acts g wb line)).
Proof.
  unfold sse_line, sse_line_acts.
  destruct (blank line || includes (lit "[DONE]") line); [reflexivity|].
  destruct (startsWith (lit "data: ") line); [|reflexivity].
  rewrite data_line_factor.
  destruct (data_line_acts g wb line) as [[a wb'] [|]]; simpl;
    [reflexivity|].
  rewrite acts_app. reflexivity.
Qed.

Lemma sse_lines_factor (g : bool) (lines : list jsstring) (w : world)
  (wb : jsstring) :
  fold_left (sse_line g) lines (w, wb) =
  (acts w (fst (sse_lines_acts g wb lines)), snd (sse_lines_acts g wb lines)).
Proof.
  revert w wb. induction lines as [|line rest IH]; intros w wb; simpl;
    [reflexivity|].
  rewrite sse_line_factor, IH.
  destruct (sse_line_acts g wb line) as [a wb']. simpl.
  destruct (sse_lines_acts g wb' rest) as [a' wb'']. simpl.
  rewrite acts_app. reflexivity.
Qed.

Lemma on_text_factor (p : jsstring) (g : bool) (w : world) (wb text : jsstring) :
  on_text p g (w, wb) text =
  (acts w (fst (text_acts p g wb text)), snd (text_acts p g wb text)).
Proof.
  unfold on_text, text_acts.
  destruct (str_eqb p (lit "ollama")); simpl.
  - rewrite ollama_chunk_factor. reflexivity.
  - apply sse_lines_factor.
Qed.

Lemma stream_factor (p : jsstring) (g : bool) (slicing : list (list Z))
  (w : world) (wb : jsstring) :
  fold_left (on_chunk p g) slicing (w, wb) =
  (acts w (fst (stream_acts p g wb slicing)),
   snd (stream_acts p g wb slicing)).
Proof.
  revert w wb. induction slicing as [|value rest IH]; intros w wb; simpl;
    [reflexivity|].
  unfold on_chunk at 2. rewrite on_text_factor, IH.
  destruct (text_acts p g wb (TextDecoder.decode value)) as [a wb']. simpl.
  destruct (stream_acts p g wb' rest) as [a' wb'']. simpl.
  rewrite acts_app. reflexivity.
Qed.

(** A stream of chunks runs the loop over all of them and ends. *)
Lemma read_loop_chunks (p : jsstring) (g : bool) (slicing : list (list Z))
  (s : session) :
  read_loop p g s (chunks slicing) = on_done (fold_left (on_chunk p g) slicing s).
Proof.
  revert s. induction slicing as [|value rest IH]; intros s; simpl;
    [reflexivity|apply IH].
Qed.

Lemma handleStreamResponse_chunks (w : world) (slicing : list (list Z)) :
  handleStreamResponse w (chunks slicing) = on_done (after_chunks w slicing).
Proof. apply read_loop_chunks. Qed.

End Factoring.

(* ================================================================== *)
(** ** Chunk boundaries on line ends *)
(* ================================================================== *)

Section LineAligned.

Import JS JSON App Notions.

Lemma ends_with_newline_snoc (c : list Z) :
  ends_with_newline c = true -> exists x, c = x ++ [10].
Proof.
  unfold ends_with_newline. destruct (rev c) as [|b r] eqn:E; [discriminate|].
  intros H. apply Z.eqb_eq in H. subst b. exists (rev r).
  rewrite <- (rev_involutive c), E. reflexivity.
Qed.

Lemma reads_bom_app_newline (x y : list Z) :
  reads_bom ((x ++ [10]) ++ y) = reads_bom (x ++ [10]).
Proof.
  unfold reads_bom, TextDecoder.utf8_decode.
  rewrite <- app_assoc. simpl.
  rewrite (run_app_ascii x 10 y _ initial_expects_high ltac:(lia)).
  destruct (run_snoc_ascii x 10 _ initial_expects_high ltac:(lia)) as [pre ->].
  destruct pre; reflexivity.
Qed.

(** The bytes after an aligned boundary start with a byte order mark only
    if the chunk after it does. *)
Lemma reads_bom_concat (c : list Z) (rest : list (list Z)) :
  line_aligned (c :: rest) = true ->
  reads_bom (concat (c :: rest)) = reads_bom c.
Proof.
  destruct rest as [|c' rest]; simpl.
  - rewrite app_nil_r. reflexivity.
  - intros H. apply andb_true_iff in H. destruct H as [H _].
    destruct (ends_with_newline_snoc c H) as [x ->].
    apply reads_bom_app_newline.
Qed.

Lemma sse_lines_acts_app (g : bool) (l1 l2 : list jsstring) (wb : jsstring) :
  sse_lines_acts g wb (l1 ++ l2) =
  (fst (sse_lines_acts g wb l1)
     ++ fst (sse_lines_acts g (snd (sse_lines_acts g wb l1)) l2),
   snd (sse_lines_acts g (snd (sse_lines_acts g wb l1)) l2)).
Proof.
  revert wb. induction l1 as [|line l1 IH]; intros wb; simpl.
  - destruct (sse_lines_acts g wb l2). reflexivity.
  - destruct (sse_line_acts g wb line) as [a wb']. rewrite IH.
    destruct (sse_lines_acts g wb' l1) as [a1 wb1]. simpl.
    destruct (sse_lines_acts g wb1 l2) as [a2 wb2]. simpl.
    rewrite app_assoc. reflexivity.
Qed.

Lemma sse_lines_acts_blank_end (g : bool) (l : list jsstring) (wb : jsstring) :
  sse_lines_acts g wb (l ++ [[]]) = sse_lines_acts g wb l.
Proof.
  rewrite sse_lines_acts_app. simpl.
  destruct (sse_lines_acts g wb l) as [a wb']. simpl.
  rewrite app_nil_r. reflexivity.
Qed.

Lemma ollama_lines_said_quiet (lines : list jsstring) :
  quiet lines = true -> ollama_lines_said lines = (lines_said lines, Completed).
Proof.
  induction lines as [|line rest IH]; simpl; [reflexivity|].
  intros H. apply andb_true_iff in H. destruct H as [H1 H2].
  unfold throws in H1.
  destruct (ollama_yield line) as [o|]; [|discriminate].
  rewrite (IH H2). destruct o; reflexivity.
Qed.

Lemma ollama_chunk_said_quiet (text : jsstring) :
  no_line_throws text = true ->
  ollama_chunk_said text = lines_said (split 10 text).
Proof.
  intros H. unfold ollama_chunk_said.
  rewrite (ollama_lines_said_quiet _ H). reflexivity.
Qed.

(** One chunk of text cut after a newline is two chunks of text. *)
Lemma text_acts_app_newline (p : jsstring) (g : bool) (wb t t2 : jsstring) :
  (str_eqb p (lit "ollama") = true ->
   no_line_throws ((t ++ [10]) ++ t2) = true) ->
  text_acts p g wb ((t ++ [10]) ++ t2) =
  (fst (text_acts p g wb (t ++ [10]))
     ++ fst (text_acts p g (snd (text_acts p g wb (t ++ [10]))) t2),
   snd (text_acts p g (snd (text_acts p g wb (t ++ [10]))) t2)).
Proof.
  intros Hq. unfold text_acts.
  destruct (str_eqb p (lit "ollama")); simpl.
  - specialize (Hq eq_refl).
    assert (Hsplit : split 10 ((t ++ [10]) ++ t2) = split 10 t ++ split 10 t2)
      by (rewrite <- app_assoc; apply split_app_sep).
    unfold no_line_throws in Hq. rewrite Hsplit, forallb_app in Hq.
    apply andb_true_iff in Hq. destruct Hq as [Hq1 Hq2].
    rewrite !ollama_chunk_said_quiet.
    + rewrite Hsplit, split_snoc_sep. unfold lines_said.
      rewrite !flat_map_app, map_app. simpl.
      rewrite app_nil_r. reflexivity.
    + exact Hq2.
    + unfold no_line_throws. rewrite split_snoc_sep, forallb_app, Hq1.
      reflexivity.
    + unfold no_line_throws. rewrite Hsplit, forallb_app, Hq1, Hq2.
      reflexivity.
  - rewrite <- app_assoc. simpl. rewrite split_app_sep, split_snoc_sep.
    rewrite sse_lines_acts_blank_end. apply sse_lines_acts_app.
Qed.

Lemma no_line_throws_tail (t t2 : jsstring) :
  no_line_throws ((t ++ [10]) ++ t2) = true -> no_line_throws t2 = true.
Proof.
  unfold no_line_throws. rewrite <- app_assoc. simpl.
  rewrite split_app_sep, forallb_app. intros H.
  apply andb_true_iff in H. tauto.
Qed.

(** With every boundary on a line end, the chunks act as their
    concatenation does. *)
Lemma aligned_stream_acts (p : jsstring) (g : bool) (slicing : list (list Z)) :
  forall wb,
    line_aligned slicing = true ->
    no_inner_bom slicing = true ->
    (str_eqb p (lit "ollama") = true ->
     no_line_throws (TextDecoder.decode (concat slicing)) = true) ->
    stream_acts p g wb slicing =
    text_acts p g wb (TextDecoder.decode (concat slicing)).
Proof.
  induction slicing as [|c rest IH]; intros wb Hal Hbom Hq.
  - simpl. unfold text_acts. destruct (str_eqb p (lit "ollama")); reflexivity.
  - destruct rest as [|c' rest'].
    + simpl. rewrite app_nil_r.
      destruct (text_acts p g wb (TextDecoder.decode c)). 
      rewrite app_nil_r. reflexivity.
    + assert (Hal' : line_aligned (c' :: rest') = true).
      { simpl in Hal. apply andb_true_iff in Hal. tauto. }
      assert (Hc : ends_with_newline c = true).
      { simpl in Hal. apply andb_true_iff in Hal. tauto. }
      unfold no_inner_bom in Hbom. simpl in Hbom.
      apply andb_true_iff in Hbom. destruct Hbom as [Hb1 Hb2].
      apply negb_true_iff in Hb1.
      destruct (ends_with_newline_snoc c Hc) as [x ->].
      assert (Hdec : TextDecoder.decode (concat ((x ++ [10]) :: c' :: rest')) =
                     TextDecoder.decode (x ++ [10])
                       ++ TextDecoder.decode (concat (c' :: rest'))).
      { change (concat ((x ++ [10]) :: c' :: rest'))
          with ((x ++ [10]) ++ concat (c' :: rest')).
        apply decode_app_newline.
        rewrite (reads_bom_concat c' rest' Hal'), starts_with_bom_bytes.
        exact Hb1. }
      destruct (decode_snoc_newline x) as [t Ht].
      rewrite Hdec, Ht in *.
      change (stream_acts p g wb ((x ++ [10]) :: c' :: rest'))
        with (let (a, wb') := text_acts p g wb (TextDecoder.decode (x ++ [10])) in
              let (a', wb'') := stream_acts p g wb' (c' :: rest') in
              (a ++ a', wb'')).
      rewrite Ht, (text_acts_app_newline p g wb t _ Hq).
      destruct (text_acts p g wb (t ++ [10])) as [a wb'].
      rewrite (IH wb' Hal' Hb2).
      * simpl. destruct (text_acts p g wb' _). reflexivity.
      * intros Hp. apply (no_line_throws_tail t), Hq, Hp.
Qed.

End LineAligned.

(* ================================================================== *)
(** ** The component and the specification's extractor *)
(* ================================================================== *)

Section Agreement.

Import JS JSON App Notions.

(** The content the component reads from a record is the content of the
    specification's extractor, where either is truthy. *)
Lemma delta_content_spec (record : json) :
  match delta_content record with
  | Normal c => if truthy c then c = Spec.sse_content record
                else truthy (Spec.sse_content record) = false
  | Abrupt => truthy (Spec.sse_content record) = false
  end.
Proof.
  unfold delta_content, Spec.sse_content.
  destruct record as [|b|x|s|items|ms]; try reflexivity.
  cbn [get get_opt].
  destruct (lookup (lit "choices") ms) as [choices|]; [|reflexivity].
  destruct choices as [|b|x|s|items|ms']; cbn [truthy get0];
    try reflexivity.
  - destruct b; reflexivity.
  - destruct (JSNumber.truthy x) eqn:E; cbn [truthy]; rewrite ?E; reflexivity.
  - destruct s; reflexivity.
  - destruct items; cbn [truthy]; [reflexivity|].
    match goal with |- if ?t then _ else _ => destruct t end; reflexivity.
  - match goal with |- if ?t then _ else _ => destruct t end; reflexivity.
Qed.

Lemma to_string_value_spec (c : value) :
  truthy c = true ->
  to_string_value c =
  match Spec.string_value c with Some t => Normal t | None => Abrupt end.
Proof.
  destruct c as [|j]; [discriminate|]. intros _. simpl.
  destruct (to_string j); reflexivity.
Qed.

Lemma said_words_acts (words : list jsstring) :
  said (words_acts words) = filter truthy_string words.
Proof.
  induction words as [|word rest IH]; simpl; [reflexivity|].
  unfold said, words_acts in *. simpl.
  destruct (truthy_string word); simpl; rewrite IH; reflexivity.
Qed.

Lemma said_app (l1 l2 : list action) : said (l1 ++ l2) = said l1 ++ said l2.
Proof. apply flat_map_app. Qed.

(** A line of the ServerSentEvents branch appends the fragment of the
    specification, at once when the delivery is not paced. *)
Lemma sse_line_acts_immediate (wb line : jsstring) :
  snd (sse_line_acts false wb line) = wb
  /\ filter truthy_string (said (fst (sse_line_acts false wb line)))
     = filter truthy_string [Spec.sse_line line].
Proof.
  unfold sse_line_acts, Spec.sse_line.
  destruct (blank line || includes (lit "[DONE]") line); [split; reflexivity|].
  destruct (startsWith (lit "data: ") line); [|split; reflexivity].
  unfold data_line_acts, Spec.sse_fragment.
  destruct (JSON.parse (slice 6 line)) as [record|]; [|split; reflexivity].
  pose proof (delta_content_spec record) as H.
  destruct (delta_content record) as [c|].
  - destruct (truthy c) eqn:Hc.
    + subst c. rewrite Hc, (to_string_value_spec _ Hc).
      destruct (Spec.string_value (Spec.sse_content record));
        split; reflexivity.
    + rewrite H. split; reflexivity.
  - rewrite H. split; reflexivity.
Qed.

(** When the delivery is paced, a line whose content is a string appends
    the sub-tokens of the fragment, and leaves [wordBuffer] empty. *)
Lemma sse_line_acts_paced (line : jsstring) :
  sse_text_only line = true ->
  snd (sse_line_acts true [] line) = []
  /\ said (fst (sse_line_acts true [] line))
     = Spec.emitted true (Spec.sse_line line).
Proof.
  unfold sse_line_acts, Spec.sse_line, sse_text_only.
  destruct (blank line || includes (lit "[DONE]") line); [split; reflexivity|].
  destruct (startsWith (lit "data: ") line); [|split; reflexivity].
  unfold data_line_acts, Spec.sse_fragment.
  destruct (JSON.parse (slice 6 line)) as [record|]; [|split; reflexivity].
  pose proof (delta_content_spec record) as H.
  destruct (delta_content record) as [c|].
  - destruct (truthy c) eqn:Hc.
    + subst c. rewrite Hc.
      destruct (Spec.sse_content record) as [|[| | |str| |]]; try discriminate.
      intros _. simpl. split; [reflexivity|].
      apply said_words_acts.
    + rewrite H. split; reflexivity.
  - rewrite H. split; reflexivity.
Qed.

(** A frame of the LineDelimitedJSON variant does not throw, and appends
    the fragment of the specification. *)
Lemma ldj_frame_yield (line : jsstring) :
  ldj_frame line = true ->
  exists o, ollama_yield line = Normal o
            /\ filter truthy_string (match o with Some t => [t] | None => [] end)
               = filter truthy_string [Spec.ldj_line line].
Proof.
  unfold ldj_frame. destruct line as [|c line]; [exists None; split; reflexivity|].
  set (l := c :: line).
  destruct (JSON.parse l) as [record|] eqn:P; [|discriminate].
  destruct record as [| | | | |ms]; try discriminate.
  unfold ollama_yield, Spec.ldj_line, Spec.ldj_fragment.
  rewrite (parse_not_blank l _ P), P. cbn [get get_opt].
  destruct (lookup (lit "message") ms) as [message|].
  - destruct message as [| | | | |mm]; try discriminate.
    cbn [truthy get get_opt].
    destruct (lookup (lit "content") mm) as [content|]; [|discriminate].
    destruct content as [| | |s| |]; try discriminate.
    intros _. exists (Some s). split; reflexivity.
  - cbn [truthy get get_opt].
    destruct (lookup (lit "response") ms) as [response|].
    + destruct response as [| | |s| |]; try discriminate.
      intros _. destruct s as [|c' s].
      * exists None. split; reflexivity.
      * exists (Some (c' :: s)). split; reflexivity.
    + intros _. exists None. split; reflexivity.
Qed.

Lemma ldj_frame_quiet (line : jsstring) :
  ldj_frame line = true -> throws line = false.
Proof.
  intros H. destruct (ldj_frame_yield line H) as [o [E _]].
  unfold throws. rewrite E. reflexivity.
Qed.

Lemma filter_concat (l : list jsstring) :
  concat (filter truthy_string l) = concat l.
Proof.
  induction l as [|x l IH]; simpl; [reflexivity|].
  destruct x; simpl; rewrite IH; reflexivity.
Qed.

Lemma filter_firstn (l : list jsstring) (k : nat) :
  exists j, filter truthy_string (firstn k l) = firstn j (filter truthy_string l).
Proof.
  revert k. induction l as [|x l IH]; intros k.
  - exists O. destruct k; reflexivity.
  - destruct k as [|k]; [exists O; reflexivity|].
    destruct (IH k) as [j Hj]. simpl.
    destruct (truthy_string x).
    + exists (S j). simpl. rewrite Hj. reflexivity.
    + exists j. exact Hj.
Qed.

Lemma firstn_filter (l : list jsstring) (j : nat) :
  exists k, firstn j (filter truthy_string l) = filter truthy_string (firstn k l).
Proof.
  revert j. induction l as [|x l IH]; intros j.
  - exists O. destruct j; reflexivity.
  - simpl. destruct (truthy_string x) eqn:E.
    + destruct j as [|j]; [exists O; reflexivity|].
      destruct (IH j) as [k Hk]. exists (S k). simpl. rewrite E, Hk.
      reflexivity.
    + destruct (IH j) as [k Hk]. exists (S k). simpl. rewrite E. exact Hk.
Qed.

(** Two lists of pieces that differ only by empty pieces have the same
    running concatenations. *)
Lemma running_same (xs ys : list jsstring) (k : nat) :
  filter truthy_string xs = filter truthy_string ys ->
  exists k', concat (firstn k xs) = concat (firstn k' ys).
Proof.
  intros H.
  destruct (filter_firstn xs k) as [j Hj].
  destruct (firstn_filter ys j) as [k' Hk'].
  exists k'.
  rewrite <- (filter_concat (firstn k xs)), Hj, H, Hk', filter_concat.
  reflexivity.
Qed.

(** Every notification of a list of actions carries the buffer after
    some of the texts said. *)
Lemma notifications_running (l : list action) (b : jsstring) :
  Forall (fun n => exists k, n = b ++ concat (firstn k (said l)))
    (notifications (effects_from b l)).
Proof.
  revert b. induction l as [|a l IH]; intros b; simpl; [constructor|].
  destruct a as [t|ms|]; simpl.
  - constructor.
    + exists 1%nat. simpl. rewrite app_nil_r. reflexivity.
    + eapply Forall_impl; [|apply (IH (b ++ t))].
      intros n [k ->]. exists (S k). simpl. rewrite app_assoc. reflexivity.
  - apply IH.
  - apply IH.
Qed.

(** The notifications of a list of actions grow by appending. *)
Lemma notifications_growing (l : list action) (b : jsstring) :
  growing b (notifications (effects_from b l)).
Proof.
  revert b. induction l as [|a l IH]; intros b; simpl; [exact I|].
  destruct a as [t|ms|]; simpl; [|apply IH|apply IH].
  split; [exists t; reflexivity|apply IH].
Qed.

Lemma take_drop_white_space (s : jsstring) :
  RegExp.take_white_space s ++ drop_white_space s = s.
Proof.
  induction s as [|c s IH]; simpl; [reflexivity|].
  destruct (is_white_space c); simpl; [rewrite IH|]; reflexivity.
Qed.

Lemma drop_white_space_length (s : jsstring) :
  (length (drop_white_space s) <= length s)%nat.
Proof.
  induction s as [|c s IH]; simpl; [lia|].
  destruct (is_white_space c); simpl; lia.
Qed.

(** The pieces of the split are the text, in order, with nothing lost. *)
Lemma split_loop_concat (fuel : nat) (T s : jsstring) :
  concat (RegExp.split_loop fuel T s) = T ++ s.
Proof.
  revert T s. induction fuel as [|f IH]; intros T s; simpl.
  - rewrite app_nil_r. reflexivity.
  - destruct s as [|c s']; [simpl; rewrite !app_nil_r; reflexivity|].
    destruct (is_white_space c) eqn:W.
    + simpl. rewrite IH. simpl.
      pose proof (take_drop_white_space (c :: s')) as H. simpl in H.
      rewrite W in H. simpl in H. rewrite W. simpl.
      injection H as H. rewrite H. reflexivity.
    + destruct (RegExp.is_punctuation c).
      * simpl. rewrite IH. reflexivity.
      * rewrite IH, <- app_assoc. reflexivity.
Qed.

Lemma split_words_concat (s : jsstring) : concat (RegExp.split_words s) = s.
Proof. apply split_loop_concat. Qed.

Lemma emitted_concat (paced : bool) (fragment : jsstring) :
  concat (Spec.emitted paced fragment) = fragment.
Proof.
  unfold Spec.emitted. destruct paced.
  - rewrite filter_concat. apply split_words_concat.
  - simpl. apply app_nil_r.
Qed.

End Agreement.

(* ================================================================== *)
(** ** C1: chunk-boundary invariance *)
(* ================================================================== *)

Section ChunkBoundaryInvariance.

Import JS JSON App Notions Examples.

(** C1, as stated, fails: the frame [{"message":{"content":"Hel"}}] and
    its newline give the buffer [Hel] in one chunk, and the raw text of
    the frame when the same bytes arrive cut after the fifth. *)
Lemma C1_counterexample :
  concat [hel] = concat [firstn 5 hel; skipn 5 hel]
  /\ snd (handleStreamResponse (mounted "ollama" "llama3") (chunks [hel]))
     = Returned (lit "Hel")
  /\ snd (handleStreamResponse (mounted "ollama" "llama3")
            (chunks [firstn 5 hel; skipn 5 hel]))
     = Returned (quoted "{'message':{'content':'Hel'}}" ++ [10]).
Proof. by_evaluation. Qed.

(** C1, amended: two slicings of the bytes of a response in which every
    chunk boundary falls after a newline, and no chunk after the first
    starts with a byte order mark, give the same result: the same final
    buffer, and the same effects. For the LineDelimitedJSON variant this
    holds of the responses none of whose lines throws. *)
Theorem C1_slicing_on_line_ends (w : world) (slicing1 slicing2 : list (list Z)) :
  concat slicing1 = concat slicing2 ->
  line_aligned slicing1 = true -> no_inner_bom slicing1 = true ->
  line_aligned slicing2 = true -> no_inner_bom slicing2 = true ->
  (apiProvider w = lit "ollama" ->
   no_line_throws (TextDecoder.decode (concat slicing1)) = true) ->
  handleStreamResponse w (chunks slicing1)
  = handleStreamResponse w (chunks slicing2).
Proof.
  intros Hcat Ha1 Hb1 Ha2 Hb2 Hq.
  assert (Hq' : str_eqb (apiProvider w) (lit "ollama") = true ->
                no_line_throws (TextDecoder.decode (concat slicing1)) = true).
  { intros H. apply Hq, str_eqb_eq, H. }
  unfold handleStreamResponse.
  rewrite !read_loop_chunks, !stream_factor.
  rewrite (aligned_stream_acts _ _ slicing1 [] Ha1 Hb1 Hq').
  rewrite Hcat in Hq'.
  rewrite (aligned_stream_acts _ _ slicing2 [] Ha2 Hb2 Hq').
  rewrite Hcat. reflexivity.
Qed.

Lemma C1_slicing_on_line_ends_witness :
  handleStreamResponse (mounted "ollama" "llama3") (chunks [hel ++ lo])
  = handleStreamResponse (mounted "ollama" "llama3") (chunks [hel; lo]).
Proof.
  apply C1_slicing_on_line_ends.
  - vm_compute. reflexivity.
  - reflexivity.
  - reflexivity.
  - reflexivity.
  - vm_compute. reflexivity.
  - intros _. vm_compute. reflexivity.
Defined.

(** The side conditions of C1 are needed. A byte order mark at the start
    of an inner chunk is stripped there and kept inside a longer chunk,
    where it hides the [data: ] prefix of its line. *)
Example inner_bom_matters :
  line_aligned [frame_A ++ [239; 187; 191] ++ frame_A] = true
  /\ line_aligned [frame_A; [239; 187; 191] ++ frame_A] = true
  /\ snd (handleStreamResponse (mounted "openrouter" "gpt-4o")
            (chunks [frame_A ++ [239; 187; 191] ++ frame_A]))
     = Returned (lit "A")
  /\ snd (handleStreamResponse (mounted "openrouter" "gpt-4o")
            (chunks [frame_A; [239; 187; 191] ++ frame_A]))
     = Returned (lit "AA").
Proof. by_evaluation. Qed.

(** A line that throws makes the LineDelimitedJSON variant append its
    whole chunk, so the result depends on the chunk the line is in. *)
Example throwing_line_matters :
  snd (handleStreamResponse (mounted "ollama" "llama3")
         (chunks [line "oops" ++ line "{'response':'B'}"]))
  = Returned (line "oops" ++ line "{'response':'B'}")
  /\ snd (handleStreamResponse (mounted "ollama" "llama3")
            (chunks [line "oops"; line "{'response':'B'}"]))
     = Returned (line "oops" ++ lit "B").
Proof. by_evaluation. Qed.

End ChunkBoundaryInvariance.

(* ================================================================== *)
(** ** C2: the buffer and the fragments extracted so far *)
(* ================================================================== *)

Section BufferInvariant.
Import JS JSON App Notions Examples.

Lemma filter_truthy_app (l1 l2 : list jsstring) :
  filter truthy_string (l1 ++ l2)
  = filter truthy_string l1 ++ filter truthy_string l2.
Proof. apply filter_app. Qed.

Lemma sse_lines_agree (g : bool) (lines : list jsstring) :
  (g = true -> forallb sse_text_only lines = true) ->
  snd (sse_lines_acts g [] lines) = []
  /\ filter truthy_string (said (fst (sse_lines_acts g [] lines)))
     = filter truthy_string
         (flat_map (Spec.emitted g) (map Spec.sse_line lines)).
Proof.
  induction lines as [|line rest IH]; intros H; [split; reflexivity|].
  assert (Hrest : g = true -> forallb sse_text_only rest = true).
  { intros Hg. specialize (H Hg). simpl in H.
    apply andb_true_iff in H. tauto. }
  destruct (IH Hrest) as [IH1 IH2].
  assert (Hline : snd (sse_line_acts g [] line) = []
                  /\ filter truthy_string (said (fst (sse_line_acts g [] line)))
                     = filter truthy_string (Spec.emitted g (Spec.sse_line line))).
  { destruct g.
    - specialize (H eq_refl). simpl in H. apply andb_true_iff in H.
      destruct (sse_line_acts_paced line (proj1 H)) as [E1 E2].
      rewrite E1, E2. split; reflexivity.
    - apply sse_line_acts_immediate. }
  destruct Hline as [L1 L2].
  simpl sse_lines_acts.
  destruct (sse_line_acts g [] line) as [a wb']. simpl in L1, L2. subst wb'.
  destruct (sse_lines_acts g [] rest) as [a' wb'']. simpl in IH1, IH2.
  simpl. split; [exact IH1|].
  rewrite said_app, !filter_truthy_app, L2, IH2. reflexivity.
Qed.

Lemma ldj_lines_agree (lines : list jsstring) :
  forallb ldj_frame lines = true ->
  quiet lines = true
  /\ filter truthy_string (lines_said lines)
     = filter truthy_string (map Spec.ldj_line lines).
Proof.
  induction lines as [|line rest IH]; intros H; [split; reflexivity|].
  simpl in H. apply andb_true_iff in H. destruct H as [H1 H2].
  destruct (IH H2) as [IH1 IH2].
  destruct (ldj_frame_yield line H1) as [o [E1 E2]].
  split.
  - simpl. rewrite (ldj_frame_quiet line H1), IH1. reflexivity.
  - unfold lines_said. simpl. rewrite E1.
    change (flat_map _ rest) with (lines_said rest).
    rewrite filter_truthy_app, E2, IH2. simpl.
    destruct (truthy_string (Spec.ldj_line line)); reflexivity.
Qed.

Lemma flat_map_singleton {A} (l : list A) : flat_map (fun x => [x]) l = l.
Proof. induction l as [|x l IH]; simpl; [|rewrite IH]; reflexivity. Qed.

Lemma said_say (ts : list jsstring) : said (map Say ts) = ts.
Proof. induction ts as [|t ts IH]; simpl; [|rewrite IH]; reflexivity. Qed.

(** On a text of well-formed lines, a chunk appends what the
    specification's extractor gives for its lines. *)
Lemma text_acts_agree (p : jsstring) (g : bool) (text : jsstring) :
  well_formed p g text = true ->
  snd (text_acts p g [] text) = []
  /\ filter truthy_string (said (fst (text_acts p g [] text)))
     = filter truthy_string
         (flat_map (Spec.emitted (paced p g))
            (map (Spec.line_text p) (split 10 text))).
Proof.
  unfold well_formed, text_acts, paced, Spec.line_text.
  destruct (str_eqb p (lit "ollama")); intros H.
  - destruct (ldj_lines_agree _ H) as [Hq Hs].
    rewrite andb_false_r. simpl. split; [reflexivity|].
    rewrite said_say, (ollama_chunk_said_quiet text Hq).
    unfold Spec.emitted. rewrite flat_map_singleton. exact Hs.
  - rewrite andb_true_r. simpl negb. apply sse_lines_agree.
    intros ->. exact H.
Qed.

Lemma ends_on_lines_aligned (slicing : list (list Z)) :
  ends_on_lines slicing = true -> line_aligned slicing = true.
Proof.
  induction slicing as [|c rest IH]; [reflexivity|].
  unfold ends_on_lines. simpl. intros H.
  apply andb_true_iff in H. destruct H as [H1 H2].
  destruct rest; [reflexivity|]. rewrite H1. apply IH, H2.
Qed.

(** The bytes of a slicing whose chunks end on line ends are empty or end
    with a newline. *)
Lemma ends_on_lines_concat (slicing : list (list Z)) :
  ends_on_lines slicing = true ->
  concat slicing = [] \/ exists x, concat slicing = x ++ [10].
Proof.
  induction slicing as [|c rest IH]; [left; reflexivity|].
  unfold ends_on_lines. simpl. intros H.
  apply andb_true_iff in H. destruct H as [H1 H2]. right.
  destruct (ends_with_newline_snoc c H1) as [y ->].
  destruct (IH H2) as [E|[x E]]; rewrite E.
  - exists y. rewrite app_nil_r. reflexivity.
  - exists ((y ++ [10]) ++ x). rewrite app_assoc. reflexivity.
Qed.

(** The lines of such a text: its complete lines, and an empty rest. *)
Lemma ends_on_lines_split (slicing : list (list Z)) :
  ends_on_lines slicing = true ->
  split 10 (TextDecoder.decode (concat slicing))
  = removelast (split 10 (TextDecoder.decode (concat slicing))) ++ [[]].
Proof.
  intros H. destruct (ends_on_lines_concat slicing H) as [E|[x E]]; rewrite E.
  - reflexivity.
  - destruct (decode_snoc_newline x) as [t ->].
    rewrite split_snoc_sep, removelast_last. reflexivity.
Qed.

Lemma line_text_nil (p : jsstring) : Spec.line_text p [] = [].
Proof. unfold Spec.line_text. destruct (str_eqb p (lit "ollama")); reflexivity. Qed.

Lemma emitted_nil (b : bool) : filter truthy_string (Spec.emitted b []) = [].
Proof. destruct b; reflexivity. Qed.

Lemma concat_flat_map_emitted (b : bool) (l : list jsstring) :
  concat (flat_map (Spec.emitted b) l) = concat l.
Proof.
  induction l as [|x l IH]; simpl; [reflexivity|].
  rewrite concat_app, emitted_concat, IH. reflexivity.
Qed.

(** What a slicing on line ends of a well-formed response says. *)
Lemma aligned_said (p : jsstring) (g : bool) (slicing : list (list Z)) :
  ends_on_lines slicing = true ->
  no_inner_bom slicing = true ->
  well_formed p g (TextDecoder.decode (concat slicing)) = true ->
  filter truthy_string (said (fst (stream_acts p g [] slicing)))
  = filter truthy_string
      (flat_map (Spec.emitted (paced p g))
         (Spec.fragments p (TextDecoder.decode (concat slicing)))).
Proof.
  intros Hends Hbom Hwf.
  rewrite (aligned_stream_acts p g slicing [] (ends_on_lines_aligned _ Hends) Hbom).
  - destruct (text_acts_agree p g _ Hwf) as [_ ->].
    unfold Spec.fragments. rewrite (ends_on_lines_split slicing Hends) at 1.
    rewrite map_app, flat_map_app, filter_truthy_app. simpl.
    rewrite line_text_nil, app_nil_r, emitted_nil, app_nil_r. reflexivity.
  - intros Hp. unfold well_formed in Hwf. rewrite Hp in Hwf.
    apply (ldj_lines_agree _ Hwf).
Qed.

(** C2, as stated, fails: a ServerSentEvents frame whose bytes arrive in
    two chunks is lost, and the buffer stays empty where the fragment of
    the frame is [A]. *)
Lemma C2_counterexample :
  streamBufferRef
    (fst (after_chunks (mounted "openrouter" "gpt-4o")
            [firstn 20 frame_A; skipn 20 frame_A]))
  = []
  /\ concat (Spec.fragments (lit "openrouter")
               (TextDecoder.decode
                  (concat [firstn 20 frame_A; skipn 20 frame_A])))
     = lit "A".
Proof. by_evaluation. Qed.

(** C2, amended: when every chunk ends on a line end (and none after the
    first starts with a byte order mark) and the lines of the response
    are well-formed frames, then after any number of chunks the buffer is
    what it was before the session followed by the fragments of all the
    lines received, in order; every value the observer was notified with
    is that start followed by the first pieces of these fragments, for
    some number of pieces (the fragments themselves, or their sub-tokens
    when the delivery is paced); and each notified value is the one
    before it with some text appended. *)
Theorem C2_buffer_is_the_fragments_so_far (w : world) (slicing : list (list Z)) :
  ends_on_lines slicing = true ->
  no_inner_bom slicing = true ->
  well_formed (apiProvider w) (isGeminiModel w)
    (TextDecoder.decode (concat slicing)) = true ->
  streamBufferRef (fst (after_chunks w slicing))
  = streamBufferRef w
      ++ concat (Spec.fragments (apiProvider w)
                   (TextDecoder.decode (concat slicing)))
  /\ exists new,
       trace (fst (after_chunks w slicing)) = trace w ++ new
       /\ Forall
            (fun b =>
               exists k,
                 b = streamBufferRef w
                       ++ concat
                            (firstn k
                               (flat_map
                                  (Spec.emitted
                                     (paced (apiProvider w) (isGeminiModel w)))
                                  (Spec.fragments (apiProvider w)
                                     (TextDecoder.decode (concat slicing))))))
            (notifications new)
       /\ growing (streamBufferRef w) (notifications new).
Proof.
  intros Hends Hbom Hwf.
  pose proof (aligned_said _ _ slicing Hends Hbom Hwf) as Hsaid.
  unfold after_chunks. rewrite stream_factor. simpl fst.
  set (A := fst (stream_acts (apiProvider w) (isGeminiModel w) [] slicing)) in *.
  split.
  - rewrite buffer_acts. simpl streamBufferRef. f_equal.
    rewrite <- (filter_concat (said A)), Hsaid, filter_concat.
    apply concat_flat_map_emitted.
  - exists (GetReader :: effects_from (streamBufferRef w) A). split.
    + rewrite trace_acts. simpl. rewrite <- app_assoc. reflexivity.
    + split; [|apply notifications_growing].
      simpl. eapply Forall_impl; [|apply notifications_running].
      intros b [k ->].
      destruct (running_same _ _ k Hsaid) as [k' ->].
      exists k'. reflexivity.
Qed.

Lemma C2_buffer_is_the_fragments_so_far_witness :
  streamBufferRef (fst (after_chunks (mounted "ollama" "llama3") [hel; lo]))
  = streamBufferRef (mounted "ollama" "llama3")
      ++ concat (Spec.fragments (lit "ollama")
                   (TextDecoder.decode (concat [hel; lo]))).
Proof.
  apply (C2_buffer_is_the_fragments_so_far (mounted "ollama" "llama3") [hel; lo]);
    vm_compute; reflexivity.
Defined.

(** The lines must be well-formed frames. With a paced delivery, a
    content that is not a string is not appended when its line is
    processed: it waits in [wordBuffer] for the end of the stream. *)
Example paced_number_waits :
  streamBufferRef
    (fst (after_chunks (mounted "openrouter" "google/gemini-pro")
            [line "data: {'choices':[{'delta':{'content':5}}]}"]))
  = []
  /\ concat (Spec.fragments (lit "openrouter")
               (TextDecoder.decode
                  (line "data: {'choices':[{'delta':{'content':5}}]}")))
     = lit "5"
  /\ snd (handleStreamResponse (mounted "openrouter" "google/gemini-pro")
            (chunks [line "data: {'choices':[{'delta':{'content':5}}]}"]))
     = Returned (lit "5").
Proof. by_evaluation. Qed.

(** A LineDelimitedJSON record whose [message] has no [content] appends
    the text [undefined], where the specification has no fragment. *)
Example role_frame_appends_undefined :
  streamBufferRef
    (fst (after_chunks (mounted "ollama" "llama3")
            [line "{'message':{'role':'assistant'}}"]))
  = lit "undefined"
  /\ concat (Spec.fragments (lit "ollama")
               (TextDecoder.decode (line "{'message':{'role':'assistant'}}")))
     = [].
Proof. by_evaluation. Qed.

End BufferInvariant.

(* ================================================================== *)
(** ** C3 and C4: the lines of a LineDelimitedJSON chunk *)
(* ================================================================== *)

Section LineDelimitedJSON.

Import JS JSON App Notions Examples.

Lemma ollama_lines_app (l1 l2 : list jsstring) (w : world) :
  ollama_lines w (l1 ++ l2) =
  match ollama_lines w l1 with
  | (w', Completed) => ollama_lines w' l2
  | (w', Thrown) => (w', Thrown)
  end.
Proof.
  revert w. induction l1 as [|line l1 IH]; intros w; simpl; [reflexivity|].
  destruct (ollama_line w line) as [w' [|]]; [apply IH|reflexivity].
Qed.

(** A line that is not blank and does not parse throws, and leaves the
    world as it was. *)
Lemma ollama_line_unparsable (w : world) (line : jsstring) :
  blank line = false -> JSON.parse line = None ->
  ollama_line w line = (w, Thrown).
Proof. intros B P. unfold ollama_line. rewrite B, P. reflexivity. Qed.

(** The chunk of a line that does not parse: the lines before it are
    processed, then the text of the whole chunk is appended; the lines
    after it are not looked at. *)
Lemma ollama_chunk_unparsable (w w1 : world) (chunk : jsstring)
  (before after : list jsstring) (line : jsstring) :
  split 10 chunk = before ++ line :: after ->
  ollama_lines w before = (w1, Completed) ->
  blank line = false -> JSON.parse line = None ->
  ollama_chunk w chunk = emit w1 chunk.
Proof.
  intros S L B P. unfold ollama_chunk.
  rewrite S, ollama_lines_app, L. simpl.
  rewrite (ollama_line_unparsable w1 line B P). reflexivity.
Qed.

(** C3, as stated, fails: the specification's assembler retains the
    incomplete line and gives the buffer [ab]; the component appends the
    raw text of both chunks after the [a] of the first frame. *)
Lemma C3_counterexample :
  Spec.pendingFragment
    (Spec.ldj_chunk (Spec.mkAssembler [] [])
       (TextDecoder.decode (firstn 24 two_frames)))
  = quoted "{'respo"
  /\ Spec.buffer
       (fold_left Spec.ldj_chunk
          [TextDecoder.decode (firstn 24 two_frames);
           TextDecoder.decode (skipn 24 two_frames)]
          (Spec.mkAssembler [] []))
     = lit "ab"
  /\ streamBufferRef
       (fst (after_chunks (mounted "ollama" "llama3")
               [firstn 24 two_frames; skipn 24 two_frames]))
     = lit "a" ++ two_frames.
Proof. by_evaluation. Qed.

(** C3, amended: every line of a chunk, the last included, is parsed in
    the chunk it arrived in, and nothing is retained for the next chunk.
    When the chunk does not end on a newline and its last line does not
    parse, the text of the whole chunk is appended to the buffer, after
    what the lines before it appended; [wordBuffer] is left as it was, and
    the next chunk is split and processed on its own. *)
Theorem C3_last_line_is_not_retained (g : bool) (w w1 : world) (wb : jsstring)
  (value : list Z) (earlier : list jsstring) (last_line : jsstring) :
  split 10 (TextDecoder.decode value) = earlier ++ [last_line] ->
  ollama_lines w earlier = (w1, Completed) ->
  blank last_line = false -> JSON.parse last_line = None ->
  on_chunk (lit "ollama") g (w, wb) value
  = (emit w1 (TextDecoder.decode value), wb)
  /\ forall next : list Z,
       on_chunk (lit "ollama") g (on_chunk (lit "ollama") g (w, wb) value) next
       = (ollama_chunk (emit w1 (TextDecoder.decode value))
            (TextDecoder.decode next), wb).
Proof.
  intros S L B P.
  assert (E : on_chunk (lit "ollama") g (w, wb) value
              = (emit w1 (TextDecoder.decode value), wb)).
  { unfold on_chunk, on_text. simpl fst. simpl snd.
    rewrite (ollama_chunk_unparsable w w1 _ earlier [] last_line S L B P).
    reflexivity. }
  split; [exact E|]. intros next. rewrite E. reflexivity.
Qed.

Lemma C3_last_line_is_not_retained_witness :
  on_chunk (lit "ollama") false (mounted "ollama" "llama3", [])
    (firstn 24 two_frames)
  = (emit (emit (mounted "ollama" "llama3") (lit "a"))
       (TextDecoder.decode (firstn 24 two_frames)), []).
Proof.
  apply (C3_last_line_is_not_retained false (mounted "ollama" "llama3")
           (emit (mounted "ollama" "llama3") (lit "a")) []
           (firstn 24 two_frames) [quoted "{'response':'a'}"]
           (quoted "{'respo"));
    vm_compute; reflexivity.
Defined.

(** C4, as stated, fails: with the line's raw text and the fragment of
    the next line the buffer would be [oopsB]; the component appends the
    text of the whole chunk, and the frame after the line is not
    processed. *)
Lemma C4_counterexample :
  Spec.ldj_lines [] (split 10 (TextDecoder.decode oops_then_B)) = lit "oopsB"
  /\ streamBufferRef
       (fst (after_chunks (mounted "ollama" "llama3") [oops_then_B]))
     = lit "oops" ++ [10] ++ quoted "{'response':'B'}" ++ [10]
  /\ snd (handleStreamResponse (mounted "ollama" "llama3")
            (chunks [oops_then_B]))
     = Returned (lit "oops" ++ [10] ++ quoted "{'response':'B'}" ++ [10]).
Proof. by_evaluation. Qed.

(** C4, amended: a line that fails to parse as JSON is not fatal to the
    session: the fragments of the lines before it in the chunk stay in
    the buffer, the text of the whole chunk (not of the line alone) is
    appended verbatim, the lines after it in the chunk are not
    processed, and the loop goes on with the next read. *)
Theorem C4_unparsable_line_appends_the_chunk (g : bool) (w w1 : world)
  (wb : jsstring) (value : list Z) (before after : list jsstring)
  (line : jsstring) (rest : list read_result) :
  split 10 (TextDecoder.decode value) = before ++ line :: after ->
  ollama_lines w before = (w1, Completed) ->
  blank line = false -> JSON.parse line = None ->
  streamBufferRef (fst (on_chunk (lit "ollama") g (w, wb) value))
  = streamBufferRef w1 ++ TextDecoder.decode value
  /\ read_loop (lit "ollama") g (w, wb) (Chunk value :: rest)
     = read_loop (lit "ollama") g (emit w1 (TextDecoder.decode value), wb) rest.
Proof.
  intros S L B P.
  assert (E : on_chunk (lit "ollama") g (w, wb) value
              = (emit w1 (TextDecoder.decode value), wb)).
  { unfold on_chunk, on_text. simpl fst. simpl snd.
    rewrite (ollama_chunk_unparsable w w1 _ before after line S L B P).
    reflexivity. }
  split.
  - rewrite E. reflexivity.
  - simpl. rewrite E. reflexivity.
Qed.

Lemma C4_unparsable_line_appends_the_chunk_witness :
  streamBufferRef
    (fst (on_chunk (lit "ollama") false (mounted "ollama" "llama3", [])
            oops_then_B))
  = streamBufferRef (mounted "ollama" "llama3") ++ TextDecoder.decode oops_then_B.
Proof.
  apply (C4_unparsable_line_appends_the_chunk false (mounted "ollama" "llama3")
           (mounted "ollama" "llama3") [] oops_then_B []
           [quoted "{'response':'B'}"; []] (lit "oops") []);
    vm_compute; reflexivity.
Defined.

End LineDelimitedJSON.

(* ================================================================== *)
(** ** C5: paced emission *)
(* ================================================================== *)

Section PacedEmission.

Import JS JSON App Notions Examples.
Import Spec (kind(..), kind_of, white_space, punctuation, sub_token,
             same_run, whole, sub_tokens).

Lemma existsb_eqb_In (c : code_unit) (l : list code_unit) :
  existsb (Z.eqb c) l = true <-> In c l.
Proof.
  rewrite existsb_exists. split.
  - intros [x [H E]]. apply Z.eqb_eq in E. subst. exact H.
  - intros H. exists c. split; [exact H|apply Z.eqb_refl].
Qed.

Lemma is_white_space_listed (c : code_unit) :
  is_white_space c = existsb (Z.eqb c) white_space.
Proof.
  apply eq_true_iff_eq. rewrite existsb_eqb_In.
  unfold is_white_space, white_space.
  rewrite !orb_true_iff, !andb_true_iff, !Z.leb_le, !Z.eqb_eq.
  cbn [In]. lia.
Qed.

Lemma is_punctuation_listed (c : code_unit) :
  RegExp.is_punctuation c = existsb (Z.eqb c) punctuation.
Proof.
  unfold RegExp.is_punctuation, punctuation. cbn [existsb].
  rewrite orb_false_r, !orb_assoc. reflexivity.
Qed.

Lemma kind_of_space (c : code_unit) :
  kind_of c = Space <-> is_white_space c = true.
Proof.
  unfold kind_of. rewrite <- is_white_space_listed, <- is_punctuation_listed.
  destruct (is_white_space c), (RegExp.is_punctuation c);
    split; congruence.
Qed.

Lemma kind_of_mark (c : code_unit) :
  kind_of c = Mark
  <-> is_white_space c = false /\ RegExp.is_punctuation c = true.
Proof.
  unfold kind_of. rewrite <- is_white_space_listed, <- is_punctuation_listed.
  destruct (is_white_space c), (RegExp.is_punctuation c);
    (split; [intros H; try discriminate H; split; reflexivity
            |intros [? ?]; congruence]).
Qed.

Lemma kind_of_letter (c : code_unit) :
  kind_of c = Letter
  <-> is_white_space c = false /\ RegExp.is_punctuation c = false.
Proof.
  unfold kind_of. rewrite <- is_white_space_listed, <- is_punctuation_listed.
  destruct (is_white_space c), (RegExp.is_punctuation c);
    (split; [intros H; try discriminate H; split; reflexivity
            |intros [? ?]; congruence]).
Qed.

Lemma whole_cons (a : jsstring) (ts : list jsstring) :
  (forall b rest, ts = b :: rest -> ~ same_run a b) ->
  whole ts -> whole (a :: ts).
Proof.
  intros H W. destruct ts as [|b rest]; [exact I|].
  split; [exact (H b rest eq_refl)|exact W].
Qed.

Lemma take_white_space_kind (s : jsstring) :
  Forall (fun c => kind_of c = Space) (RegExp.take_white_space s).
Proof.
  induction s as [|c s IH]; simpl; [constructor|].
  destruct (is_white_space c) eqn:E; constructor; [|exact IH].
  apply kind_of_space. exact E.
Qed.

Lemma last_kind (k : kind) (t : jsstring) :
  t <> [] -> Forall (fun c => kind_of c = k) t -> kind_of (last t 0) = k.
Proof.
  intros N F. destruct (exists_last N) as [t' [c ->]].
  rewrite last_last. apply Forall_app in F. destruct F as [_ F].
  inversion F. assumption.
Qed.

(** The tokens of the splitter from the text [T] gathered so far and the
    text [s] to scan. *)
Lemma split_loop_tokens (fuel : nat) (T s : jsstring) :
  (length s <= fuel)%nat ->
  Forall (fun c => kind_of c = Letter) T ->
  Forall sub_token (filter truthy_string (RegExp.split_loop fuel T s))
  /\ whole (filter truthy_string (RegExp.split_loop fuel T s))
  /\ (forall c r, T ++ s = c :: r ->
      exists t rest,
        filter truthy_string (RegExp.split_loop fuel T s) = (c :: t) :: rest).
Proof.
  revert T s. induction fuel as [|f IH]; intros T s Hlen HT.
  - destruct s; [|simpl in Hlen; lia]. simpl. rewrite app_nil_r.
    destruct T as [|c T]; simpl.
    + split; [constructor|split; [exact I|intros ? ? E; discriminate E]].
    + split; [|split; [exact I|]].
      * constructor; [|constructor]. split; [discriminate|]. right. right.
        exact HT.
      * intros c' r E. injection E as <- <-. eauto.
  - destruct s as [|c s'].
    + simpl. rewrite app_nil_r. destruct T as [|c T]; simpl.
      * split; [constructor|split; [exact I|intros ? ? E; discriminate E]].
      * split; [|split; [exact I|]].
        -- constructor; [|constructor]. split; [discriminate|]. right. right.
           exact HT.
        -- intros c' r E. injection E as <- <-. eauto.
    + simpl in Hlen. cbn [RegExp.split_loop].
      destruct (is_white_space c) eqn:W.
      * assert (Hd : (length (drop_white_space (c :: s')) <= f)%nat).
        { pose proof (drop_white_space_length (c :: s')) as L.
          simpl in L |- *. rewrite W in L |- *.
          pose proof (drop_white_space_length s'). lia. }
        destruct (IH [] (drop_white_space (c :: s')) Hd (Forall_nil _))
          as (F & Wh & Hh).
        set (rest := filter truthy_string
                       (RegExp.split_loop f [] (drop_white_space (c :: s'))))
          in *.
        assert (Hrun : RegExp.take_white_space (c :: s')
                       = c :: RegExp.take_white_space s')
          by (simpl; rewrite W; reflexivity).
        assert (Wrun : whole (RegExp.take_white_space (c :: s') :: rest)).
        { apply whole_cons; [|exact Wh].
          intros b rest' E [K _].
          rewrite (last_kind Space) in K;
            [|rewrite Hrun; discriminate|apply take_white_space_kind].
          pose proof (drop_white_space_head (c :: s')) as D.
          destruct (drop_white_space (c :: s')) as [|d r] eqn:Ed.
          - subst rest. destruct f; simpl in E; discriminate.
          - destruct (Hh d r eq_refl) as [t [rest'' E']].
            rewrite E' in E. injection E as <- <-. simpl in K.
            symmetry in K. apply kind_of_space in K. congruence. }
        assert (Frun : Forall sub_token
                         (RegExp.take_white_space (c :: s') :: rest)).
        { constructor; [|exact F]. split; [rewrite Hrun; discriminate|].
          left. apply take_white_space_kind. }
        assert (Ht : truthy_string (RegExp.take_white_space (c :: s')) = true)
          by (rewrite Hrun; reflexivity).
        cbn [filter]. rewrite Ht. fold rest.
        destruct T as [|c0 T]; cbn [truthy_string].
        -- split; [exact Frun|split; [exact Wrun|]].
           intros c' r E. simpl in E. injection E as <- <-.
           rewrite Hrun. eauto.
        -- split; [|split].
           ++ constructor; [|exact Frun]. split; [discriminate|].
              right. right. exact HT.
           ++ apply whole_cons; [|exact Wrun].
              intros b rest' E [K _]. injection E as <- <-.
              rewrite (last_kind Letter) in K; [|discriminate|exact HT].
              rewrite W in K. simpl in K. symmetry in K.
              apply kind_of_space in W. congruence.
           ++ intros c' r E. injection E as <- <-. eauto.
      * destruct (RegExp.is_punctuation c) eqn:P.
        -- assert (Hs : (length s' <= f)%nat) by lia.
           destruct (IH [] s' Hs (Forall_nil _)) as (F & Wh & Hh).
           set (rest := filter truthy_string (RegExp.split_loop f [] s')) in *.
           assert (K : kind_of c = Mark) by (apply kind_of_mark; auto).
           assert (Wm : whole ([c] :: rest)).
           { apply whole_cons; [|exact Wh].
             intros b rest' E [K1 K2]. simpl in K1. congruence. }
           assert (Fm : Forall sub_token ([c] :: rest)).
           { constructor; [|exact F]. split; [discriminate|].
             right. left. eauto. }
           cbn [filter truthy_string]. fold rest.
           destruct T as [|c0 T]; cbn [truthy_string].
           ++ split; [exact Fm|split; [exact Wm|]].
              intros c' r E. simpl in E. injection E as <- <-. eauto.
           ++ split; [|split].
              ** constructor; [|exact Fm]. split; [discriminate|].
                 right. right. exact HT.
              ** apply whole_cons; [|exact Wm].
                 intros b rest' E [K1 K2]. injection E as <- <-.
                 simpl in K2. congruence.
              ** intros c' r E. injection E as <- <-. eauto.
        -- assert (Hs : (length s' <= f)%nat) by lia.
           assert (HT' : Forall (fun c => kind_of c = Letter) (T ++ [c])).
           { apply Forall_app. split; [exact HT|].
             constructor; [apply kind_of_letter; auto|constructor]. }
           destruct (IH (T ++ [c]) s' Hs HT') as (F & Wh & Hh).
           split; [exact F|split; [exact Wh|]].
           intros c' r E. apply Hh with (r := r).
           rewrite <- app_assoc. exact E.
Qed.

Lemma split_words_sub_tokens (text : jsstring) :
  sub_tokens text (filter truthy_string (RegExp.split_words text)).
Proof.
  destruct (split_loop_tokens (length text) [] text (le_n _) (Forall_nil _))
    as (F & W & _).
  split; [rewrite filter_concat; apply split_words_concat|].
  split; assumption.
Qed.

(** A sub-token is of one kind, and a mark is a single character. *)
Lemma sub_token_kind (t : jsstring) :
  sub_token t ->
  exists k, Forall (fun c => kind_of c = k) t
            /\ (k = Mark -> exists c, t = [c]).
Proof.
  intros [_ [H | [[c [-> K]] | H]]].
  - exists Space. split; [exact H|discriminate].
  - exists Mark. split; [constructor; [exact K|constructor]|eauto].
  - exists Letter. split; [exact H|discriminate].
Qed.

(** A sub-token does not go on into the sub-token that follows a shorter
    one. *)
Lemma sub_token_ends (a b d : jsstring) (r : list jsstring) (x : jsstring) :
  sub_token a -> sub_token b -> Forall sub_token r -> whole (a :: r) ->
  b = a ++ d -> concat r = d ++ x -> d = [].
Proof.
  intros Ha Hb Hr Hw Eb Er.
  destruct d as [|y d]; [reflexivity|exfalso].
  destruct r as [|a' r]; [discriminate Er|].
  destruct Hw as [Hw _]. inversion Hr as [|? ? Ha' _]; subst.
  destruct Ha' as [Na' _]. destruct a' as [|y' a']; [congruence|].
  simpl in Er. injection Er as -> _.
  destruct Ha as [Na _].
  destruct (sub_token_kind _ Hb) as [k [Fk Mk]].
  apply Forall_app in Fk. destruct Fk as [Fa Fd].
  inversion Fd as [|? ? Ky _]; subst.
  apply Hw. split.
  - rewrite (last_kind (kind_of y) a Na Fa). reflexivity.
  - simpl. intros K. destruct (Mk K) as [c E].
    destruct a as [|c0 a]; [congruence|].
    destruct a; discriminate E.
Qed.

Lemma whole_tail (a : jsstring) (ts : list jsstring) :
  whole (a :: ts) -> whole ts.
Proof. destruct ts; [intros; exact I|intros [_ H]; exact H]. Qed.

(** A text has at most one list of sub-tokens. *)
Lemma sub_tokens_unique (text : jsstring) (ts1 ts2 : list jsstring) :
  sub_tokens text ts1 -> sub_tokens text ts2 -> ts1 = ts2.
Proof.
  intros (E1 & F1 & W1) (E2 & F2 & W2). subst text.
  revert ts2 E2 F2 W2.
  induction ts1 as [|a r1 IH]; intros ts2 E2 F2 W2.
  - destruct ts2 as [|b r2]; [reflexivity|].
    inversion F2 as [|? ? [Nb _] _]; subst.
    destruct b; [congruence|discriminate E2].
  - inversion F1 as [|? ? Ha Fr1]; subst.
    destruct ts2 as [|b r2].
    { destruct Ha as [Na _]. destruct a; [congruence|discriminate E2]. }
    inversion F2 as [|? ? Hb Fr2]; subst.
    simpl in E2. symmetry in E2.
    assert (Eab : a = b).
    { destruct (app_eq_app _ _ _ _ E2) as [d [[Ea Er] | [Eb Er]]].
      - rewrite (sub_token_ends b a d r2 (concat r1) Hb Ha Fr2 W2 Ea Er) in Ea.
        rewrite app_nil_r in Ea. exact Ea.
      - rewrite (sub_token_ends a b d r1 (concat r2) Ha Hb Fr1 W1 Eb Er) in Eb.
        rewrite app_nil_r in Eb. symmetry. exact Eb. }
    subst b. apply app_inv_head in E2. f_equal.
    apply IH; [exact Fr1|exact (whole_tail _ _ W1)|symmetry; exact E2
              |exact Fr2|exact (whole_tail _ _ W2)].
Qed.

Lemma effects_from_words (ws : list jsstring) (b : jsstring) :
  effects_from b (words_acts ws) = paced_effects b (filter truthy_string ws).
Proof.
  revert b. induction ws as [|word rest IH]; intros b; simpl; [reflexivity|].
  unfold words_acts in *. simpl.
  destruct (truthy_string word); simpl; rewrite IH; reflexivity.
Qed.

Lemma startsWith_data_not_blank (line : jsstring) :
  startsWith (lit "data: ") line = true -> blank line = false.
Proof.
  destruct line as [|c line]; [discriminate|]. intros H.
  change (((100 =? c) && startsWith (lit "ata: ") line) = true) in H.
  apply andb_true_iff in H. destruct H as [H _]. apply Z.eqb_eq in H.
  subst c. apply blank_cons. reflexivity.
Qed.

(** The paced emission of a content string. *)
Lemma sse_line_paced (w : world) (wb line : jsstring) (record : json)
  (text : jsstring) :
  startsWith (lit "data: ") line = true ->
  includes (lit "[DONE]") line = false ->
  JSON.parse (slice 6 line) = Some record ->
  delta_content record = Normal (Value (JString text)) ->
  text <> [] ->
  sse_line true (w, wb) line
  = (acts w (words_acts (RegExp.split_words text)), []).
Proof.
  intros Hd Hs Hp Hc Ht.
  rewrite sse_line_factor. unfold sse_line_acts, data_line_acts.
  rewrite (startsWith_data_not_blank line Hd), Hs, Hd, Hp, Hc.
  destruct text as [|c text]; [congruence|]. reflexivity.
Qed.

(** C5: for a gemini model, the content string of a record is split into
    its sub-tokens: the whole runs of white space, the single punctuation
    marks (a full stop, a comma, an exclamation or a question mark) and
    the whole words between them, which together are the content; no
    other list of sub-tokens makes the content with its runs and words
    whole. Each sub-token is appended to the buffer in order, after a
    delay of 30 ms, and the observer is notified, so the buffer grows by
    exactly the content; the holding buffer is empty afterwards, and the
    flush at the end of the stream adds nothing. *)
Theorem C5_paced_emission (w : world) (wb line : jsstring) (record : json)
  (text : jsstring) :
  startsWith (lit "data: ") line = true ->
  includes (lit "[DONE]") line = false ->
  JSON.parse (slice 6 line) = Some record ->
  delta_content record = Normal (Value (JString text)) ->
  text <> [] ->
  exists w',
    sse_line true (w, wb) line = (w', [])
    /\ trace w'
       = trace w
           ++ paced_effects (streamBufferRef w)
                (filter truthy_string (RegExp.split_words text))
    /\ Spec.sub_tokens text (filter truthy_string (RegExp.split_words text))
    /\ (forall ts,
          Spec.sub_tokens text ts ->
          ts = filter truthy_string (RegExp.split_words text))
    /\ streamBufferRef w' = streamBufferRef w ++ text
    /\ flush (w', []) = w'.
Proof.
  intros Hd Hs Hp Hc Ht.
  exists (acts w (words_acts (RegExp.split_words text))).
  split; [apply (sse_line_paced w wb line record text); assumption|].
  split; [rewrite trace_acts, effects_from_words; reflexivity|].
  split; [apply split_words_sub_tokens|].
  split.
  { intros ts H.
    exact (sub_tokens_unique text _ _ H (split_words_sub_tokens text)). }
  split; [|reflexivity].
  rewrite buffer_acts, said_words_acts, filter_concat, split_words_concat.
  reflexivity.
Qed.

Lemma C5_paced_emission_witness :
  exists w',
    sse_line true (mounted "openrouter" "google/gemini-pro", []) hi_world
    = (w', [])
    /\ trace w'
       = trace (mounted "openrouter" "google/gemini-pro")
           ++ paced_effects (streamBufferRef (mounted "openrouter" "google/gemini-pro"))
                (filter truthy_string (RegExp.split_words (lit "Hi, world!")))
    /\ Spec.sub_tokens (lit "Hi, world!")
         (filter truthy_string (RegExp.split_words (lit "Hi, world!")))
    /\ (forall ts,
          Spec.sub_tokens (lit "Hi, world!") ts ->
          ts = filter truthy_string (RegExp.split_words (lit "Hi, world!")))
    /\ streamBufferRef w'
       = streamBufferRef (mounted "openrouter" "google/gemini-pro")
           ++ lit "Hi, world!"
    /\ flush (w', []) = w'.
Proof.
  eapply (C5_paced_emission (mounted "openrouter" "google/gemini-pro") []
            hi_world _ (lit "Hi, world!")).
  - reflexivity.
  - reflexivity.
  - vm_compute. reflexivity.
  - vm_compute. reflexivity.
  - discriminate.
Defined.

(** The sub-tokens of [Hi, world!], in the order they are emitted. *)
Example hi_world_sub_tokens :
  filter truthy_string (RegExp.split_words (lit "Hi, world!"))
  = [lit "Hi"; lit ","; lit " "; lit "world"; lit "!"].
Proof. reflexivity. Qed.

End PacedEmission.

(* ================================================================== *)
(** ** C6: the content of a ServerSentEvents record *)
(* ================================================================== *)

Section ServerSentEvents.

Import JS JSON App Notions Examples.

(** C6, as stated, fails: the payload of this line parses to an object
    with one choice whose delta content is the string [[DONE]], present
    and non-empty, and the line leaves the buffer as it was. *)
Lemma C6_counterexample :
  JSON.parse (slice 6 says_done)
  = Some (JObject
            [(lit "choices",
              JArray [JObject [(lit "delta",
                                JObject [(lit "content",
                                          JString (lit "[DONE]"))])]])])
  /\ sse_line false (emit (mounted "openrouter" "gpt-4o") (lit "so far"), [])
       says_done
     = (emit (mounted "openrouter" "gpt-4o") (lit "so far"), []).
Proof. by_evaluation. Qed.

Lemma delta_content_first (ms : list (jsstring * json)) (first : json)
  (others : list json) :
  lookup (lit "choices") ms = Some (JArray (first :: others)) ->
  delta_content (JObject ms)
  = Normal (get_opt (get_opt (Value first) (lit "delta")) (lit "content")).
Proof.
  intros H. unfold delta_content. cbn [get]. rewrite H. reflexivity.
Qed.

(** A line with a content string appends it, paced or not. *)
Lemma sse_line_content (g : bool) (w : world) (wb line : jsstring)
  (record : json) (text : jsstring) :
  startsWith (lit "data: ") line = true ->
  includes (lit "[DONE]") line = false ->
  JSON.parse (slice 6 line) = Some record ->
  delta_content record = Normal (Value (JString text)) ->
  text <> [] ->
  streamBufferRef (fst (sse_line g (w, wb) line)) = streamBufferRef w ++ text.
Proof.
  intros Hd Hs Hp Hc Ht. destruct g.
  - rewrite (sse_line_paced w wb line record text Hd Hs Hp Hc Ht).
    simpl fst.
    rewrite buffer_acts, said_words_acts, filter_concat, split_words_concat.
    reflexivity.
  - rewrite sse_line_factor. unfold sse_line_acts, data_line_acts.
    rewrite (startsWith_data_not_blank line Hd), Hs, Hd, Hp, Hc.
    destruct text as [|c text]; [congruence|]. reflexivity.
Qed.

(** C6, amended: a line [data: ] followed by a payload that parses to an
    object with a non-empty list of choices, the first of which has a
    non-empty string as its delta content, appends that string to the
    buffer (at once, or sub-token by sub-token for a gemini model),
    provided the line does not contain the text [[DONE]]: a line that
    does is skipped whole. The chunk of the scenario, followed by the
    sentinel, gives the buffer [A]; the stream completes and nothing is
    logged. *)
Theorem C6_content_is_appended :
  (forall (g : bool) (w : world) (wb payload : jsstring)
          (ms : list (jsstring * json)) (first : json) (others : list json)
          (text : jsstring),
      includes (lit "[DONE]") (lit "data: " ++ payload) = false ->
      JSON.parse payload = Some (JObject ms) ->
      lookup (lit "choices") ms = Some (JArray (first :: others)) ->
      get_opt (get_opt (Value first) (lit "delta")) (lit "content")
      = Value (JString text) ->
      text <> [] ->
      streamBufferRef (fst (sse_line g (w, wb) (lit "data: " ++ payload)))
      = streamBufferRef w ++ text)
  /\ (forall model : string,
        snd (handleStreamResponse (mounted "openrouter" model)
               (chunks [frame_A; frame_done]))
        = Returned (lit "A")
        /\ trace (fst (handleStreamResponse (mounted "openrouter" model)
                         (chunks [frame_A; frame_done])))
           = (if includes (lit "gemini") (lit model)
              then [GetReader; Timeout 30; SetStreamedResponse (lit "A");
                    ReleaseLock]
              else [GetReader; SetStreamedResponse (lit "A"); ReleaseLock])).
Proof.
  split.
  - intros g w wb payload ms first others text Hs Hp Hc Hf Ht.
    apply (sse_line_content g w wb _ (JObject ms) text).
    + apply (startsWith_app (lit "data: ")).
    + exact Hs.
    + replace (slice 6 (lit "data: " ++ payload)) with payload
        by (symmetry; apply (slice_app (lit "data: "))).
      exact Hp.
    + rewrite (delta_content_first ms first others Hc), Hf. reflexivity.
    + exact Ht.
  - intros model. unfold handleStreamResponse, isGeminiModel.
    change (selectedLLM (mounted "openrouter" model)) with (lit model).
    destruct (includes (lit "gemini") (lit model));
      split; vm_compute; reflexivity.
Qed.

Lemma C6_content_is_appended_witness :
  streamBufferRef
    (fst (sse_line false (mounted "openrouter" "gpt-4o", [])
            (lit "data: "
               ++ quoted "{'choices':[{'delta':{'content':'A'}}]}")))
  = streamBufferRef (mounted "openrouter" "gpt-4o") ++ lit "A".
Proof.
  eapply (proj1 C6_content_is_appended false (mounted "openrouter" "gpt-4o") []).
  - vm_compute. reflexivity.
  - vm_compute. reflexivity.
  - vm_compute. reflexivity.
  - vm_compute. reflexivity.
  - discriminate.
Defined.

End ServerSentEvents.

(* ================================================================== *)
(** ** C7: the fragment of a LineDelimitedJSON record *)
(* ================================================================== *)

Section Records.

Import JS JSON App Notions Examples.

(** C7, as stated, fails: this record exposes the direct-completion field
    [response] with the string [y], and no [message.content]; what is
    appended is the text [undefined]. *)
Lemma C7_counterexample :
  JSON.parse role_and_response
  = Some (JObject
            [(lit "message", JObject [(lit "role", JString (lit "assistant"))]);
             (lit "response", JString (lit "y"))])
  /\ streamBufferRef
       (fst (ollama_line (mounted "ollama" "llama3") role_and_response))
     = lit "undefined".
Proof. by_evaluation. Qed.

(** The fragment of a record with a string [message.content]. *)
Lemma ollama_yield_message (line : jsstring) (record : json) (text : jsstring) :
  JSON.parse line = Some record ->
  get_opt (get_opt (Value record) (lit "message")) (lit "content")
  = Value (JString text) ->
  ollama_yield line = Normal (Some text).
Proof.
  intros P H. unfold ollama_yield.
  rewrite (parse_not_blank line record P), P.
  destruct record as [| | | | |ms]; try discriminate.
  cbn [get get_opt] in *.
  destruct (lookup (lit "message") ms) as [message|]; [|discriminate].
  destruct message as [| | | | |mm]; try discriminate.
  cbn [get get_opt truthy] in *.
  destruct (lookup (lit "content") mm) as [content|]; [|discriminate].
  injection H as ->. reflexivity.
Qed.

(** The fragment of a record with no truthy [message] and a string
    [response]. *)
Lemma ollama_yield_response (line : jsstring) (record : json) (text : jsstring) :
  JSON.parse line = Some record ->
  truthy (get_opt (Value record) (lit "message")) = false ->
  get_opt (Value record) (lit "response") = Value (JString text) ->
  ollama_yield line = Normal (if truthy_string text then Some text else None).
Proof.
  intros P M H. unfold ollama_yield.
  rewrite (parse_not_blank line record P), P.
  destruct record as [| | | | |ms]; try discriminate.
  cbn [get get_opt] in *. rewrite M.
  destruct (lookup (lit "response") ms) as [response|]; [|discriminate].
  injection H as ->. cbn [truthy to_string_value to_string].
  destruct (truthy_string text); reflexivity.
Qed.

(** C7, amended: a record with a string as [message.content] contributes
    exactly that string; a record with no [message] (or one that is not
    truthy) and a string as [response] contributes exactly that string.
    The chunks of the scenario make the buffer [Hel], then [Hello], and
    [Hello] is returned. *)
Theorem C7_fragment_of_a_record :
  (forall (w : world) (line : jsstring) (record : json) (text : jsstring),
      JSON.parse line = Some record ->
      get_opt (get_opt (Value record) (lit "message")) (lit "content")
      = Value (JString text)
      \/ (truthy (get_opt (Value record) (lit "message")) = false
          /\ get_opt (Value record) (lit "response") = Value (JString text)) ->
      snd (ollama_line w line) = Completed
      /\ streamBufferRef (fst (ollama_line w line)) = streamBufferRef w ++ text)
  /\ (forall model : string,
        snd (handleStreamResponse (mounted "ollama" model) (chunks [hel; lo]))
        = Returned (lit "Hello")
        /\ notifications
             (trace (fst (handleStreamResponse (mounted "ollama" model)
                            (chunks [hel; lo]))))
           = [lit "Hel"; lit "Hello"]).
Proof.
  split.
  - intros w line record text P [H|[M H]]; rewrite ollama_line_yield.
    + rewrite (ollama_yield_message line record text P H).
      split; reflexivity.
    + rewrite (ollama_yield_response line record text P M H).
      destruct text; simpl; [rewrite app_nil_r|]; split; reflexivity.
  - intros model. split; vm_compute; reflexivity.
Qed.

Lemma C7_fragment_of_a_record_witness :
  snd (ollama_line (mounted "ollama" "llama3")
         (quoted "{'message':{'content':'Hel'}}")) = Completed
  /\ streamBufferRef
       (fst (ollama_line (mounted "ollama" "llama3")
               (quoted "{'message':{'content':'Hel'}}")))
     = streamBufferRef (mounted "ollama" "llama3") ++ lit "Hel".
Proof.
  eapply (proj1 C7_fragment_of_a_record (mounted "ollama" "llama3")).
  - vm_compute. reflexivity.
  - left. vm_compute. reflexivity.
Defined.

End Records.

(* ================================================================== *)
(** ** C8: the lines the ServerSentEvents variant skips *)
(* ================================================================== *)

Section SkippedLines.

Import JS JSON App Notions Examples.

Lemma notifications_app (l1 l2 : list effect) :
  notifications (l1 ++ l2) = notifications l1 ++ notifications l2.
Proof. apply flat_map_app. Qed.

(** A logged error changes nothing of what the following lines do to the
    buffer, to [wordBuffer] and to the observer. *)
Lemma sse_lines_after_log (g : bool) (lines : list jsstring) (w : world)
  (wb : jsstring) :
  streamBufferRef (fst (fold_left (sse_line g) lines (perform w ConsoleError, wb)))
  = streamBufferRef (fst (fold_left (sse_line g) lines (w, wb)))
  /\ snd (fold_left (sse_line g) lines (perform w ConsoleError, wb))
     = snd (fold_left (sse_line g) lines (w, wb))
  /\ notifications
       (trace (fst (fold_left (sse_line g) lines (perform w ConsoleError, wb))))
     = notifications (trace (fst (fold_left (sse_line g) lines (w, wb)))).
Proof.
  rewrite !sse_lines_factor. simpl fst. simpl snd.
  rewrite !buffer_acts, !trace_acts, !notifications_app. simpl.
  rewrite notifications_app. simpl. rewrite app_nil_r.
  repeat split; reflexivity.
Qed.

(** C8: a line of the ServerSentEvents variant that is blank, or contains
    the sentinel [[DONE]], or starts with [data: ] and has a payload that
    does not parse, leaves the buffer and [wordBuffer] as they were and
    notifies no one: the line is skipped, and the failure to parse is
    caught and logged, not thrown. The lines after it are processed, with
    the result they have without it. *)
Theorem C8_skipped_lines (g : bool) (w : world) (wb line : jsstring) :
  blank line = true
  \/ includes (lit "[DONE]") line = true
  \/ (startsWith (lit "data: ") line = true
      /\ JSON.parse (slice 6 line) = None) ->
  (sse_line g (w, wb) line = (w, wb)
   \/ sse_line g (w, wb) line = (perform w ConsoleError, wb))
  /\ forall rest : list jsstring,
       streamBufferRef (fst (fold_left (sse_line g) (line :: rest) (w, wb)))
       = streamBufferRef (fst (fold_left (sse_line g) rest (w, wb)))
       /\ snd (fold_left (sse_line g) (line :: rest) (w, wb))
          = snd (fold_left (sse_line g) rest (w, wb))
       /\ notifications
            (trace (fst (fold_left (sse_line g) (line :: rest) (w, wb))))
          = notifications (trace (fst (fold_left (sse_line g) rest (w, wb)))).
Proof.
  intros H.
  assert (E : sse_line g (w, wb) line = (w, wb)
              \/ sse_line g (w, wb) line = (perform w ConsoleError, wb)).
  { unfold sse_line.
    destruct (blank line || includes (lit "[DONE]") line) eqn:B;
      [left; reflexivity|].
    apply orb_false_iff in B. destruct B as [B1 B2].
    destruct H as [H|[H|[H1 H2]]]; [congruence|congruence|].
    rewrite H1. unfold data_line. rewrite H2. right. reflexivity. }
  split; [exact E|].
  intros rest. simpl fold_left.
  destruct E as [-> | ->]; [repeat split; reflexivity|].
  apply sse_lines_after_log.
Qed.

Lemma C8_skipped_lines_witness :
  sse_line false (mounted "openrouter" "gpt-4o", []) (lit "data: [DONE]")
  = (mounted "openrouter" "gpt-4o", [])
  \/ sse_line false (mounted "openrouter" "gpt-4o", []) (lit "data: [DONE]")
     = (perform (mounted "openrouter" "gpt-4o") ConsoleError, []).
Proof.
  apply (C8_skipped_lines false (mounted "openrouter" "gpt-4o") []
           (lit "data: [DONE]")).
  right. left. reflexivity.
Defined.

End SkippedLines.

(* ================================================================== *)
(** ** C9: a session that is abandoned *)
(* ================================================================== *)

Section Abandonment.

Import JS JSON App Notions Examples.

(** Once settled, a session ignores what the reader delivers. *)
Lemma run_settled (p : jsstring) (g : bool) (reads : list read_result)
  (w : world) (r : settled) :
  run p g (w, Settled r) (map Delivers reads ++ [Ends]) = (w, Settled r).
Proof.
  induction reads as [|x reads IH]; simpl; [reflexivity|].
  destruct x; exact IH.
Qed.

(** The steps of a session that no click interrupts are the loop of
    [handleStreamResponse]. *)
Lemma run_read_loop (p : jsstring) (g : bool) (reads : list read_result)
  (w : world) (wb : jsstring) :
  run p g (w, Streaming wb) (map Delivers reads ++ [Ends])
  = (fst (read_loop p g (w, wb) reads),
     Settled (snd (read_loop p g (w, wb) reads))).
Proof.
  revert w wb. induction reads as [|x reads IH]; intros w wb.
  - reflexivity.
  - destruct x as [value|].
    + simpl. destruct (on_chunk p g (w, wb) value) as [w' wb'] eqn:E.
      apply IH.
    + simpl. apply run_settled.
Qed.

Lemma run_handleStreamResponse (w : world) (reads : list read_result) :
  run (apiProvider w) (isGeminiModel w) (start w) (map Delivers reads ++ [Ends])
  = (fst (handleStreamResponse w reads),
     Settled (snd (handleStreamResponse w reads))).
Proof. apply run_read_loop. Qed.

(** C9, as stated, fails: a session has read the frame [A] when New chat
    is clicked; the observer has been notified twice, with [A] and with
    the empty text, and the buffer is empty. A frame that arrives then is
    processed: the buffer is [A] again, and the observer is notified a
    third time. *)
Lemma C9_counterexample :
  notifications
    (trace (fst (run (lit "openrouter") false
                   (start (mounted "openrouter" "gpt-4o"))
                   [Delivers (Chunk frame_A); NewChatClicked])))
  = [lit "A"; []]
  /\ notifications
       (trace (fst (run (lit "openrouter") false
                      (start (mounted "openrouter" "gpt-4o"))
                      [Delivers (Chunk frame_A); NewChatClicked;
                       Delivers (Chunk frame_A)])))
     = [lit "A"; []; lit "A"]
  /\ streamBufferRef
       (fst (run (lit "openrouter") false
               (start (mounted "openrouter" "gpt-4o"))
               [Delivers (Chunk frame_A); NewChatClicked;
                Delivers (Chunk frame_A)]))
     = lit "A".
Proof. by_evaluation. Qed.

(** C9, amended: [handleNewChat] empties the buffer and notifies the
    observer once, with the empty text; it does not end a session in
    flight. A chunk that arrives afterwards is processed as in any
    session, from the empty buffer: the texts of its lines are appended,
    the observer is notified of each, and the session goes on
    streaming. *)
Theorem C9_new_chat_does_not_end_the_session (p : jsstring) (g : bool)
  (w : world) (wb : jsstring) (value : list Z) :
  streamBufferRef (handleNewChat w) = []
  /\ trace (handleNewChat w) = trace w ++ [SetStreamedResponse []]
  /\ snd (run p g (w, Streaming wb) [NewChatClicked; Delivers (Chunk value)])
     = Streaming (snd (text_acts p g wb (TextDecoder.decode value)))
  /\ streamBufferRef
       (fst (run p g (w, Streaming wb) [NewChatClicked; Delivers (Chunk value)]))
     = concat (said (fst (text_acts p g wb (TextDecoder.decode value))))
  /\ notifications
       (trace (fst (run p g (w, Streaming wb)
                      [NewChatClicked; Delivers (Chunk value)])))
     = notifications (trace w)
         ++ [] :: notifications
                    (effects_from []
                       (fst (text_acts p g wb (TextDecoder.decode value)))).
Proof.
  split; [reflexivity|]. split; [reflexivity|].
  unfold run. simpl fold_left. unfold on_chunk. rewrite on_text_factor.
  split; [reflexivity|]. simpl fst.
  split.
  - rewrite buffer_acts. reflexivity.
  - rewrite trace_acts.
    change (trace (handleNewChat w)) with (trace w ++ [SetStreamedResponse []]).
    change (streamBufferRef (handleNewChat w)) with (@nil Z).
    rewrite !notifications_app, <- app_assoc. reflexivity.
Qed.

End Abandonment.

(* ================================================================== *)
(** ** C10: nothing to send *)
(* ================================================================== *)

Section SendPrompt.

Import JS JSON App Notions Examples.

(** C10: when the prompt is empty or made of white space only, or no
    model is selected, [handleSendPrompt] returns at once and leaves the
    world as it was: no state of the component changes, and no request is
    issued (the trace of effects is the same), so no chat is created, no
    message saved, and no provider asked. *)
Theorem C10_nothing_to_send (net : network) (w : world) :
  blank (prompt w) = true \/ selectedLLM w = [] ->
  handleSendPrompt net w = w.
Proof.
  intros [H | H]; unfold handleSendPrompt; rewrite H; [reflexivity|].
  rewrite orb_true_r. reflexivity.
Qed.

Lemma C10_nothing_to_send_witness :
  handleSendPrompt (fun _ _ => FetchFails) (asking "   ") = asking "   ".
Proof.
  apply (C10_nothing_to_send (fun _ _ => FetchFails) (asking "   ")).
  left. reflexivity.
Defined.

(** With a prompt and a model, the chat is created, the prompt saved, the
    provider asked, its answer streamed and saved. *)
Example handleSendPrompt_sends :
  let w := handleSendPrompt server (asking "Hi") in
  trace w
  = [SetStreamedResponse [];
     Fetch (CreateChat (lit "Hi"));
     Fetch (SaveMessage (lit "c1") (lit "Hi") (lit "user"));
     Fetch (OllamaGenerate [] (lit "llama3") (lit "Hi"));
     GetReader;
     SetStreamedResponse (lit "Hel");
     SetStreamedResponse (lit "Hello");
     ReleaseLock;
     Fetch (SaveMessage (lit "c1") (lit "Hello") (lit "assistant"))]
  /\ chatHistory w
     = [mkMessage (lit "Hi") (lit "user");
        mkMessage (lit "Hello") (lit "assistant")]
  /\ prompt w = [] /\ isGenerating w = false
  /\ isConversationStarted w = true /\ currentChatId w = Some (lit "c1").
Proof. by_evaluation. Qed.

End SendPrompt.

(* ================================================================== *)
(** ** The session of [handleStreamResponse] as a whole *)
(* ================================================================== *)

Section StreamSessions.

Import JS JSON App Notions Examples Sessions.

Lemma read_loop_factor (p : jsstring) (g : bool) (reads : list read_result) :
  forall (w : world) (wb : jsstring),
    fst (read_loop p g (w, wb) reads)
    = perform (acts w (session_acts p g wb reads)) ReleaseLock.
Proof.
  induction reads as [|r reads IH]; intros w wb.
  - simpl. unfold on_done, flush. simpl.
    destruct wb; reflexivity.
  - destruct r as [value|].
    + simpl. unfold on_chunk. rewrite on_text_factor.
      destruct (text_acts p g wb (TextDecoder.decode value)) as [a wb'].
      simpl fst. simpl snd. rewrite IH, acts_app. reflexivity.
    + reflexivity.
Qed.

Lemma read_loop_settles (p : jsstring) (g : bool) (reads : list read_result) :
  forall (s : session),
    snd (read_loop p g s reads)
    = if fails reads then Rejected
      else Returned (streamBufferRef (fst (read_loop p g s reads))).
Proof.
  induction reads as [|r reads IH]; intros s.
  - reflexivity.
  - destruct r as [value|]; [|reflexivity]. simpl. apply IH.
Qed.

Lemma effects_from_loop (l : list action) (b : jsstring) :
  forallb loop_effect (effects_from b l) = true.
Proof.
  revert b. induction l as [|a l IH]; intros b; [reflexivity|].
  destruct a; simpl; apply IH.
Qed.

Lemma handleStreamResponse_trace (w : world) (reads : list read_result) :
  trace (fst (handleStreamResponse w reads))
  = trace w
      ++ GetReader
         :: effects_from (streamBufferRef w)
              (session_acts (apiProvider w) (isGeminiModel w) [] reads)
      ++ [ReleaseLock].
Proof.
  unfold handleStreamResponse. rewrite read_loop_factor.
  change (trace (perform ?x ReleaseLock)) with (trace x ++ [ReleaseLock]).
  rewrite trace_acts. simpl. rewrite <- !app_assoc. reflexivity.
Qed.

Lemma handleStreamResponse_buffer (w : world) (reads : list read_result) :
  streamBufferRef (fst (handleStreamResponse w reads))
  = streamBufferRef w
      ++ concat (said (session_acts (apiProvider w) (isGeminiModel w) [] reads)).
Proof.
  unfold handleStreamResponse. rewrite read_loop_factor.
  change (streamBufferRef (perform ?x ReleaseLock)) with (streamBufferRef x).
  rewrite buffer_acts. reflexivity.
Qed.

(** X1: whatever the reader delivers, [handleStreamResponse] acquires the
    reader first and releases it last, once each: the effects it adds to
    the trace are [GetReader], then only notifications of the observer,
    delays and logged errors, then [ReleaseLock], whether the stream ends
    or a read fails. *)
Theorem reader_acquired_once_released_last (w : world)
  (reads : list read_result) :
  exists during,
    trace (fst (handleStreamResponse w reads))
    = trace w ++ [GetReader] ++ during ++ [ReleaseLock]
    /\ forallb loop_effect during = true.
Proof.
  eexists. split; [apply handleStreamResponse_trace|apply effects_from_loop].
Qed.

Lemma fails_In (reads : list read_result) :
  fails reads = true <-> In ReadError reads.
Proof.
  unfold fails. rewrite existsb_exists. split.
  - intros [r [H1 H2]]. destruct r; [discriminate|exact H1].
  - intros H. exists ReadError. split; [exact H|reflexivity].
Qed.

(** X2: the promise of [handleStreamResponse] is rejected exactly when
    a read of the stream fails; when it is not, the text returned is the
    buffer as the session leaves it, which is the buffer as the session
    found it followed by what the session appended (the buffer is not
    emptied by [handleStreamResponse] itself). *)
Theorem rejected_exactly_when_a_read_fails (w : world)
  (reads : list read_result) :
  (snd (handleStreamResponse w reads) = Rejected <-> In ReadError reads)
  /\ (forall text,
         snd (handleStreamResponse w reads) = Returned text ->
         text = streamBufferRef (fst (handleStreamResponse w reads))
         /\ exists appended, text = streamBufferRef w ++ appended).
Proof.
  pose proof (read_loop_settles (apiProvider w) (isGeminiModel w) reads
                (perform w GetReader, [])) as H.
  fold (handleStreamResponse w reads) in H.
  split.
  - rewrite <- fails_In. rewrite H. destruct (fails reads); split; congruence.
  - intros text E. rewrite H in E. destruct (fails reads); [discriminate|].
    injection E as <-. split; [reflexivity|].
    eexists. apply handleStreamResponse_buffer.
Qed.

Lemma read_loop_failed (p : jsstring) (g : bool) (slicing : list (list Z))
  (rest : list read_result) :
  forall s : session,
    read_loop p g s (chunks slicing ++ ReadError :: rest)
    = on_error (fold_left (on_chunk p g) slicing s).
Proof.
  induction slicing as [|c slicing IH]; intros s; [reflexivity|].
  simpl. apply IH.
Qed.

(** X3: a read that fails ends the session at once: what the reader
    would deliver after it is never read, the text the chunks before it
    appended stays in the buffer and on display (nothing is rolled back,
    and a held [wordBuffer] is not flushed), and the only effects added
    are the logged error and the release of the reader. *)
Theorem failed_read_ends_the_session (w : world) (slicing : list (list Z))
  (rest : list read_result) :
  let before := fst (after_chunks w slicing) in
  let after := fst (handleStreamResponse w (chunks slicing ++ ReadError :: rest)) in
  snd (handleStreamResponse w (chunks slicing ++ ReadError :: rest)) = Rejected
  /\ streamBufferRef after = streamBufferRef before
  /\ streamedResponse after = streamedResponse before
  /\ trace after = trace before ++ [ConsoleError; ReleaseLock].
Proof.
  intros before after. subst before after.
  unfold handleStreamResponse, after_chunks. rewrite read_loop_failed.
  repeat split. cbn. rewrite <- app_assoc. reflexivity.
Qed.

Lemma last_cons {A} (x d : A) (l : list A) : last (x :: l) d = last l x.
Proof.
  revert x d. induction l as [|y l IH]; intros x d; [reflexivity|].
  change (last (y :: l) d = last (y :: l) x). rewrite !IH. reflexivity.
Qed.

Lemma last_notification (l : list action) (b : jsstring) :
  last (notifications (effects_from b l)) b = b ++ concat (said l).
Proof.
  revert b. induction l as [|a l IH]; intros b.
  - simpl. rewrite app_nil_r. reflexivity.
  - destruct a as [t| |]; [|apply IH|apply IH].
    change (last ((b ++ t) :: notifications (effects_from (b ++ t) l)) b
            = b ++ t ++ concat (said l)).
    rewrite last_cons, IH, <- app_assoc. reflexivity.
Qed.

(** X4: for every stream, of any provider and with any lines, well
    formed or not, the buffer only grows: the final buffer is the initial
    one followed by some text, every value the observer is notified with
    is the one before it followed by some text, and the last value
    notified is the final buffer (when no value is notified the buffer is
    as it was). *)
Theorem buffer_only_grows (w : world) (reads : list read_result) :
  exists new appended,
    trace (fst (handleStreamResponse w reads)) = trace w ++ new
    /\ streamBufferRef (fst (handleStreamResponse w reads))
       = streamBufferRef w ++ appended
    /\ growing (streamBufferRef w) (notifications new)
    /\ last (notifications new) (streamBufferRef w)
       = streamBufferRef (fst (handleStreamResponse w reads)).
Proof.
  eexists. eexists.
  split; [apply handleStreamResponse_trace|].
  split; [apply handleStreamResponse_buffer|].
  assert (E : forall l b,
             notifications (GetReader :: effects_from b l ++ [ReleaseLock])
             = notifications (effects_from b l)).
  { intros l b. change (GetReader :: ?x) with ([GetReader] ++ x).
    rewrite !notifications_app. simpl. apply app_nil_r. }
  rewrite E. split; [apply notifications_growing|].
  rewrite last_notification. symmetry. apply handleStreamResponse_buffer.
Qed.

Lemma acts_frame (l : list action) (w : world) :
  selectedLLM (acts w l) = selectedLLM w
  /\ prompt (acts w l) = prompt w
  /\ apiProvider (acts w l) = apiProvider w
  /\ openRouterApiKey (acts w l) = openRouterApiKey w
  /\ ollamaEndpoint (acts w l) = ollamaEndpoint w
  /\ currentChatId (acts w l) = currentChatId w
  /\ chats (acts w l) = chats w
  /\ chatHistory (acts w l) = chatHistory w
  /\ isGenerating (acts w l) = isGenerating w
  /\ isConversationStarted (acts w l) = isConversationStarted w
  /\ settingsError (acts w l) = settingsError w.
Proof.
  revert w. induction l as [|a l IH]; intros w.
  - repeat split; reflexivity.
  - change (acts w (a :: l)) with (acts (act w a) l).
    specialize (IH (act w a)).
    destruct a; exact IH.
Qed.

Lemma acts_shown (l : list action) (w : world) :
  streamedResponse (acts w l)
  = match said l with
    | [] => streamedResponse w
    | _ :: _ => streamBufferRef (acts w l)
    end.
Proof.
  revert w. induction l as [|a l IH]; intros w; [reflexivity|].
  change (acts w (a :: l)) with (acts (act w a) l).
  rewrite IH. destruct a as [t| |]; simpl; try reflexivity.
  destruct (said l) eqn:E; [|reflexivity].
  rewrite buffer_acts, E. simpl. rewrite app_nil_r. reflexivity.
Qed.

(** X5: [handleStreamResponse] changes nothing of the component but
    the streamed text, the buffer and the trace: the model, the prompt,
    the provider and its settings, the current chat, the chats, the
    history, the two flags and the error are as they were. At the end the
    text on display is the buffer, unless nothing was appended, and then
    both are as they were. *)
Theorem streaming_leaves_the_rest (w : world) (reads : list read_result) :
  let w' := fst (handleStreamResponse w reads) in
  (selectedLLM w' = selectedLLM w
   /\ prompt w' = prompt w
   /\ apiProvider w' = apiProvider w
   /\ openRouterApiKey w' = openRouterApiKey w
   /\ ollamaEndpoint w' = ollamaEndpoint w
   /\ currentChatId w' = currentChatId w
   /\ chats w' = chats w
   /\ chatHistory w' = chatHistory w
   /\ isGenerating w' = isGenerating w
   /\ isConversationStarted w' = isConversationStarted w
   /\ settingsError w' = settingsError w)
  /\ (streamedResponse w' = streamBufferRef w'
      \/ (streamedResponse w' = streamedResponse w
          /\ streamBufferRef w' = streamBufferRef w)).
Proof.
  intros w'. subst w'.
  unfold handleStreamResponse. rewrite read_loop_factor.
  set (l := session_acts _ _ _ _). split.
  - exact (acts_frame l (perform w GetReader)).
  - change (streamedResponse (perform ?x ReleaseLock)) with (streamedResponse x).
    change (streamBufferRef (perform ?x ReleaseLock)) with (streamBufferRef x).
    rewrite acts_shown, buffer_acts.
    destruct (said l); [right|left; reflexivity].
    simpl. rewrite app_nil_r. split; reflexivity.
Qed.

Lemma In_effects_from (l : list action) (b : jsstring) :
  (forall ms, In (Timeout ms) (effects_from b l) -> In (Pause ms) l)
  /\ (In ConsoleError (effects_from b l) -> In Log l).
Proof.
  revert b. induction l as [|a l IH]; intros b; [split; intros; assumption|].
  destruct a as [t|ms'|]; simpl.
  - destruct (IH (b ++ t)) as [H1 H2]. split.
    + intros ms [H|H]; [discriminate|right; apply H1; exact H].
    + intros [H|H]; [discriminate|right; apply H2; exact H].
  - destruct (IH b) as [H1 H2]. split.
    + intros ms [H|H]; [left; congruence|right; apply H1; exact H].
    + intros [H|H]; [discriminate|right; apply H2; exact H].
  - destruct (IH b) as [H1 H2]. split.
    + intros ms [H|H]; [discriminate|right; apply H1; exact H].
    + intros _. left. reflexivity.
Qed.

Lemma words_acts_pause (ws : list jsstring) (ms : Z) :
  In (Pause ms) (words_acts ws) -> ms = 30.
Proof.
  unfold words_acts. rewrite in_flat_map. intros [word [_ H]].
  destruct (truthy_string word); [|contradiction].
  destruct H as [H|[H|[]]]; congruence.
Qed.

Lemma words_acts_log (ws : list jsstring) : ~ In Log (words_acts ws).
Proof.
  unfold words_acts. rewrite in_flat_map. intros [word [_ H]].
  destruct (truthy_string word); [|contradiction].
  destruct H as [H|[H|[]]]; congruence.
Qed.

Lemma data_line_acts_pause (g : bool) (wb line : jsstring) (ms : Z) :
  In (Pause ms) (fst (fst (data_line_acts g wb line))) -> ms = 30 /\ g = true.
Proof.
  unfold data_line_acts.
  destruct (JSON.parse (slice 6 line)) as [record|]; [|contradiction].
  destruct (delta_content record) as [content|]; [|contradiction].
  destruct (truthy content); [|contradiction].
  destruct (to_string_value content) as [text|]; [|contradiction].
  destruct g.
  - destruct content as [|[]]; simpl; try contradiction.
    intros H. split; [exact (words_acts_pause _ _ H)|reflexivity].
  - simpl. intros [H|[]]. discriminate.
Qed.

Lemma sse_line_acts_pause (g : bool) (wb line : jsstring) (ms : Z) :
  In (Pause ms) (fst (sse_line_acts g wb line)) -> ms = 30 /\ g = true.
Proof.
  unfold sse_line_acts.
  destruct (blank line || includes (lit "[DONE]") line); [contradiction|].
  destruct (startsWith (lit "data: ") line); [|contradiction].
  pose proof (data_line_acts_pause g wb line ms) as H.
  destruct (data_line_acts g wb line) as [[a wb'] []]; simpl in *; [exact H|].
  intros H'. apply in_app_or in H'. destruct H' as [H'|[H'|[]]];
    [exact (H H')|discriminate].
Qed.

Lemma sse_lines_acts_pause (g : bool) (lines : list jsstring) (ms : Z) :
  forall wb,
    In (Pause ms) (fst (sse_lines_acts g wb lines)) -> ms = 30 /\ g = true.
Proof.
  induction lines as [|line lines IH]; intros wb; [contradiction|].
  simpl. pose proof (sse_line_acts_pause g wb line ms) as H.
  destruct (sse_line_acts g wb line) as [a wb'].
  specialize (IH wb').
  destruct (sse_lines_acts g wb' lines) as [a' wb''].
  simpl in *. intros H'. apply in_app_or in H'. tauto.
Qed.

Lemma text_acts_pause (p : jsstring) (g : bool) (wb text : jsstring) (ms : Z) :
  In (Pause ms) (fst (text_acts p g wb text)) -> ms = 30 /\ paced p g = true.
Proof.
  unfold text_acts, paced.
  destruct (str_eqb p (lit "ollama")).
  - simpl. rewrite in_map_iff. intros [t [H _]]. discriminate.
  - intros H. apply sse_lines_acts_pause in H. destruct H as [-> ->].
    split; reflexivity.
Qed.

Lemma text_acts_log (g : bool) (wb text : jsstring) :
  ~ In Log (fst (text_acts (lit "ollama") g wb text)).
Proof.
  unfold text_acts. simpl. rewrite in_map_iff. intros [t [H _]]. discriminate.
Qed.

Lemma session_acts_pause (p : jsstring) (g : bool) (reads : list read_result)
  (ms : Z) :
  forall wb,
    In (Pause ms) (session_acts p g wb reads) -> ms = 30 /\ paced p g = true.
Proof.
  induction reads as [|r reads IH]; intros wb.
  - simpl. destruct (truthy_string wb); simpl; [|contradiction].
    intros [H|[]]. discriminate.
  - destruct r as [value|]; simpl.
    + pose proof (text_acts_pause p g wb (TextDecoder.decode value) ms) as H.
      destruct (text_acts p g wb (TextDecoder.decode value)) as [a wb'].
      intros H'. apply in_app_or in H'. destruct H' as [H'|H'];
        [exact (H H')|exact (IH wb' H')].
    + intros [H|[]]. discriminate.
Qed.

Lemma session_acts_log (g : bool) (reads : list read_result) :
  forall wb,
    In Log (session_acts (lit "ollama") g wb reads) -> fails reads = true.
Proof.
  induction reads as [|r reads IH]; intros wb.
  - simpl. destruct (truthy_string wb); simpl; [|contradiction].
    intros [H|[]]. discriminate.
  - destruct r as [value|]; cbn [session_acts]; [|reflexivity].
    pose proof (text_acts_log g wb (TextDecoder.decode value)) as H.
    destruct (text_acts (lit "ollama") g wb (TextDecoder.decode value))
      as [a wb'].
    intros H'. apply in_app_or in H'. destruct H' as [H'|H'];
      [contradiction|exact (IH wb' H')].
Qed.

(** X6: delays belong to the paced delivery alone: every timeout a
    session sets is of 30 ms, and it sets one only for a gemini model of a
    provider other than ollama. For the provider ollama an error is logged
    only when a read fails: a line that does not parse is appended to the
    buffer, never logged. *)
Theorem delays_only_for_paced_delivery (w : world) (reads : list read_result) :
  exists new,
    trace (fst (handleStreamResponse w reads)) = trace w ++ new
    /\ (forall ms, In (Timeout ms) new ->
                   ms = 30 /\ isGeminiModel w = true
                   /\ apiProvider w <> lit "ollama")
    /\ (apiProvider w = lit "ollama" -> In ConsoleError new ->
        In ReadError reads).
Proof.
  eexists. split; [apply handleStreamResponse_trace|].
  set (l := session_acts _ _ _ _).
  split.
  - intros ms [H|H]; [discriminate|].
    apply in_app_or in H. destruct H as [H|[H|[]]]; [|discriminate].
    apply In_effects_from in H. apply session_acts_pause in H.
    destruct H as [-> H]. unfold paced in H.
    apply andb_true_iff in H. destruct H as [H1 H2].
    split; [reflexivity|]. split; [exact H1|].
    intros E. rewrite E in H2. discriminate.
  - intros E [H|H]; [discriminate|].
    apply in_app_or in H. destruct H as [H|[H|[]]]; [|discriminate].
    apply In_effects_from in H. unfold l in H. rewrite E in H.
    apply session_acts_log in H. apply fails_In. exact H.
Qed.

End StreamSessions.

(* ================================================================== *)
(** ** The exchange of [handleSendPrompt] *)
(* ================================================================== *)

Section SendCases.

Import JS JSON App Notions Examples Sessions.

Variable net : network.

Lemma save_message_cases (chatId content role : jsstring) (w : world) :
  let w1 := perform w (Fetch (SaveMessage chatId content role)) in
  save_message net chatId content role w = (w1, None)
  \/ exists m,
       net (trace w) (SaveMessage chatId content role)
       = Responds (mkResponse true (Some m))
       /\ save_message net chatId content role w
          = (setChatHistory (fun prev => prev ++ [m]) w1, Some tt).
Proof.
  unfold save_message, bind, fetch, check_ok, read_body, modify, ret, throw.
  destruct (net (trace w) (SaveMessage chatId content role))
    as [[[] [m|]]|]; cbn; eauto.
Qed.

Lemma ensure_chat_cases (p : jsstring) (id : option jsstring) (w : world) :
  match id with
  | Some (c :: i) => ensure_chat net p id w = (w, Some (c :: i))
  | _ =>
      let w1 :=
        perform w (Fetch (CreateChat (slice_to 30 (hd [] (split 10 p))))) in
      ensure_chat net p id w = (w1, None)
      \/ exists newChat,
           ensure_chat net p id w
           = (setChats (fun prev => newChat :: prev)
                (setCurrentChatId (Some (chat_id newChat)) w1),
              Some (chat_id newChat))
  end.
Proof.
  assert (H : forall id',
             let w1 := perform w
               (Fetch (CreateChat (slice_to 30 (hd [] (split 10 p))))) in
             id' = None \/ id' = Some [] ->
             ensure_chat net p id' w = (w1, None)
             \/ exists newChat,
                  ensure_chat net p id' w
                  = (setChats (fun prev => newChat :: prev)
                       (setCurrentChatId (Some (chat_id newChat)) w1),
                     Some (chat_id newChat))).
  { intros id' w1 E. subst w1.
    assert (E' : ensure_chat net p id' w = ensure_chat net p None w)
      by (destruct E as [-> | ->]; reflexivity).
    rewrite E'.
    unfold ensure_chat, bind, fetch, check_ok, read_body, modify, ret, throw.
    destruct (net (trace w) _) as [[[] [newChat|]]|]; cbn; eauto. }
  destruct id as [[|c i]|]; [apply H; auto|reflexivity|apply H; auto].
Qed.

Lemma stream_and_save_cases (chatId : jsstring)
  (r : response (list read_result)) (w : world) :
  stream_and_save net chatId r w = (w, None)
  \/ exists reads,
       match handleStreamResponse w reads with
       | (w1, Rejected) => stream_and_save net chatId r w = (w1, None)
       | (w1, Returned text) =>
           stream_and_save net chatId r w
           = if blank text then (w1, Some tt)
             else save_message net chatId text (lit "assistant") w1
       end.
Proof.
  unfold stream_and_save, bind, check_ok, read_body, ret, throw.
  destruct r as [[] [reads|]]; cbn; auto.
  right. exists reads.
  destruct (handleStreamResponse w reads) as [w1 [text|]]; [|reflexivity].
  destruct (blank text); reflexivity.
Qed.

End SendCases.

Section SendPromptTheorems.

Import JS JSON App Notions Examples Sessions View.

Lemma handleStreamResponse_frame (w : world) (reads : list read_result) :
  selectedLLM (fst (handleStreamResponse w reads)) = selectedLLM w
  /\ prompt (fst (handleStreamResponse w reads)) = prompt w
  /\ apiProvider (fst (handleStreamResponse w reads)) = apiProvider w
  /\ openRouterApiKey (fst (handleStreamResponse w reads)) = openRouterApiKey w
  /\ ollamaEndpoint (fst (handleStreamResponse w reads)) = ollamaEndpoint w
  /\ currentChatId (fst (handleStreamResponse w reads)) = currentChatId w
  /\ chats (fst (handleStreamResponse w reads)) = chats w
  /\ chatHistory (fst (handleStreamResponse w reads)) = chatHistory w
  /\ isGenerating (fst (handleStreamResponse w reads)) = isGenerating w
  /\ isConversationStarted (fst (handleStreamResponse w reads))
     = isConversationStarted w
  /\ settingsError (fst (handleStreamResponse w reads)) = settingsError w.
Proof.
  unfold handleStreamResponse. rewrite read_loop_factor.
  exact (acts_frame _ (perform w GetReader)).
Qed.

(** The leaves of [send]: what it has done when it returns or throws. *)
Ltac stream_leaves :=
  match goal with
  | |- context [stream_and_save ?n ?c ?r ?w] =>
      let H := fresh "H" in
      let reads := fresh "reads" in
      destruct (stream_and_save_cases n c r w) as [H | [reads H]];
      [ rewrite H; clear H
      | let w1 := fresh "streamed" in
        let text := fresh "text" in
        let E := fresh "Estream" in
        destruct (handleStreamResponse w reads) as [w1 [text|]] eqn:E;
        rewrite H; clear H;
        [ let B := fresh "Eblank" in
          destruct (blank text) eqn:B;
          [ | match goal with
              | |- context [save_message ?n' ?c' ?p' ?r' ?w'] =>
                  let H' := fresh "H" in
                  let m := fresh "reply" in
                  let N := fresh "Nreply" in
                  destruct (save_message_cases n' c' p' r' w')
                    as [H' | [m [N H']]];
                  rewrite H'; clear H'
              end ]
        | ] ]
  end.

Ltac provider_leaves :=
  unfold fetch;
  match goal with
  | |- context [match ?n ?t ?q with _ => _ end] =>
      match type of n with
      | network =>
          let r := fresh "r" in
          destruct (n t q) as [r|]; [stream_leaves|]
      end
  end.

Ltac send_leaves :=
  unfold send, bind;
  match goal with
  | |- context [ensure_chat ?n ?p (currentChatId ?w0) ?w] =>
      let H := fresh "H" in
      let Eid := fresh "Eid" in
      pose proof (ensure_chat_cases n p (currentChatId w0) w) as H;
      destruct (currentChatId w0) as [[|? ?]|] eqn:Eid;
      cbv zeta in H;
      [ destruct H as [H | [? H]] | | destruct H as [H | [? H]] ];
      rewrite H; clear H
  end;
  try match goal with
  | |- context [save_message ?n ?c ?p ?r ?w] =>
      let H := fresh "H" in
      let m := fresh "saved" in
      let N := fresh "Nsaved" in
      destruct (save_message_cases n c p r w) as [H | [m [N H]]];
      rewrite H; clear H;
      [ | match goal with
          | |- context [str_eqb (apiProvider ?w0) (lit "openrouter")] =>
              let E1 := fresh "Eopenrouter" in
              let E2 := fresh "Eollama" in
              destruct (str_eqb (apiProvider w0) (lit "openrouter")) eqn:E1;
              [ provider_leaves
              | destruct (str_eqb (apiProvider w0) (lit "ollama")) eqn:E2;
                [ provider_leaves | ] ]
          end ]
  end.

Lemma handleStreamResponse_shown (w : world) (reads : list read_result) :
  streamedResponse w = streamBufferRef w ->
  streamedResponse (fst (handleStreamResponse w reads))
  = streamBufferRef (fst (handleStreamResponse w reads)).
Proof.
  intros H. unfold handleStreamResponse. rewrite read_loop_factor.
  change (streamedResponse (perform ?x ReleaseLock)) with (streamedResponse x).
  change (streamBufferRef (perform ?x ReleaseLock)) with (streamBufferRef x).
  rewrite acts_shown.
  destruct (said _) eqn:E; [|reflexivity].
  rewrite buffer_acts, E. simpl. rewrite app_nil_r. exact H.
Qed.

Lemma handleStreamResponse_returned (w w' : world) (reads : list read_result)
  (text : jsstring) :
  handleStreamResponse w reads = (w', Returned text) ->
  text = streamBufferRef w'.
Proof.
  intros E.
  pose proof (read_loop_settles (apiProvider w) (isGeminiModel w) reads
                (perform w GetReader, [])) as H.
  fold (handleStreamResponse w reads) in H. rewrite E in H. simpl in H.
  destruct (fails reads); congruence.
Qed.

(** What is known of the world a stream leaves. *)
Ltac streamed_facts :=
  try match goal with
    | E : handleStreamResponse ?w ?reads = (?w1, _) |- _ =>
        let F := fresh "F" in
        let T := fresh "Ftrace" in
        let S := fresh "Fshown" in
        pose proof (handleStreamResponse_frame w reads) as F;
        pose proof (handleStreamResponse_trace w reads) as T;
        pose proof (handleStreamResponse_shown w reads) as S;
        rewrite E in F, T, S; cbn [fst] in F, T, S;
        destruct F as (F1 & F2 & F3 & F4 & F5 & F6 & F7 & F8 & F9 & F10 & F11)
    end;
  try match goal with
    | E : handleStreamResponse ?w ?reads = (?w1, Returned ?text) |- _ =>
        let R := fresh "Freturned" in
        pose proof (handleStreamResponse_returned w w1 reads text E) as R
    end.

Ltac guard_passes Hp Hm :=
  unfold handleSendPrompt; rewrite Hp;
  match goal with
  | |- context [selectedLLM ?w] =>
      let Em := fresh "Em" in
      destruct (selectedLLM w) eqn:Em; [congruence|]
  end;
  cbn [truthy_string negb orb].

(** X7: when there is a prompt and a model, [handleSendPrompt] ends,
    whatever the servers answer (no response, a response that is not ok,
    a body that cannot be read, or the chat, the message and the stream
    of their routes), with [isGenerating] false, the prompt empty and the
    conversation started; the text on display is the buffer; the model,
    the provider, the key and the endpoint are as they were. *)
Theorem send_resets_the_form (net : network) (w : world) :
  blank (prompt w) = false -> selectedLLM w <> [] ->
  isGenerating (handleSendPrompt net w) = false
  /\ prompt (handleSendPrompt net w) = []
  /\ isConversationStarted (handleSendPrompt net w) = true
  /\ streamedResponse (handleSendPrompt net w)
     = streamBufferRef (handleSendPrompt net w)
  /\ selectedLLM (handleSendPrompt net w) = selectedLLM w
  /\ apiProvider (handleSendPrompt net w) = apiProvider w
  /\ openRouterApiKey (handleSendPrompt net w) = openRouterApiKey w
  /\ ollamaEndpoint (handleSendPrompt net w) = ollamaEndpoint w.
Proof.
  intros Hp Hm. guard_passes Hp Hm.
  destruct (isConversationStarted w) eqn:Ec;
    send_leaves; streamed_facts; cbn;
    rewrite ?F1, ?F2, ?F3, ?F4, ?F5, ?F9, ?F10; cbn;
    rewrite ?Fshown by reflexivity;
    rewrite ?Em, ?Ec; repeat split.
Qed.

Lemma send_resets_the_form_witness :
  isGenerating (handleSendPrompt server (asking "Hi")) = false
  /\ prompt (handleSendPrompt server (asking "Hi")) = [].
Proof.
  pose proof (send_resets_the_form server (asking "Hi")) as H.
  split; apply H; solve [reflexivity | discriminate].
Defined.

Lemma requests_app (t1 t2 : list effect) :
  requests (t1 ++ t2) = requests t1 ++ requests t2.
Proof. apply flat_map_app. Qed.

Lemma requests_loop (t : list effect) :
  forallb loop_effect t = true -> requests t = [].
Proof.
  induction t as [|e t IH]; [reflexivity|].
  simpl. intros H. apply andb_true_iff in H. destruct H as [H1 H2].
  destruct e; try discriminate; exact (IH H2).
Qed.

Lemma requests_stream (b : jsstring) (l : list action) (t : list effect) :
  requests (GetReader :: effects_from b l ++ ReleaseLock :: t) = requests t.
Proof.
  change (requests (effects_from b l ++ ReleaseLock :: t) = requests t).
  rewrite requests_app, (requests_loop _ (effects_from_loop l b)).
  reflexivity.
Qed.

Lemma requests_fetch (r : request) (t : list effect) :
  requests (Fetch r :: t) = r :: requests t.
Proof. reflexivity. Qed.

Lemma requests_notified (b : jsstring) (t : list effect) :
  requests (SetStreamedResponse b :: t) = requests t.
Proof. reflexivity. Qed.

Lemma requests_logged (t : list effect) :
  requests (ConsoleError :: t) = requests t.
Proof. reflexivity. Qed.

Lemma requests_nil : requests [] = [].
Proof. reflexivity. Qed.

Ltac requests_of_leaf :=
  rewrite ?requests_notified;
  repeat (rewrite requests_fetch || rewrite requests_stream
          || rewrite requests_logged || rewrite requests_nil).

#[local] Arguments slice_to : simpl never.
#[local] Arguments lit : simpl never.

(** The trace of a leaf, as the trace before it and what was added. *)
Ltac trace_of_leaf :=
  cbn;
  try match goal with T : trace _ = _ ++ GetReader :: _ |- _ => rewrite T end;
  cbn; repeat (rewrite <- app_assoc; cbn).

(** X8: the requests of one [handleSendPrompt] are issued in a fixed
    order and stop at the first failure: they are a prefix, not empty, of
    the exchange that creates the chat (only when there is no current
    chat), saves the prompt as a message of the user, asks the provider
    (when the provider is openrouter or ollama), and saves the final
    buffer as a message of the assistant. When there is a current chat
    both messages are saved to it. The chat server answers with the chat
    and the message of its routes, or with a body that cannot be read. *)
Theorem send_requests_in_order (net : network) (w : world) :
  blank (prompt w) = false -> selectedLLM w <> [] ->
  exists new chatId rest,
    trace (handleSendPrompt net w) = trace w ++ new
    /\ requests new <> []
    /\ exchange w chatId (streamBufferRef (handleSendPrompt net w))
       = requests new ++ rest
    /\ (has_chat w = true -> currentChatId w = Some chatId).
Proof.
  intros Hp Hm. guard_passes Hp Hm.
  destruct (isConversationStarted w) eqn:Ec;
    send_leaves; streamed_facts; try subst text; trace_of_leaf;
    (eexists; eexists; eexists; split; [reflexivity|]);
    requests_of_leaf;
    (split; [discriminate|]);
    unfold exchange, has_chat, provider_request;
    rewrite Eid, ?Eopenrouter, ?Eollama;
    (split; [cbn [app]; reflexivity|]);
    try discriminate; try reflexivity.
  Unshelve. all: exact [].
Qed.

Lemma send_requests_in_order_witness :
  exists new chatId rest,
    trace (handleSendPrompt server (asking "Hi"))
    = trace (asking "Hi") ++ new
    /\ requests new <> []
    /\ exchange (asking "Hi") chatId
         (streamBufferRef (handleSendPrompt server (asking "Hi")))
       = requests new ++ rest
    /\ (has_chat (asking "Hi") = true ->
        currentChatId (asking "Hi") = Some chatId).
Proof.
  apply (send_requests_in_order server (asking "Hi"));
    [reflexivity|discriminate].
Defined.

Lemma split_hd (sep : code_unit) (s : jsstring) :
  exists rest,
    s = hd [] (split sep s) ++ rest
    /\ ~ In sep (hd [] (split sep s))
    /\ (rest = [] \/ exists r, rest = sep :: r).
Proof.
  induction s as [|c s IH].
  - exists []. simpl. auto.
  - simpl. destruct (c =? sep) eqn:E.
    + apply Z.eqb_eq in E. subst c. exists (sep :: s). simpl.
      split; [reflexivity|]. split; [intros []|right; eexists; reflexivity].
    + destruct IH as [rest [H1 [H2 H3]]].
      destruct (split sep s) as [|l ls] eqn:S;
        [exfalso; exact (split_not_nil sep s S)|].
      simpl in *. exists rest. split; [congruence|]. split; [|exact H3].
      intros [H|H]; [|exact (H2 H)].
      apply Z.eqb_neq in E. congruence.
Qed.

Lemma title_of_prompt (p : jsstring) :
  exists rest,
    p = slice_to 30 (hd [] (split 10 p)) ++ rest
    /\ (length (slice_to 30 (hd [] (split 10 p))) <= 30)%nat
    /\ ~ In 10 (slice_to 30 (hd [] (split 10 p)))
    /\ (length (slice_to 30 (hd [] (split 10 p))) = 30%nat
        \/ rest = [] \/ exists r, rest = 10 :: r).
Proof.
  destruct (split_hd 10 p) as [rest [H1 [H2 H3]]].
  set (line := hd [] (split 10 p)) in *. unfold slice_to.
  exists (skipn 30 line ++ rest).
  split; [rewrite app_assoc, firstn_skipn; exact H1|].
  split; [apply firstn_le_length|].
  split.
  - intros H. apply H2. rewrite <- (firstn_skipn 30 line).
    apply in_or_app. left. exact H.
  - destruct (Nat.le_gt_cases (length line) 30) as [L|L].
    + right. rewrite (skipn_all2 line L). exact H3.
    + left. apply firstn_length_le. lia.
Qed.

(** X9: when there is no current chat, the first request of
    [handleSendPrompt] creates one, titled by the start of the prompt:
    the title is a prefix of the prompt of at most 30 code units, without
    a line feed, and it is the longest such prefix (it has 30 code units,
    or the prompt ends after it, or a line feed follows it). *)
Theorem new_chat_is_titled_by_the_prompt (net : network) (w : world) :
  blank (prompt w) = false -> selectedLLM w <> [] -> has_chat w = false ->
  exists new title rest,
    trace (handleSendPrompt net w) = trace w ++ new
    /\ hd_error (requests new) = Some (CreateChat title)
    /\ prompt w = title ++ rest
    /\ (length title <= 30)%nat
    /\ ~ In 10 title
    /\ (length title = 30%nat \/ rest = [] \/ exists r, rest = 10 :: r).
Proof.
  intros Hp Hm Hc. unfold has_chat in Hc.
  destruct (title_of_prompt (prompt w)) as [rest H].
  guard_passes Hp Hm.
  destruct (isConversationStarted w) eqn:Ec;
    send_leaves; try discriminate Hc;
    streamed_facts; try subst text; trace_of_leaf;
    (eexists; eexists; exists rest; split; [reflexivity|]);
    requests_of_leaf; (split; [reflexivity|exact H]).
Qed.

Lemma new_chat_is_titled_by_the_prompt_witness :
  exists new title rest,
    trace (handleSendPrompt server (asking "Hi"))
    = trace (asking "Hi") ++ new
    /\ hd_error (requests new) = Some (CreateChat title)
    /\ prompt (asking "Hi") = title ++ rest
    /\ (length title <= 30)%nat
    /\ ~ In 10 title
    /\ (length title = 30%nat \/ rest = [] \/ exists r, rest = 10 :: r).
Proof.
  apply (new_chat_is_titled_by_the_prompt server (asking "Hi"));
    [reflexivity|discriminate|reflexivity].
Defined.

(** X10: [handleSendPrompt] only adds to what the component holds: the
    history afterwards is the history before followed by at most two
    messages, and the chats and the current chat are as they were, unless
    there was no current chat, and then at most one chat is added, at the
    front, and it becomes the current one. The chat server answers with
    the chat and the message of its routes, or with a body that cannot be
    read. *)
Theorem send_only_adds (net : network) (w : world) :
  blank (prompt w) = false -> selectedLLM w <> [] ->
  (exists added,
      chatHistory (handleSendPrompt net w) = chatHistory w ++ added
      /\ (length added <= 2)%nat)
  /\ ((chats (handleSendPrompt net w) = chats w
       /\ currentChatId (handleSendPrompt net w) = currentChatId w)
      \/ (has_chat w = false
          /\ exists newChat,
               chats (handleSendPrompt net w) = newChat :: chats w
               /\ currentChatId (handleSendPrompt net w)
                  = Some (chat_id newChat))).
Proof.
  intros Hp Hm. guard_passes Hp Hm. unfold has_chat.
  destruct (isConversationStarted w) eqn:Ec;
    send_leaves; streamed_facts; cbn; rewrite ?F6, ?F7, ?F8; cbn;
    rewrite <- ?app_assoc; rewrite ?Eid;
    (split;
     [ first [ exists []; rewrite app_nil_r; split; [reflexivity|simpl; lia]
             | eexists; split; [reflexivity|simpl; lia] ]
     | first [ left; split; reflexivity
             | right; split; [reflexivity|eexists; split; reflexivity] ] ]).
Qed.

Lemma send_only_adds_witness :
  exists added,
    chatHistory (handleSendPrompt server (asking "Hi"))
    = chatHistory (asking "Hi") ++ added
    /\ (length added <= 2)%nat.
Proof.
  apply (send_only_adds server (asking "Hi")); [reflexivity|discriminate].
Defined.




(** X12: [handleSendPrompt] completes the exchange or reports: either
    the error shown is the message of a failed send, or the error is as it
    was and the history has grown by the message of the user, followed by
    a reply exactly when the final buffer is not blank. The chat server
    answers with the chat and the message of its routes, or with a body
    that cannot be read. *)
Theorem send_completes_or_reports (net : network) (w : world) :
  blank (prompt w) = false -> selectedLLM w <> [] ->
  settingsError (handleSendPrompt net w) = failure_message
  \/ (settingsError (handleSendPrompt net w) = settingsError w
      /\ exists userMessage replies,
           chatHistory (handleSendPrompt net w)
           = chatHistory w ++ userMessage :: replies
           /\ (length replies <= 1)%nat
           /\ (replies = []
               <-> blank (streamBufferRef (handleSendPrompt net w)) = true)).
Proof.
  intros Hp Hm. guard_passes Hp Hm.
  destruct (isConversationStarted w) eqn:Ec;
    send_leaves; streamed_facts; try subst text; cbn;
    try (left; reflexivity);
    right; rewrite ?F8, ?F11; cbn; rewrite <- ?app_assoc;
    (split; [reflexivity|]);
    eexists; eexists; (split; [reflexivity|]);
    (split; [simpl; lia|]);
    rewrite ?Eblank; split; congruence.
Qed.

Lemma send_completes_or_reports_witness :
  settingsError (handleSendPrompt server (asking "Hi")) = failure_message
  \/ (settingsError (handleSendPrompt server (asking "Hi"))
      = settingsError (asking "Hi")
      /\ exists userMessage replies,
           chatHistory (handleSendPrompt server (asking "Hi"))
           = chatHistory (asking "Hi") ++ userMessage :: replies
           /\ (length replies <= 1)%nat
           /\ (replies = []
               <-> blank (streamBufferRef
                            (handleSendPrompt server (asking "Hi")))
                   = true)).
Proof.
  apply (send_completes_or_reports server (asking "Hi"));
    [reflexivity|discriminate].
Defined.

(** X13: the header after the first prompt of a conversation: when
    there is no current chat, either no chat could be created (the chats
    are as they were and the failure is reported), or the chat the server
    created is first in the list and current, and the header shows its
    title, or [New Chat] when its title is empty. The chat server answers
    with the chat and the message of its routes, or with a body that
    cannot be read. *)
Theorem header_shows_the_created_chat (net : network) (w : world) :
  blank (prompt w) = false -> selectedLLM w <> [] -> has_chat w = false ->
  (chats (handleSendPrompt net w) = chats w
   /\ settingsError (handleSendPrompt net w) = failure_message)
  \/ exists newChat,
       chats (handleSendPrompt net w) = newChat :: chats w
       /\ currentChatId (handleSendPrompt net w) = Some (chat_id newChat)
       /\ header (handleSendPrompt net w)
          = if truthy_string (chat_title newChat) then chat_title newChat
            else lit "New Chat".
Proof.
  intros Hp Hm Hc. unfold has_chat in Hc. guard_passes Hp Hm.
  destruct (isConversationStarted w) eqn:Ec;
    send_leaves; try discriminate Hc; streamed_facts;
    try (left; split; reflexivity);
    right; eexists; unfold header, Sidebar.is_current; cbn;
    rewrite ?F6, ?F7, ?F10; cbn; rewrite ?Ec, str_eqb_refl;
    repeat split; reflexivity.
Qed.

Lemma header_shows_the_created_chat_witness :
  (chats (handleSendPrompt server (asking "Hi")) = chats (asking "Hi")
   /\ settingsError (handleSendPrompt server (asking "Hi")) = failure_message)
  \/ exists newChat,
       chats (handleSendPrompt server (asking "Hi"))
       = newChat :: chats (asking "Hi")
       /\ currentChatId (handleSendPrompt server (asking "Hi"))
          = Some (chat_id newChat)
       /\ header (handleSendPrompt server (asking "Hi"))
          = if truthy_string (chat_title newChat) then chat_title newChat
            else lit "New Chat".
Proof.
  apply (header_shows_the_created_chat server (asking "Hi"));
    [reflexivity|discriminate|reflexivity].
Defined.



End SendPromptTheorems.

(* ================================================================== *)
(** ** [renderMessage] and the loading animation *)
(* ================================================================== *)

Section Rendering.

Import JS Display Cases.

Lemma text_part_app (text : jsstring) :
  match text_part text with [] => [TextPart text] | parts => parts end
  = [TextPart text].
Proof. destruct text; reflexivity. Qed.

Lemma code_block_fence (s : jsstring) :
  startsWith fence s = false -> code_block s = None.
Proof. intros H. unfold code_block. rewrite H. reflexivity. Qed.

Lemma parts_loop_plain (fuel : nat) (s : jsstring) :
  forall text,
    includes fence s = false ->
    parts_loop fuel text s = text_part (text ++ s).
Proof.
  revert s. induction fuel as [|f IH]; intros s text H; [reflexivity|].
  destruct s as [|c s]; [simpl; rewrite app_nil_r; reflexivity|].
  change (includes fence (c :: s))
    with (startsWith fence (c :: s) || includes fence s) in H.
  apply orb_false_iff in H. destruct H as [H1 H2].
  cbn [parts_loop]. rewrite (code_block_fence _ H1), (IH s _ H2).
  rewrite <- app_assoc. reflexivity.
Qed.

(** X15: a message without a fence of three grave accents is rendered
    as one block of text with the whole content, also when the content is
    empty. *)
Theorem message_without_code_is_one_text (content : jsstring) :
  includes fence content = false ->
  renderMessage content = [TextPart content].
Proof.
  intros H. unfold renderMessage. rewrite (parts_loop_plain _ _ [] H).
  apply text_part_app.
Qed.

Lemma message_without_code_is_one_text_witness :
  renderMessage (lit "Hello `x`") = [TextPart (lit "Hello `x`")].
Proof.
  apply (message_without_code_is_one_text (lit "Hello `x`")). reflexivity.
Defined.

Lemma until_fence_length (s code rest : jsstring) :
  until_fence s = Some (code, rest) -> (length rest + 3 <= length s)%nat.
Proof.
  revert code. induction s as [|c s IH]; intros code; [discriminate|].
  cbn [until_fence].
  destruct (startsWith fence (c :: s)) eqn:F.
  - intros H. injection H as _ <-.
    destruct s as [|c2 [|c3 s]]; simpl in F.
    + rewrite andb_false_r in F. discriminate.
    + rewrite !andb_false_r in F. discriminate.
    + simpl. lia.
  - destruct (until_fence s) as [[code' rest']|]; [|discriminate].
    intros H. injection H as _ <-. specialize (IH code' eq_refl).
    simpl. lia.
Qed.

Lemma take_language_length (s : jsstring) :
  (length (snd (take_language s)) <= length s)%nat.
Proof.
  induction s as [|c s IH]; simpl; [lia|].
  destruct (is_language_char c); [|simpl; lia].
  destruct (take_language s). simpl in *. lia.
Qed.

Lemma code_block_length (s language code rest : jsstring) :
  code_block s = Some (language, code, rest) ->
  (length rest < length s)%nat.
Proof.
  unfold code_block. destruct (startsWith fence s); [|discriminate].
  pose proof (take_language_length (skipn 3 s)) as L.
  destruct (take_language (skipn 3 s)) as [l r]. cbn [snd] in L.
  destruct r as [|c r]; [discriminate|].
  destruct (is_white_space c); [|discriminate].
  destruct (until_fence r) as [[code' rest']|] eqn:U; [|discriminate].
  intros H. injection H as _ _ <-.
  apply until_fence_length in U. cbn [length] in L.
  pose proof (length_skipn 3 s). lia.
Qed.

Lemma parts_loop_fuels (fuel1 : nat) :
  forall (fuel2 : nat) (s text : jsstring),
    (length s <= fuel1)%nat -> (length s <= fuel2)%nat ->
    parts_loop fuel1 text s = parts_loop fuel2 text s.
Proof.
  induction fuel1 as [|f1 IH]; intros fuel2 s text L1 L2.
  - destruct s; [|simpl in L1; lia].
    destruct fuel2; simpl; rewrite ?app_nil_r; reflexivity.
  - destruct s as [|c s].
    + destruct fuel2; simpl; rewrite ?app_nil_r; reflexivity.
    + destruct fuel2 as [|f2]; [simpl in L2; lia|].
      simpl in L1, L2. cbn [parts_loop].
      destruct (code_block (c :: s)) as [[[language code] rest]|] eqn:B.
      * apply code_block_length in B. simpl in B.
        rewrite (IH f2 rest []) by lia. reflexivity.
      * apply IH; lia.
Qed.

Lemma parts_loop_fuel (fuel : nat) (s text : jsstring) :
  (length s <= fuel)%nat ->
  parts_loop fuel text s = parts_loop (length s) text s.
Proof. intros L. apply parts_loop_fuels; [exact L|lia]. Qed.

Lemma is_language_char_not_space (c : code_unit) :
  is_language_char c = true -> is_white_space c = false.
Proof.
  unfold is_language_char, is_word, is_white_space. intros H.
  repeat match goal with
         | H : (_ || _) = true |- _ => apply orb_true_iff in H; destruct H as [H|H]
         | H : (_ && _) = true |- _ => apply andb_true_iff in H; destruct H
         | H : (_ <=? _) = true |- _ => apply Z.leb_le in H
         | H : (_ =? _) = true |- _ => apply Z.eqb_eq in H
         end;
  repeat match goal with
         | |- (_ || _) = false => apply orb_false_iff; split
         | |- (_ && _) = false => apply andb_false_iff
         end;
  try (apply Z.eqb_neq; lia);
  first [left; apply Z.leb_gt; lia | right; apply Z.leb_gt; lia].
Qed.

Lemma take_language_app (language rest : jsstring) :
  forallb is_language_char language = true ->
  match rest with c :: _ => is_language_char c = false | [] => True end ->
  take_language (language ++ rest) = (language, rest).
Proof.
  intros H R. induction language as [|c language IH]; simpl.
  - destruct rest as [|c rest]; [reflexivity|]. simpl. rewrite R. reflexivity.
  - simpl in H. apply andb_true_iff in H. destruct H as [H1 H2].
    rewrite H1, (IH H2). reflexivity.
Qed.

Lemma until_fence_app (code after : jsstring) :
  ~ In 96 code -> until_fence (code ++ fence ++ after) = Some (code, after).
Proof.
  induction code as [|c code IH]; intros H; [reflexivity|].
  change ((c :: code) ++ fence ++ after) with (c :: code ++ fence ++ after).
  cbn [until_fence].
  assert (E : startsWith fence (c :: code ++ fence ++ after) = false).
  { change (startsWith fence (c :: ?x))
      with ((96 =? c) && startsWith [96; 96] x).
    destruct (96 =? c) eqn:E; [|reflexivity].
    apply Z.eqb_eq in E. exfalso. apply H. left. congruence. }
  rewrite E, IH; [reflexivity|].
  intros H'. apply H. right. exact H'.
Qed.

Lemma trim_language (language : jsstring) :
  forallb is_language_char language = true -> trim language = language.
Proof.
  intros H. unfold trim.
  assert (D : forall s, forallb is_language_char s = true ->
                        drop_white_space s = s).
  { intros [|c s] Hs; [reflexivity|]. simpl in *.
    apply andb_true_iff in Hs. destruct Hs as [Hc _].
    rewrite (is_language_char_not_space c Hc). reflexivity. }
  rewrite (D language H), D, rev_involutive; [reflexivity|].
  rewrite forallb_rev. exact H.
Qed.

Lemma parts_loop_before (fuel : nat) (before s : jsstring) :
  forall text,
    ~ In 96 before ->
    parts_loop (length before + fuel) text (before ++ s)
    = parts_loop fuel (text ++ before) s.
Proof.
  induction before as [|c before IH]; intros text H.
  - simpl. rewrite app_nil_r. reflexivity.
  - change (length (c :: before) + fuel)%nat
      with (S (length before + fuel)).
    change ((c :: before) ++ s) with (c :: before ++ s).
    cbn [parts_loop]. rewrite code_block_fence.
    + rewrite IH; [|intros H'; apply H; right; exact H'].
      rewrite <- app_assoc. reflexivity.
    + change (startsWith fence (c :: ?x))
        with ((96 =? c) && startsWith [96; 96] x).
      destruct (96 =? c) eqn:E; [|reflexivity].
      apply Z.eqb_eq in E. exfalso. apply H. left. congruence.
Qed.

(** X16: a fenced block is rendered as a code block: a content made of
    a text without grave accents, a fence, a language of word characters
    and hyphens, one white-space character, a code without grave accents,
    a fence, and the rest, is rendered as the text (when it is not
    empty), then the code block with that language ([text] when none is
    given) and the code without the line feeds at its ends, then the
    parts of the rest. *)
Theorem fenced_code_is_a_code_block (before language code after : jsstring)
  (space : code_unit) :
  ~ In 96 before ->
  forallb is_language_char language = true ->
  is_white_space space = true ->
  ~ In 96 code ->
  renderMessage
    (before ++ fence ++ language ++ space :: code ++ fence ++ after)
  = text_part before
      ++ CodePart (if truthy_string language then language else lit "text")
           (strip_newlines code)
         :: parts_loop (length after) [] after.
Proof.
  intros Hb Hl Hs Hc. unfold renderMessage.
  set (block := fence ++ language ++ space :: code ++ fence ++ after).
  assert (B : code_block block = Some (language, code, after)).
  { unfold code_block, block.
    change (startsWith fence (fence ++ ?x)) with true. cbn iota.
    change (skipn 3 (fence ++ ?x)) with x.
    rewrite take_language_app; [|exact Hl|].
    - rewrite Hs, (until_fence_app code after Hc). reflexivity.
    - destruct (is_language_char space) eqn:E; [|reflexivity].
      apply is_language_char_not_space in E. congruence. }
  assert (L : (length after < length block)%nat)
    by exact (code_block_length _ _ _ _ B).
  rewrite length_app.
  rewrite (parts_loop_before (length block) before block [] Hb).
  destruct block as [|c block'] eqn:Eb; [discriminate|].
  change (length (c :: block')) with (S (length block')).
  cbn [parts_loop]. rewrite B.
  rewrite (parts_loop_fuel (length block') after []) by (simpl in L; lia).
  unfold language_of. rewrite (trim_language language Hl).
  simpl app.
  destruct (text_part before); reflexivity.
Qed.

Lemma fenced_code_is_a_code_block_witness :
  renderMessage answer_with_code
  = [TextPart (lit "See: "); CodePart (lit "js") (lit "let x;");
     TextPart (lit " done")].
Proof.
  apply (fenced_code_is_a_code_block (lit "See: ") (lit "js") (lit "let x;")
           (lit " done") 10).
  - vm_compute. intuition discriminate.
  - reflexivity.
  - reflexivity.
  - vm_compute. intuition discriminate.
Defined.

Lemma drop_newlines_head (s : jsstring) : hd_error (drop_newlines s) <> Some 10.
Proof.
  induction s as [|c s IH]; simpl; [discriminate|].
  destruct (c =? 10) eqn:E; [exact IH|].
  simpl. apply Z.eqb_neq in E. congruence.
Qed.

Lemma drop_newlines_suffix (s : jsstring) :
  exists pre, s = pre ++ drop_newlines s.
Proof.
  induction s as [|c s [pre IH]]; [exists []; reflexivity|].
  simpl. destruct (c =? 10); [|exists []; reflexivity].
  exists (c :: pre). simpl. congruence.
Qed.

Lemma strip_newlines_ends (code : jsstring) :
  hd_error (strip_newlines code) <> Some 10
  /\ hd_error (rev (strip_newlines code)) <> Some 10.
Proof.
  unfold strip_newlines. rewrite rev_involutive.
  split; [|apply drop_newlines_head].
  pose proof (drop_newlines_head code) as H.
  destruct (drop_newlines_suffix (rev (drop_newlines code))) as [pre E].
  apply (f_equal (@rev Z)) in E. rewrite rev_involutive, rev_app_distr in E.
  destruct (rev (drop_newlines (rev (drop_newlines code)))) as [|c r];
    [discriminate|].
  rewrite E in H. exact H.
Qed.

Lemma language_of_not_empty (group : jsstring) : language_of group <> [].
Proof.
  unfold language_of. destruct (trim group); simpl; discriminate.
Qed.

Lemma text_part_shown (text : jsstring) : Forall shown (text_part text).
Proof.
  destruct text; simpl; constructor; [discriminate|constructor].
Qed.

Lemma parts_loop_shown (fuel : nat) :
  forall text s, Forall shown (parts_loop fuel text s).
Proof.
  induction fuel as [|f IH]; intros text s; [apply text_part_shown|].
  destruct s as [|c s]; [apply text_part_shown|].
  cbn [parts_loop].
  destruct (code_block (c :: s)) as [[[language code] rest]|]; [|apply IH].
  apply Forall_app. split; [apply text_part_shown|].
  constructor; [|apply IH].
  split; [apply language_of_not_empty|apply strip_newlines_ends].
Qed.

Lemma parts_loop_nil (fuel : nat) :
  forall text s, parts_loop fuel text s = [] -> text = [] /\ s = [].
Proof.
  induction fuel as [|f IH]; intros text s.
  - simpl. destruct (text ++ s) eqn:E; [|discriminate].
    intros _. apply app_eq_nil in E. exact E.
  - destruct s as [|c s].
    + simpl. destruct text; [auto|discriminate].
    + cbn [parts_loop].
      destruct (code_block (c :: s)) as [[[language code] rest]|].
      * intros H. apply app_eq_nil in H. destruct H as [_ H]. discriminate.
      * intros H. apply IH in H. destruct H as [H _].
        apply app_eq_nil in H. destruct H as [_ H]. discriminate.
Qed.

(** X17: [renderMessage] never returns an empty list, and for a content
    that is not empty every part shows something: no block of text is
    empty, every code block has a language, and no code starts or ends
    with a line feed. The empty content is rendered as one empty block of
    text. *)
Theorem rendered_parts_show_something (content : jsstring) :
  renderMessage content <> []
  /\ (content <> [] -> Forall shown (renderMessage content))
  /\ (content = [] -> renderMessage content = [TextPart []]).
Proof.
  unfold renderMessage.
  pose proof (parts_loop_shown (length content) [] content) as S.
  pose proof (parts_loop_nil (length content) [] content) as N.
  destruct (parts_loop (length content) [] content) as [|p parts] eqn:E.
  - destruct (N eq_refl) as [_ ->].
    split; [discriminate|]. split; [congruence|reflexivity].
  - split; [discriminate|]. split; [intros _; exact S|].
    intros ->. discriminate E.
Qed.

Lemma next_dots_repeat (k : nat) :
  (k <= 6)%nat -> next_dots (repeat 46 k) = repeat 46 (S k mod 7).
Proof.
  intros H. unfold next_dots. rewrite repeat_length.
  destruct k as [|[|[|[|[|[|[|k]]]]]]]; try reflexivity. lia.
Qed.

(** X18: the loading animation cycles with period seven: from [k] dots
    (at most six), [n] ticks of the interval leave [(k + n) mod 7] dots,
    so there are never more than six. *)
Theorem loading_dots_cycle (n k : nat) :
  (k <= 6)%nat ->
  dots_after n (repeat 46 k) = repeat 46 ((k + n) mod 7).
Proof.
  revert k. induction n as [|n IH]; intros k H.
  - rewrite Nat.add_0_r, Nat.mod_small by lia. reflexivity.
  - cbn [dots_after]. rewrite (next_dots_repeat k H).
    pose proof (Nat.mod_upper_bound (S k) 7 ltac:(lia)) as B.
    rewrite IH by lia.
    rewrite Nat.Div0.add_mod_idemp_l.
    replace (S k + n)%nat with (k + S n)%nat by lia. reflexivity.
Qed.

Lemma loading_dots_cycle_witness : dots_after 10 (lit "..") = lit ".....".
Proof. apply (loading_dots_cycle 10 2). lia. Defined.

End Rendering.

(* ================================================================== *)
(** ** The server *)
(* ================================================================== *)

Section ServerLemmas.

Import JS JSON Server.

Lemma str_eqb_sym (a b : jsstring) : str_eqb a b = str_eqb b a.
Proof.
  revert b. induction a as [|x a IH]; intros [|y b]; try reflexivity.
  simpl. rewrite IH, Z.eqb_sym. reflexivity.
Qed.

Lemma str_eqb_neq (a b : jsstring) : str_eqb a b = false <-> a <> b.
Proof.
  split.
  - intros H E. apply str_eqb_eq in E. congruence.
  - intros H. destruct (str_eqb a b) eqn:E; [|reflexivity].
    apply str_eqb_eq in E. contradiction.
Qed.

Lemma In_insert_by {A} (le : A -> A -> bool) (x y : A) (l : list A) :
  In y (insert_by le x l) <-> y = x \/ In y l.
Proof.
  induction l as [|z l IH]; simpl; [intuition congruence|].
  destruct (le x z); simpl; [intuition congruence|].
  rewrite IH. intuition.
Qed.

Lemma In_sort_by {A} (le : A -> A -> bool) (y : A) (l : list A) :
  In y (sort_by le l) <-> In y l.
Proof.
  induction l as [|x l IH]; simpl; [reflexivity|].
  rewrite In_insert_by, IH. intuition congruence.
Qed.

Lemma insert_by_last {A} (le : A -> A -> bool) (y x : A) (l : list A) :
  le y x = true -> insert_by le y (l ++ [x]) = insert_by le y l ++ [x].
Proof.
  intros H. induction l as [|z l IH]; simpl; [rewrite H; reflexivity|].
  destruct (le y z); [reflexivity|]. rewrite IH. reflexivity.
Qed.

Lemma sort_by_last {A} (le : A -> A -> bool) (x : A) (l : list A) :
  (forall y, In y l -> le y x = true) ->
  sort_by le (l ++ [x]) = sort_by le l ++ [x].
Proof.
  induction l as [|z l IH]; intros H; [reflexivity|].
  simpl. rewrite IH by (intros y Hy; apply H; right; exact Hy).
  apply insert_by_last. apply H. left. reflexivity.
Qed.

End ServerLemmas.

Section Sorting.

Import Server.

Context {A : Type} (le : A -> A -> bool).
Hypothesis le_trans :
  forall a b c, le a b = true -> le b c = true -> le a c = true.
Hypothesis le_total : forall a b, le a b = false -> le b a = true.

Lemma insert_by_first (x : A) (l : list A) :
  (forall y, In y l -> le x y = true) -> insert_by le x l = x :: l.
Proof.
  destruct l as [|y l]; intros H; [reflexivity|].
  simpl. rewrite H by (left; reflexivity). reflexivity.
Qed.

Lemma insert_by_sorted (x : A) (l : list A) :
  sorted le l -> sorted le (insert_by le x l).
Proof.
  induction l as [|y l IH]; intros S; simpl.
  - split; [intros y []|exact I].
  - destruct S as [S1 S2]. destruct (le x y) eqn:L.
    + split; [|split; assumption].
      intros z [<-|Hz]; [exact L|].
      apply (le_trans x y z L). apply S1. exact Hz.
    + split; [|apply IH; exact S2].
      intros z Hz. apply In_insert_by in Hz. destruct Hz as [->|Hz].
      * apply le_total. exact L.
      * apply S1. exact Hz.
Qed.

Lemma sort_by_sorted (l : list A) : sorted le (sort_by le l).
Proof.
  induction l as [|x l IH]; [exact I|].
  simpl. apply insert_by_sorted. exact IH.
Qed.

Lemma filter_insert_by (p : A -> bool) (x : A) (l : list A) :
  sorted le l ->
  filter p (insert_by le x l)
  = if p x then insert_by le x (filter p l) else filter p l.
Proof.
  induction l as [|y l IH]; intros S.
  - simpl. destruct (p x); reflexivity.
  - destruct S as [S1 S2]. simpl. destruct (le x y) eqn:L.
    + simpl. destruct (p x) eqn:Px; [|reflexivity].
      rewrite insert_by_first; [reflexivity|].
      intros z Hz. destruct (p y).
      * destruct Hz as [<-|Hz]; [exact L|].
        apply filter_In in Hz. destruct Hz as [Hz _].
        apply (le_trans x y z L). apply S1. exact Hz.
      * apply filter_In in Hz. destruct Hz as [Hz _].
        apply (le_trans x y z L). apply S1. exact Hz.
    + simpl. rewrite (IH S2).
      destruct (p x), (p y); simpl; rewrite ?L; reflexivity.
Qed.

Lemma filter_sort_by (p : A -> bool) (l : list A) :
  filter p (sort_by le l) = sort_by le (filter p l).
Proof.
  induction l as [|x l IH]; [reflexivity|].
  simpl. rewrite filter_insert_by by apply sort_by_sorted.
  rewrite IH. destruct (p x); reflexivity.
Qed.

End Sorting.

Section Orders.

Import Server.

Lemma oldest_first_trans (a b c : Message) :
  oldest_first a b = true -> oldest_first b c = true ->
  oldest_first a c = true.
Proof. unfold oldest_first. rewrite !Z.leb_le. lia. Qed.

Lemma oldest_first_total (a b : Message) :
  oldest_first a b = false -> oldest_first b a = true.
Proof. unfold oldest_first. rewrite Z.leb_le, Z.leb_gt. lia. Qed.

Lemma latest_first_trans (a b c : Chat) :
  latest_first a b = true -> latest_first b c = true ->
  latest_first a c = true.
Proof. unfold latest_first. rewrite !Z.leb_le. lia. Qed.

Lemma latest_first_total (a b : Chat) :
  latest_first a b = false -> latest_first b a = true.
Proof. unfold latest_first. rewrite Z.leb_le, Z.leb_gt. lia. Qed.

End Orders.

Section ServerTheorems.

Import JS JSON Server Cases.

Lemma is_chat_same_id (id : jsstring) (c c' : Chat) :
  chat_id c = chat_id c' -> is_chat id c = is_chat id c'.
Proof. unfold is_chat. intros ->. reflexivity. Qed.

Lemma existsb_is_chat (id : jsstring) (l : list Chat) :
  existsb (is_chat id) l = existsb (str_eqb id) (map chat_id l).
Proof.
  induction l as [|c l IH]; [reflexivity|].
  simpl. rewrite IH. unfold is_chat. rewrite str_eqb_sym. reflexivity.
Qed.

Lemma distinct_snoc (ids : list jsstring) (id : jsstring) :
  distinct (ids ++ [id])
  = distinct ids && negb (existsb (str_eqb id) ids).
Proof.
  induction ids as [|x ids IH]; simpl; [reflexivity|].
  rewrite IH, existsb_app. simpl.
  rewrite (str_eqb_sym id x).
  destruct (existsb (str_eqb x) ids), (str_eqb x id), (distinct ids),
    (existsb (str_eqb id) ids); reflexivity.
Qed.

Lemma existsb_filter {A} (p q : A -> bool) (l : list A) :
  existsb p (filter q l) = existsb (fun x => p x && q x) l.
Proof.
  induction l as [|x l IH]; [reflexivity|].
  simpl. destruct (q x); simpl; rewrite IH, ?andb_true_r, ?andb_false_r;
    reflexivity.
Qed.

Lemma existsb_implies {A} (p q : A -> bool) (l : list A) :
  (forall x, p x = true -> q x = true) ->
  existsb p l = true -> existsb q l = true.
Proof.
  intros H. rewrite !existsb_exists. intros [x [H1 H2]].
  exists x. split; [exact H1|apply H; exact H2].
Qed.

Lemma distinct_filter {A} (f : A -> jsstring) (p : A -> bool) (l : list A) :
  distinct (map f l) = true -> distinct (map f (filter p l)) = true.
Proof.
  induction l as [|x l IH]; [reflexivity|].
  simpl. intros H. apply andb_true_iff in H. destruct H as [H1 H2].
  destruct (p x); [|exact (IH H2)].
  simpl. rewrite (IH H2), andb_true_r.
  apply negb_true_iff. apply negb_true_iff in H1.
  destruct (existsb (str_eqb (f x)) (map f (filter p l))) eqn:E;
    [|reflexivity].
  rewrite <- H1. symmetry.
  apply existsb_exists. apply existsb_exists in E.
  destruct E as [y [Hy1 Hy2]]. exists y. split; [|exact Hy2].
  apply in_map_iff in Hy1. destruct Hy1 as [z [<- Hz]].
  apply filter_In in Hz. apply in_map. tauto.
Qed.

Lemma map_touch_ids (id : jsstring) (date : Z) (l : list Chat) :
  map chat_id (map (touch id date) l) = map chat_id l.
Proof.
  rewrite map_map. apply map_ext. intros c. unfold touch.
  destruct (is_chat id c); reflexivity.
Qed.

Lemma referential_ids (chats chats' : list Chat) (messages : list Message) :
  map chat_id chats = map chat_id chats' ->
  referential (mkDatabase chats messages)
  = referential (mkDatabase chats' messages).
Proof.
  intros H. unfold referential. simpl.
  induction messages as [|m l IH]; [reflexivity|].
  simpl. rewrite IH, !existsb_is_chat, H. reflexivity.
Qed.

Lemma post_chat_consistent (uuid : jsstring) (now : Z) (body : json)
  (db : database) :
  consistent db = true -> consistent (fst (post_chat uuid now body db)) = true.
Proof.
  intros C. unfold post_chat.
  destruct (get (Value body) (lit "title")) as [given|]; [|exact C].
  destruct (if truthy given then given else Value (JString (lit "New Chat")))
    as [|[| | |title| |]]; try exact C.
  destruct (existsb (is_chat uuid) (chat_table db)) eqn:F; [exact C|].
  unfold consistent in *. simpl.
  apply andb_true_iff in C. destruct C as [C C3].
  apply andb_true_iff in C. destruct C as [C1 C2].
  rewrite C3, andb_true_r, map_app. cbn [map chat_id].
  rewrite distinct_snoc, C2, <- existsb_is_chat, F. simpl.
  rewrite andb_true_r.
  unfold referential in *. simpl.
  rewrite forallb_forall in *. intros m Hm.
  rewrite existsb_app, (C1 m Hm). reflexivity.
Qed.

Lemma post_message_consistent (uuid : jsstring) (now date : Z)
  (id : jsstring) (body : json) (db : database) :
  consistent db = true ->
  consistent (fst (post_message uuid now date id body db)) = true.
Proof.
  intros C. unfold post_message.
  destruct (get (Value body) (lit "content")) as [[|[| | |content| |]]|];
    try exact C.
  destruct (get (Value body) (lit "role")) as [[|[| | |role| |]]|];
    try exact C.
  destruct (existsb (is_chat id) (chat_table db)) eqn:F1; [|exact C].
  destruct (existsb (fun m => str_eqb (message_id m) uuid) (message_table db))
    eqn:F2; [exact C|].
  unfold consistent in *. simpl.
  apply andb_true_iff in C. destruct C as [C C3].
  apply andb_true_iff in C. destruct C as [C1 C2].
  rewrite map_touch_ids, C2, map_app. cbn [map message_id].
  rewrite distinct_snoc, C3. simpl. rewrite andb_true_r.
  assert (E : existsb (str_eqb uuid) (map message_id (message_table db))
              = false).
  { rewrite <- F2. clear. induction (message_table db) as [|m l IH];
      [reflexivity|]. simpl. rewrite IH, str_eqb_sym. reflexivity. }
  rewrite E. simpl. rewrite andb_true_r.
  rewrite (referential_ids _ (chat_table db)) by apply map_touch_ids.
  unfold referential in *. simpl. rewrite forallb_app, C1. simpl.
  rewrite F1. reflexivity.
Qed.

Lemma delete_chat_consistent (id : jsstring) (db : database) :
  consistent db = true -> consistent (fst (delete_chat id db)) = true.
Proof.
  intros C. unfold delete_chat.
  destruct (existsb (is_chat id) (chat_table db)); [|exact C].
  unfold consistent in *. simpl.
  apply andb_true_iff in C. destruct C as [C C3].
  apply andb_true_iff in C. destruct C as [C1 C2].
  rewrite (distinct_filter chat_id _ _ C2), (distinct_filter message_id _ _ C3).
  rewrite !andb_true_r.
  unfold referential in *. simpl. rewrite forallb_forall in *.
  intros m Hm. apply filter_In in Hm. destruct Hm as [Hm Hd].
  specialize (C1 m Hm). rewrite existsb_filter.
  revert C1. apply existsb_implies. intros c Hc. rewrite Hc. simpl.
  unfold is_chat in *. apply str_eqb_eq in Hc. rewrite Hc. exact Hd.
Qed.

(** X19: every request keeps the database consistent: if every message
    belongs to a chat of the table and no two rows of a table have the
    same [id], the same holds after the request, whether the route
    answers or fails. *)
Theorem requests_keep_the_database_consistent (db : database) (r : request) :
  consistent db = true -> consistent (serve db r) = true.
Proof.
  intros C. destruct r; simpl;
    [exact C|apply post_chat_consistent; exact C|exact C
    |apply post_message_consistent; exact C
    |apply delete_chat_consistent; exact C].
Qed.

Lemma requests_keep_the_database_consistent_witness :
  consistent (serve library (DeleteChat (lit "c1"))) = true.
Proof.
  apply (requests_keep_the_database_consistent library (DeleteChat (lit "c1"))).
  reflexivity.
Defined.

Lemma filter_of_other_chat (id id' : jsstring) (l : list Message) :
  id' <> id ->
  filter (of_chat id') (filter (fun m => negb (of_chat id m)) l)
  = filter (of_chat id') l.
Proof.
  intros H. induction l as [|m l IH]; [reflexivity|].
  cbn [filter].
  destruct (of_chat id m) eqn:E1; destruct (of_chat id' m) eqn:E2;
    cbn [negb filter]; rewrite ?E2, ?IH; try reflexivity.
  unfold of_chat in *. apply str_eqb_eq in E1, E2. congruence.
Qed.

Lemma filter_of_deleted_chat (id : jsstring) (l : list Message) :
  filter (of_chat id) (filter (fun m => negb (of_chat id m)) l) = [].
Proof.
  induction l as [|m l IH]; [reflexivity|].
  simpl. destruct (of_chat id m) eqn:E; simpl; rewrite ?E; exact IH.
Qed.

Lemma map_filter_fst {A B} (f : A -> B) (q : A -> bool) (l : list A) :
  filter (fun p => q (fst p)) (map (fun c => (c, f c)) l)
  = map (fun c => (c, f c)) (filter q l).
Proof.
  induction l as [|c l IH]; [reflexivity|].
  simpl. destruct (q c); simpl; rewrite IH; reflexivity.
Qed.

Lemma delete_chat_accepted (id : jsstring) (db : database) :
  existsb (is_chat id) (chat_table db) = true ->
  delete_chat id db
  = (mkDatabase (filter (fun c => negb (is_chat id c)) (chat_table db))
       (filter (fun m => negb (of_chat id m)) (message_table db)),
     Json tt).
Proof. intros H. unfold delete_chat. rewrite H. reflexivity. Qed.

Lemma delete_chat_refused (id : jsstring) (db : database) :
  existsb (is_chat id) (chat_table db) = false ->
  delete_chat id db = (db, Failure (lit "Failed to delete chat")).
Proof. intros H. unfold delete_chat. rewrite H. reflexivity. Qed.

Lemma messages_of_deleted (id : jsstring) (db : database) :
  messages_of
    (mkDatabase (filter (fun c => negb (is_chat id c)) (chat_table db))
       (filter (fun m => negb (of_chat id m)) (message_table db))) id
  = [].
Proof.
  unfold messages_of. cbn [message_table].
  rewrite filter_of_deleted_chat. reflexivity.
Qed.

(** X20: deleting a chat that exists succeeds, and afterwards the
    chat has no messages, the messages of every other chat are listed as
    before, and the list of the chats is the list before without that
    chat. *)
Theorem deleted_chat_and_its_messages_are_gone (id : jsstring)
  (db : database) :
  existsb (is_chat id) (chat_table db) = true ->
  snd (delete_chat id db) = Json tt
  /\ get_messages (fst (delete_chat id db)) id = Json []
  /\ (forall id',
         id' <> id ->
         get_messages (fst (delete_chat id db)) id' = get_messages db id')
  /\ get_chats (fst (delete_chat id db))
     = Json (filter (fun p => negb (is_chat id (fst p))) (all_chats db)).
Proof.
  intros H. rewrite (delete_chat_accepted id db H). cbn [fst snd].
  split; [reflexivity|].
  split; [unfold get_messages; rewrite messages_of_deleted; reflexivity|].
  unfold get_messages, get_chats, all_chats, messages_of.
  cbn [message_table chat_table].
  split.
  - intros id' N. rewrite (filter_of_other_chat id id' _ N). reflexivity.
  - f_equal.
    rewrite (map_filter_fst
               (fun c => sort_by oldest_first
                           (filter (of_chat (chat_id c)) (message_table db)))
               (fun c => negb (is_chat id c))).
    rewrite (filter_sort_by latest_first latest_first_trans latest_first_total).
    apply map_ext_in. intros c Hc. f_equal. f_equal.
    apply In_sort_by, filter_In in Hc. destruct Hc as [_ Hc].
    apply filter_of_other_chat.
    unfold is_chat in Hc. apply negb_true_iff, str_eqb_neq in Hc. exact Hc.
Qed.

Lemma deleted_chat_and_its_messages_are_gone_witness :
  snd (delete_chat (lit "c1") library) = Json tt
  /\ get_messages (fst (delete_chat (lit "c1") library)) (lit "c1") = Json [].
Proof.
  pose proof (deleted_chat_and_its_messages_are_gone (lit "c1") library
                eq_refl) as H.
  split; apply H.
Defined.

Lemma filter_of_chat_snoc (id id' : jsstring) (m : Message)
  (l : list Message) :
  message_chatId m = id ->
  filter (of_chat id') (l ++ [m])
  = filter (of_chat id') l ++ (if str_eqb id id' then [m] else []).
Proof.
  intros <-. rewrite filter_app. reflexivity.
Qed.

Lemma post_message_accepted (uuid : jsstring) (now date : Z) (id : jsstring)
  (body : json) (db : database) (content role : jsstring) :
  get (Value body) (lit "content") = Normal (Value (JString content)) ->
  get (Value body) (lit "role") = Normal (Value (JString role)) ->
  existsb (is_chat id) (chat_table db) = true ->
  existsb (fun m => str_eqb (message_id m) uuid) (message_table db) = false ->
  post_message uuid now date id body db
  = (mkDatabase (map (touch id date) (chat_table db))
       (message_table db ++ [mkMessage uuid content role now id]),
     Json (mkMessage uuid content role now id)).
Proof.
  intros H1 H2 H3 H4. unfold post_message. rewrite H1, H2, H3, H4.
  reflexivity.
Qed.

Lemma post_message_listed (uuid : jsstring) (now date : Z) (id : jsstring)
  (db : database) (content role : jsstring) :
  (forall m, In m (message_table db) -> message_chatId m = id ->
             message_createdAt m <= now) ->
  messages_of
    (mkDatabase (map (touch id date) (chat_table db))
       (message_table db ++ [mkMessage uuid content role now id])) id
  = messages_of db id ++ [mkMessage uuid content role now id].
Proof.
  intros H. unfold messages_of. cbn [message_table].
  rewrite (filter_of_chat_snoc id id) by reflexivity.
  rewrite str_eqb_refl. apply sort_by_last.
  intros m Hm. apply filter_In in Hm. destruct Hm as [Hm Hc].
  unfold oldest_first. cbn [message_createdAt]. apply Z.leb_le.
  apply H; [exact Hm|]. apply str_eqb_eq. exact Hc.
Qed.

(** X21: a message posted to a chat that exists (with strings as
    content and role, and an [id] that is not taken) is answered with
    the row created; when no message of the chat is younger, it is listed
    last among the messages of the chat, after those that were there, and
    the messages of every other chat are listed as before. *)
Theorem posted_message_is_listed_last (uuid : jsstring) (now date : Z)
  (id : jsstring) (body : json) (db : database) (content role : jsstring) :
  get (Value body) (lit "content") = Normal (Value (JString content)) ->
  get (Value body) (lit "role") = Normal (Value (JString role)) ->
  existsb (is_chat id) (chat_table db) = true ->
  existsb (fun m => str_eqb (message_id m) uuid) (message_table db) = false ->
  (forall m, In m (message_table db) -> message_chatId m = id ->
             message_createdAt m <= now) ->
  snd (post_message uuid now date id body db)
  = Json (mkMessage uuid content role now id)
  /\ get_messages (fst (post_message uuid now date id body db)) id
     = Json (messages_of db id ++ [mkMessage uuid content role now id])
  /\ (forall id',
         id' <> id ->
         get_messages (fst (post_message uuid now date id body db)) id'
         = get_messages db id').
Proof.
  intros H1 H2 H3 H4 H5.
  rewrite (post_message_accepted uuid now date id body db content role
             H1 H2 H3 H4).
  cbn [fst snd]. split; [reflexivity|]. unfold get_messages.
  split; [rewrite post_message_listed by exact H5; reflexivity|].
  intros id' N. unfold messages_of. cbn [message_table].
  rewrite (filter_of_chat_snoc id id') by reflexivity.
  assert (E : str_eqb id id' = false) by (apply str_eqb_neq; congruence).
  rewrite E, app_nil_r. reflexivity.
Qed.

Lemma posted_message_is_listed_last_witness :
  get_messages (fst (post_message (lit "m3") 6 7 (lit "c1") question library))
    (lit "c1")
  = Json (messages_of library (lit "c1")
            ++ [mkMessage (lit "m3") (lit "Why?") (lit "user") 6 (lit "c1")]).
Proof.
  apply (posted_message_is_listed_last (lit "m3") 6 7 (lit "c1") question
           library (lit "Why?") (lit "user")).
  - reflexivity.
  - reflexivity.
  - reflexivity.
  - reflexivity.
  - intros m [<-|[<-|[]]] _; simpl; lia.
Defined.

Lemma sort_by_head {A} (le : A -> A -> bool) (p : A -> bool) (l : list A) :
  (forall a b, le a b = false -> le b a = true) ->
  (forall x y, In x l -> In y l -> p x = true -> p y = false ->
               le y x = false) ->
  existsb p l = true ->
  exists h rest, sort_by le l = h :: rest /\ p h = true.
Proof.
  intros total. induction l as [|z l IH]; intros H E; [discriminate|].
  simpl in E. cbn [sort_by fold_right]. fold (sort_by le l).
  destruct (existsb p l) eqn:El.
  - destruct IH as [h [rest [S Ph]]];
      [intros x y Hx Hy; apply H; right; assumption|reflexivity|].
    rewrite S. simpl. destruct (le z h) eqn:L.
    + exists z, (h :: rest). split; [reflexivity|].
      destruct (p z) eqn:Pz; [reflexivity|].
      assert (Hh : In h (z :: l)).
      { right. apply (In_sort_by le). rewrite S. left. reflexivity. }
      rewrite (H h z Hh (or_introl eq_refl) Ph Pz) in L. discriminate.
    + exists h, (insert_by le z rest). split; [reflexivity|exact Ph].
  - rewrite orb_false_r in E.
    exists z, (sort_by le l). split; [|exact E].
    apply insert_by_first. intros y Hy. apply In_sort_by in Hy.
    apply total. apply H; [left; reflexivity|right; exact Hy|exact E|].
    destruct (p y) eqn:Py; [|reflexivity].
    rewrite <- El. symmetry. apply existsb_exists. exists y. tauto.
Qed.

(** X22: the chat a message is posted to is listed first: when the
    date of the request is later than the last update of every chat, the
    list of the chats starts with that chat, updated at that date, with
    its messages ending with the new one. *)
Theorem chat_of_the_posted_message_is_listed_first (uuid : jsstring)
  (now date : Z) (id : jsstring) (body : json) (db : database)
  (content role : jsstring) :
  get (Value body) (lit "content") = Normal (Value (JString content)) ->
  get (Value body) (lit "role") = Normal (Value (JString role)) ->
  existsb (is_chat id) (chat_table db) = true ->
  existsb (fun m => str_eqb (message_id m) uuid) (message_table db) = false ->
  (forall m, In m (message_table db) -> message_chatId m = id ->
             message_createdAt m <= now) ->
  (forall c, In c (chat_table db) -> chat_updatedAt c < date) ->
  exists chat rest,
    get_chats (fst (post_message uuid now date id body db))
    = Json ((chat, messages_of db id ++ [mkMessage uuid content role now id])
            :: rest)
    /\ chat_id chat = id
    /\ chat_updatedAt chat = date.
Proof.
  intros H1 H2 H3 H4 H5 H6.
  rewrite (post_message_accepted uuid now date id body db content role
             H1 H2 H3 H4).
  cbn [fst]. unfold get_chats, all_chats. cbn [chat_table].
  destruct (sort_by_head latest_first
              (fun c => is_chat id c && (chat_updatedAt c =? date))
              (map (touch id date) (chat_table db)) latest_first_total)
    as [h [rest [S Ph]]].
  - intros x y Hx Hy Px Py.
    apply andb_true_iff in Px. destruct Px as [_ Px]. apply Z.eqb_eq in Px.
    unfold latest_first. rewrite Px. apply Z.leb_gt.
    apply in_map_iff in Hy. destruct Hy as [c [<- Hc]].
    unfold touch in *. destruct (is_chat id c) eqn:E.
    + unfold is_chat in *. cbn in Py. rewrite E, Z.eqb_refl in Py.
      discriminate.
    + apply H6. exact Hc.
  - apply existsb_exists in H3. destruct H3 as [c [Hc Ec]].
    apply existsb_exists. exists (touch id date c).
    split; [apply in_map; exact Hc|].
    unfold touch. rewrite Ec. unfold is_chat in *. cbn.
    rewrite Ec, Z.eqb_refl. reflexivity.
  - apply andb_true_iff in Ph. destruct Ph as [Ph1 Ph2].
    unfold is_chat in Ph1. apply str_eqb_eq in Ph1. apply Z.eqb_eq in Ph2.
    exists h. eexists. rewrite S. cbn [map]. rewrite Ph1.
    rewrite post_message_listed by exact H5.
    split; [reflexivity|]. split; [reflexivity|exact Ph2].
Qed.

Lemma chat_of_the_posted_message_is_listed_first_witness :
  exists chat rest,
    get_chats (fst (post_message (lit "m3") 6 7 (lit "c2") question library))
    = Json ((chat,
             messages_of library (lit "c2")
               ++ [mkMessage (lit "m3") (lit "Why?") (lit "user") 6 (lit "c2")])
            :: rest)
    /\ chat_id chat = lit "c2"
    /\ chat_updatedAt chat = 7.
Proof.
  apply (chat_of_the_posted_message_is_listed_first (lit "m3") 6 7 (lit "c2")
           question library (lit "Why?") (lit "user")).
  - reflexivity.
  - reflexivity.
  - reflexivity.
  - reflexivity.
  - intros m [<-|[<-|[]]]; simpl; intros; lia.
  - intros c [<-|[<-|[]]]; simpl; lia.
Defined.

(** X23: a chat created through the route has a title that is not
    empty: the title of the request when it is a string that is not
    empty, [New Chat] when it is the empty string (or another value that
    is not truthy); the chat has the [id] given, no messages, and is
    added at the end of the table. When the route fails the database is
    as it was, and the [id] was taken or the title was not a string. *)
Theorem created_chat_has_a_title (uuid : jsstring) (now : Z) (body : json)
  (db : database) :
  match post_chat uuid now body db with
  | (db', Json (chat, messages)) =>
      chat_title chat <> []
      /\ (forall title,
             get (Value body) (lit "title") = Normal (Value (JString title)) ->
             chat_title chat
             = if truthy_string title then title else lit "New Chat")
      /\ (forall given,
             get (Value body) (lit "title") = Normal given ->
             truthy given = false -> chat_title chat = lit "New Chat")
      /\ chat_id chat = uuid
      /\ messages = []
      /\ chat_table db' = chat_table db ++ [chat]
      /\ message_table db' = message_table db
      /\ existsb (is_chat uuid) (chat_table db) = false
  | (db', Failure error) =>
      db' = db
      /\ error = lit "Failed to create chat"
      /\ (existsb (is_chat uuid) (chat_table db) = true
          \/ forall title,
               get (Value body) (lit "title")
               <> Normal (Value (JString title)))
  end.
Proof.
  unfold post_chat.
  destruct (get (Value body) (lit "title")) as [given|] eqn:G.
  - assert (T : forall title,
               given = Value (JString title) ->
               (if truthy given then given
                else Value (JString (lit "New Chat")))
               = Value (JString (if truthy_string title then title
                                 else lit "New Chat"))).
    { intros title ->. cbn [truthy]. destruct title; reflexivity. }
    destruct (if truthy given then given else Value (JString (lit "New Chat")))
      as [|[| | |stored| |]] eqn:S;
      try (split; [reflexivity|]; split; [reflexivity|]; right;
           intros title E; injection E as ->;
           specialize (T title eq_refl); congruence).
    destruct (existsb (is_chat uuid) (chat_table db)) eqn:F.
    + split; [reflexivity|]. split; [reflexivity|]. left. reflexivity.
    + cbn [chat_title chat_id chat_table message_table].
      split.
      * destruct (truthy given) eqn:Tg.
        -- subst given. cbn [truthy] in Tg. destruct stored; discriminate.
        -- injection S as <-. discriminate.
      * split.
        { intros title E. injection E as ->.
          specialize (T title eq_refl). congruence. }
        split; [|repeat split; reflexivity].
        intros given' E Tg. injection E as ->. rewrite Tg in S.
        injection S as <-. reflexivity.
  - split; [reflexivity|]. split; [reflexivity|]. right.
    intros title E. discriminate E.
Qed.

End ServerTheorems.

(* ================================================================== *)
(** ** The chat list, alone and over the server *)
(* ================================================================== *)

Section ChatList.

Import JS JSON App Sidebar.

(** X24: [confirmDelete] never changes the buffer. With no chat to
    delete it does nothing. When the server answers a deletion with
    success, the chats afterwards are those before without the chats of
    that [id], the confirmation is closed, and the current chat, the
    history and the streamed text are cleared exactly when the deleted
    chat was the current one. In every other case the chats, the current
    chat and the history are as they were, the confirmation stays open,
    and an error is shown. *)
Theorem confirmed_deletion (srv : server) (s : state) :
  streamBufferRef (app (confirmDelete srv s)) = streamBufferRef (app s)
  /\ match chatToDelete s with
     | Some (c :: id) =>
         match delete_chat srv (c :: id) with
         | Answers true (Some _) =>
             (forall chat,
                 In chat (chats (app (confirmDelete srv s)))
                 <-> In chat (chats (app s)) /\ chat_id chat <> c :: id)
             /\ chatToDelete (confirmDelete srv s) = None
             /\ isDeleteModalOpen (confirmDelete srv s) = false
             /\ (if is_current (app s) (c :: id) then
                   currentChatId (app (confirmDelete srv s)) = None
                   /\ chatHistory (app (confirmDelete srv s)) = []
                   /\ streamedResponse (app (confirmDelete srv s)) = []
                 else
                   currentChatId (app (confirmDelete srv s))
                   = currentChatId (app s)
                   /\ chatHistory (app (confirmDelete srv s))
                      = chatHistory (app s)
                   /\ streamedResponse (app (confirmDelete srv s))
                      = streamedResponse (app s))
         | _ =>
             chats (app (confirmDelete srv s)) = chats (app s)
             /\ currentChatId (app (confirmDelete srv s))
                = currentChatId (app s)
             /\ chatHistory (app (confirmDelete srv s)) = chatHistory (app s)
             /\ chatToDelete (confirmDelete srv s) = chatToDelete s
             /\ isDeleteModalOpen (confirmDelete srv s) = isDeleteModalOpen s
             /\ deleteError (confirmDelete srv s) <> None
         end
     | _ => confirmDelete srv s = s
     end.
Proof.
  unfold confirmDelete.
  destruct (chatToDelete s) as [[|c id]|] eqn:T; [split; reflexivity| |split; reflexivity].
  destruct (delete_chat srv (c :: id)) as [[] [data|]|]; cbn;
    try (split; [reflexivity|]; rewrite ?T; repeat split; discriminate).
  destruct (is_current (app s) (c :: id)) eqn:E; cbn;
    (split; [reflexivity|]); (split; [|repeat split; reflexivity]);
    intros chat; rewrite filter_In, negb_true_iff;
    change (str_eqb (chat_id chat) (c :: id) = false)
      with (str_eqb (chat_id chat) (c :: id) = false);
    rewrite (str_eqb_neq (chat_id chat) (c :: id)); reflexivity.
Qed.

End ChatList.

Section ClientAndServer.

Import JS JSON App Sidebar Wire Cases.

(** X25: deleting through the server of this repository: after
    [handleDeleteChat] and [confirmDelete], if the database has the chat,
    the chat list loses it, the confirmation is closed without error, and
    the server lists no message of the chat; if it has not, the chat list
    is as it was, the confirmation stays open, the error shown is the
    text [Failed to delete chat] of the route, and the database is as it
    was. *)
Theorem deleting_through_the_server (details : jsstring)
  (db : Server.database) (c : code_unit) (id : jsstring) (s : state) :
  let s' :=
    confirmDelete (backend details db) (handleDeleteChat (c :: id) s) in
  if existsb (Server.is_chat (c :: id)) (Server.chat_table db) then
    chats (app s')
    = filter (fun chat => negb (str_eqb (chat_id chat) (c :: id)))
        (chats (app s))
    /\ chatToDelete s' = None
    /\ deleteError s' = None
    /\ isDeleteModalOpen s' = false
    /\ Server.get_messages (fst (Server.delete_chat (c :: id) db)) (c :: id)
       = Server.Json []
  else
    chats (app s') = chats (app s)
    /\ chatToDelete s' = Some (c :: id)
    /\ deleteError s' = Some (Text (lit "Failed to delete chat"))
    /\ isDeleteModalOpen s' = true
    /\ fst (Server.delete_chat (c :: id) db) = db.
Proof.
  intros s'. subst s'.
  unfold confirmDelete, handleDeleteChat, backend.
  cbn [chatToDelete setIsDeleteModalOpen setChatToDelete setDeleteError
       delete_chat].
  destruct (existsb (Server.is_chat (c :: id)) (Server.chat_table db)) eqn:E.
  - rewrite (delete_chat_accepted (c :: id) db E). cbn [fst snd].
    unfold Server.get_messages. rewrite messages_of_deleted.
    match goal with
    | |- context [is_current ?w (c :: id)] => destruct (is_current w (c :: id))
    end; cbn; repeat split.
  - rewrite (delete_chat_refused (c :: id) db E). cbn. repeat split.
Qed.

(** X26: a message posted through the server ends the history of its
    chat: the history [handleChatClick] loads after the request is the
    one it loads before it, followed by the new message. The click makes
    the chat current and empties the streamed text and the buffer; it
    leaves the chats and [isConversationStarted] as they were. *)
Theorem posted_message_ends_the_clicked_history (details uuid : jsstring)
  (now date : Z) (id : jsstring) (body : json) (db : Server.database)
  (content role : jsstring) (s : state) :
  get (Value body) (lit "content") = Normal (Value (JString content)) ->
  get (Value body) (lit "role") = Normal (Value (JString role)) ->
  existsb (Server.is_chat id) (Server.chat_table db) = true ->
  existsb (fun m => str_eqb (Server.message_id m) uuid)
    (Server.message_table db) = false ->
  (forall m, In m (Server.message_table db) -> Server.message_chatId m = id ->
             Server.message_createdAt m <= now) ->
  let before := handleChatClick (backend details db) id s in
  let after :=
    handleChatClick
      (backend details (fst (Server.post_message uuid now date id body db)))
      id s in
  chatHistory (app after)
  = chatHistory (app before) ++ [mkMessage content role]
  /\ currentChatId (app after) = Some id
  /\ streamedResponse (app after) = []
  /\ streamBufferRef (app after) = []
  /\ isConversationStarted (app after) = isConversationStarted (app s)
  /\ chats (app after) = chats (app s).
Proof.
  intros H1 H2 H3 H4 H5 before after. subst before after.
  rewrite (post_message_accepted uuid now date id body db content role
             H1 H2 H3 H4).
  unfold handleChatClick, backend.
  cbn [get_messages answer Server.get_messages fst].
  rewrite (post_message_listed uuid now date id db content role H5).
  rewrite map_app. cbn. repeat split; reflexivity.
Qed.

Lemma posted_message_ends_the_clicked_history_witness :
  chatHistory
    (app (handleChatClick
            (backend [] (fst (Server.post_message (lit "m3") 6 7 (lit "c1")
                                question library)))
            (lit "c1") sidebar))
  = chatHistory (app (handleChatClick (backend [] library) (lit "c1") sidebar))
      ++ [mkMessage (lit "Why?") (lit "user")].
Proof.
  apply (posted_message_ends_the_clicked_history [] (lit "m3") 6 7 (lit "c1")
           question library (lit "Why?") (lit "user") sidebar).
  - reflexivity.
  - reflexivity.
  - reflexivity.
  - reflexivity.
  - intros m [<-|[<-|[]]] _; simpl; lia.
Defined.

(** X27: when the component is mounted over the server of this
    repository, the chats are those of the database, the chat updated
    last first; with no chat the component is as after [handleNewChat];
    otherwise the current chat is one updated last, the history is its
    messages, oldest first, and the conversation counts as started
    exactly when it has messages. *)
Theorem mounted_component_opens_the_latest_chat (details : jsstring)
  (db : Server.database) (s : state) :
  let s' := loadChats (backend details db) s in
  chats (app s')
  = map (fun listed => client_chat (fst listed)) (Server.all_chats db)
  /\ match Server.all_chats db with
     | [] => app s' = handleNewChat (setChats (fun _ => []) (app s))
     | (latest, messages) :: _ =>
         currentChatId (app s') = Some (Server.chat_id latest)
         /\ (forall chat,
                In chat (Server.chat_table db) ->
                Server.chat_updatedAt chat <= Server.chat_updatedAt latest)
         /\ chatHistory (app s') = map client_message messages
         /\ messages = Server.messages_of db (Server.chat_id latest)
         /\ isConversationStarted (app s')
            = match messages with [] => false | _ :: _ => true end
     end.
Proof.
  intros s'. subst s'. unfold loadChats, backend.
  cbn [get_chats get_messages answer Server.get_chats Server.get_messages].
  pose proof (sort_by_sorted Server.latest_first latest_first_trans
                latest_first_total (Server.chat_table db)) as S.
  pose proof (fun c => In_sort_by Server.latest_first c (Server.chat_table db))
    as I.
  unfold Server.all_chats.
  destruct (Server.sort_by Server.latest_first (Server.chat_table db))
    as [|latest rest]; cbn [map fst].
  - split; reflexivity.
  - cbn [client_chat chat_id].
    split; [reflexivity|].
    split; [reflexivity|].
    split.
    + intros chat H. apply I in H. destruct S as [S _].
      destruct H as [<-|H].
      * unfold Server.latest_first in S. lia.
      * specialize (S chat H). unfold Server.latest_first in S.
        apply Z.leb_le in S. exact S.
    + destruct (Server.messages_of db (Server.chat_id latest));
        repeat split; reflexivity.
Qed.

End ClientAndServer.

(* ================================================================== *)
(** ** The settings *)
(* ================================================================== *)

Section SettingsTheorems.

Import JS JSON App Settings Cases.

Lemma openrouter_answered_keeps (p : platform) (apiKey : jsstring)
  (s : state) :
  openRouterApiKey (app (openrouter_answered p apiKey s))
  = openRouterApiKey (app s)
  /\ ollamaEndpoint (app (openrouter_answered p apiKey s))
     = ollamaEndpoint (app s)
  /\ calls (openrouter_answered p apiKey s) = calls s
  /\ isSettingsOpen (openrouter_answered p apiKey s) = isSettingsOpen s
  /\ localStorage (openrouter_answered p apiKey s) = localStorage s
  /\ (settingsError (app (openrouter_answered p apiKey s)) = []
      \/ (settingsError (app (openrouter_answered p apiKey s))
          = openrouter_failure
          /\ availableModels (openrouter_answered p apiKey s) = [])).
Proof.
  unfold openrouter_answered.
  destruct (models p apiKey) as [[] [data|]|];
    try (repeat split; right; split; reflexivity).
  destruct (listed (lit "data") (lit "id") data);
    [repeat split; left; reflexivity
    |repeat split; right; split; reflexivity].
Qed.

Lemma ollama_answered_keeps (p : platform) (endpoint : jsstring)
  (s : state) :
  openRouterApiKey (app (ollama_answered p endpoint s))
  = openRouterApiKey (app s)
  /\ ollamaEndpoint (app (ollama_answered p endpoint s))
     = ollamaEndpoint (app s)
  /\ calls (ollama_answered p endpoint s) = calls s
  /\ isSettingsOpen (ollama_answered p endpoint s) = isSettingsOpen s
  /\ localStorage (ollama_answered p endpoint s) = localStorage s
  /\ (settingsError (app (ollama_answered p endpoint s)) = []
      \/ (settingsError (app (ollama_answered p endpoint s)) = ollama_failure
          /\ ollamaModels (ollama_answered p endpoint s) = [])).
Proof.
  unfold ollama_answered.
  destruct (tags p endpoint) as [[] [data|]|];
    try (repeat split; right; split; reflexivity).
  destruct (listed (lit "models") (lit "name") data);
    [repeat split; left; reflexivity
    |repeat split; right; split; reflexivity].
Qed.

(** X28: when the storage accepts the item, [handleSaveSettings] closes
    the panel whatever the provider answers, so the error of the fetch it
    started is not rendered: the error is empty, or it is the failure
    text of the provider and the list of its models is empty. The calls
    are the item stored and the request for the models of the provider
    of the closure, in this order, and none for another provider. *)
Theorem saving_never_shows_the_error_of_the_fetch (p : platform)
  (s : state) :
  quota_exceeded p = false ->
  isSettingsOpen (handleSaveSettings p s) = false
  /\ shows_error (handleSaveSettings p s) = false
  /\ (settingsError (app (handleSaveSettings p s)) = []
      \/ (settingsError (app (handleSaveSettings p s)) = openrouter_failure
          /\ availableModels (handleSaveSettings p s) = [])
      \/ (settingsError (app (handleSaveSettings p s)) = ollama_failure
          /\ ollamaModels (handleSaveSettings p s) = []))
  /\ calls (handleSaveSettings p s)
     = calls s
         ++ (if str_eqb (apiProvider (app s)) (lit "openrouter") then
               [SetItem (lit "openRouterApiKey") (openRouterApiKey (app s));
                GetModels (openRouterApiKey (app s))]
             else if str_eqb (apiProvider (app s)) (lit "ollama") then
               [SetItem (lit "ollamaEndpoint") (ollamaEndpoint (app s));
                GetTags (ollamaEndpoint (app s))]
             else []).
Proof.
  intros Q. unfold shows_error, handleSaveSettings, fetchOpenRouterModels,
    fetchOllamaModels. rewrite Q.
  destruct (str_eqb (apiProvider (app s)) (lit "openrouter")) eqn:E1.
  - cbn [fst snd].
    match goal with
    | |- context [openrouter_answered p ?k ?x] =>
        destruct (openrouter_answered_keeps p k x) as (_ & _ & C & O & _ & M)
    end.
    rewrite O, C. cbn. rewrite <- app_assoc.
    split; [reflexivity|]. split; [reflexivity|].
    split; [|reflexivity]. tauto.
  - destruct (str_eqb (apiProvider (app s)) (lit "ollama")) eqn:E2.
    + cbn [fst snd].
      match goal with
      | |- context [ollama_answered p ?k ?x] =>
          destruct (ollama_answered_keeps p k x) as (_ & _ & C & O & _ & M)
      end.
      rewrite O, C. cbn. rewrite <- app_assoc.
      split; [reflexivity|]. split; [reflexivity|].
      split; [|reflexivity]. tauto.
    + cbn. rewrite app_nil_r. repeat split. left. reflexivity.
Qed.

Lemma saving_never_shows_the_error_of_the_fetch_witness :
  isSettingsOpen (handleSaveSettings offline with_key) = false
  /\ shows_error (handleSaveSettings offline with_key) = false.
Proof.
  pose proof (saving_never_shows_the_error_of_the_fetch offline with_key
                eq_refl) as H.
  split; apply H.
Defined.

Lemma handleSaveSettings_storage (p : platform) (s : state) :
  quota_exceeded p = false ->
  localStorage (handleSaveSettings p s)
  = if str_eqb (apiProvider (app s)) (lit "openrouter") then
      (lit "openRouterApiKey", openRouterApiKey (app s)) :: localStorage s
    else if str_eqb (apiProvider (app s)) (lit "ollama") then
      (lit "ollamaEndpoint", ollamaEndpoint (app s)) :: localStorage s
    else localStorage s.
Proof.
  intros Q. unfold handleSaveSettings, fetchOpenRouterModels,
    fetchOllamaModels. rewrite Q.
  destruct (str_eqb (apiProvider (app s)) (lit "openrouter")) eqn:E1.
  - cbn [fst snd].
    match goal with
    | |- context [openrouter_answered p ?k ?x] =>
        destruct (openrouter_answered_keeps p k x) as (_ & _ & _ & _ & L & _)
    end.
    rewrite L. reflexivity.
  - destruct (str_eqb (apiProvider (app s)) (lit "ollama")) eqn:E2.
    + cbn [fst snd].
      match goal with
      | |- context [ollama_answered p ?k ?x] =>
          destruct (ollama_answered_keeps p k x) as (_ & _ & _ & _ & L & _)
      end.
      rewrite L. reflexivity.
    + reflexivity.
Qed.

Lemma mount_restores_key (p : platform) (s : state) (c : code_unit)
  (key : jsstring) :
  apiProvider (app s) = lit "openrouter" ->
  getItem (lit "openRouterApiKey") s = Some (c :: key) ->
  openRouterApiKey (app (mount p s)) = c :: key
  /\ calls (mount p s)
     = calls s ++ [GetModels (c :: key); ConsoleLog; GetModels (c :: key)].
Proof.
  intros E K. unfold mount, provider_effect, key_effect, fetchOpenRouterModels.
  rewrite K, E.
  change (str_eqb (lit "openrouter") (lit "openrouter")) with true.
  change (str_eqb (lit "openrouter") (lit "ollama")) with false.
  cbv iota.
  unfold getItem in *.
  destruct (find (fun item => str_eqb (fst item) (lit "ollamaEndpoint"))
              (localStorage s)) as [[k [|c0 e]]|];
    cbn [localStorage on_app call_ snd]; rewrite K; cbv beta iota;
    repeat match goal with
      | |- context [openrouter_answered p ?k ?x] =>
          let A := fresh in
          let B := fresh in
          destruct (openrouter_answered_keeps p k x) as (A & _ & B & _);
          rewrite A, B; clear A B
      end; cbn; rewrite <- !app_assoc; split; reflexivity.
Qed.

Lemma mount_restores_endpoint (p : platform) (s : state) (c : code_unit)
  (endpoint : jsstring) :
  apiProvider (app s) = lit "openrouter" ->
  getItem (lit "ollamaEndpoint") s = Some (c :: endpoint) ->
  ollamaEndpoint (app (mount p s)) = c :: endpoint.
Proof.
  intros E K. unfold mount, provider_effect, key_effect, fetchOpenRouterModels.
  rewrite K, E.
  change (str_eqb (lit "openrouter") (lit "openrouter")) with true.
  change (str_eqb (lit "openrouter") (lit "ollama")) with false.
  cbv iota.
  unfold getItem in *.
  destruct (find (fun item => str_eqb (fst item) (lit "openRouterApiKey"))
              (localStorage s)) as [[k [|c0 e]]|];
    cbn [localStorage on_app call_ snd fst];
    rewrite ?K; cbv beta iota;
    cbn [localStorage on_app call_ snd fst];
    repeat match goal with
      | |- context [find ?f (localStorage s)] =>
          destruct (find f (localStorage s)) as [[? [|? ?]]|]
      end;
    cbn [localStorage on_app call_ snd fst]; cbv beta iota;
    repeat match goal with
      | |- context [openrouter_answered p ?k ?x] =>
          let A := fresh in
          destruct (openrouter_answered_keeps p k x) as (_ & A & _);
          rewrite A; clear A
      end; reflexivity.
Qed.

(** X29: what [handleSaveSettings] saves is what the next mount
    restores: saved under the provider openrouter, a key that is not
    empty is read back by the two effects of a fresh component (whose
    provider is openrouter), becomes the key of the component, and the
    models are requested with it, once by each effect; saved under the
    provider ollama, an endpoint that is not empty becomes the endpoint
    of the fresh component. *)
Theorem saved_settings_are_restored (p p' : platform) (s : state)
  (apiKey endpoint : jsstring) :
  quota_exceeded p = false ->
  (apiProvider (app s) = lit "openrouter" /\ openRouterApiKey (app s) <> [])
  \/ (apiProvider (app s) = lit "ollama" /\ ollamaEndpoint (app s) <> []) ->
  let s' :=
    mount p'
      (first_render apiKey endpoint (localStorage (handleSaveSettings p s))) in
  if str_eqb (apiProvider (app s)) (lit "openrouter") then
    openRouterApiKey (app s') = openRouterApiKey (app s)
    /\ calls s'
       = [GetModels (openRouterApiKey (app s)); ConsoleLog;
          GetModels (openRouterApiKey (app s))]
  else ollamaEndpoint (app s') = ollamaEndpoint (app s).
Proof.
  intros Q H s'. subst s'. rewrite (handleSaveSettings_storage p s Q).
  destruct H as [[E K]|[E K]]; rewrite E.
  - change (str_eqb (lit "openrouter") (lit "openrouter")) with true.
    cbv iota.
    destruct (openRouterApiKey (app s)) as [|c key] eqn:Ek; [congruence|].
    apply (mount_restores_key p'); reflexivity.
  - change (str_eqb (lit "ollama") (lit "openrouter")) with false.
    change (str_eqb (lit "ollama") (lit "ollama")) with true.
    cbv iota.
    destruct (ollamaEndpoint (app s)) as [|c e] eqn:Ee; [congruence|].
    apply (mount_restores_endpoint p'); reflexivity.
Qed.

Lemma saved_settings_are_restored_witness :
  openRouterApiKey
    (app (mount offline
            (first_render [] (lit "http://localhost:11434")
               (localStorage (handleSaveSettings offline with_key)))))
  = lit "sk-1"
  /\ calls
       (mount offline
          (first_render [] (lit "http://localhost:11434")
             (localStorage (handleSaveSettings offline with_key))))
     = [GetModels (lit "sk-1"); ConsoleLog; GetModels (lit "sk-1")].
Proof.
  apply (saved_settings_are_restored offline offline with_key []
           (lit "http://localhost:11434")).
  - reflexivity.
  - left. split; [reflexivity|discriminate].
Defined.

End SettingsTheorems.
